(** * Api_catgram: the serializers and models of the [cats] application

    A shallow embedding of [cats/serializers.py] and [cats/models.py].

    - Python values that cross the API boundary are [json] terms (with an
      extra constructor for uploaded files); dictionaries are [gmap]s.
    - The relational store behind the three models is a record of three
      tables (lists of rows, in insertion order) and a journal of the
      writes that were committed.
    - Code that raises is a function into a sum: [inl] carries the
      exception, [inr] the value.  Code that touches the store or the
      logger threads that state explicitly, and keeps it when it raises
      (the project sets up no transaction of its own).
    - Everything the project consumes as a black box (the CSS3 colour
      table, the base64 codec, the framework's stock fields) is a member
      of the [Platform] class. *)

From Stdlib Require Import ZArith String Ascii List Lia Bool.
From Stdlib Require Import Strings.Byte.
From stdpp Require Import base option list gmap strings sorting.

Set Warnings "-register-all".
Local Open Scope string_scope.
Local Open Scope list_scope.
Local Open Scope Z_scope.

(** ** Python built-ins used by the serializers *)

Module Py.

(** [s.startswith(p)] *)
Definition startswith (s p : string) : bool := String.prefix p s.

(** [sep in s] *)
Fixpoint contains (sep s : string) : bool :=
  String.prefix sep s ||
  match s with
  | EmptyString => false
  | String _ s' => contains sep s'
  end.

(** The worker of [str.split]: [skip] counts the characters of a separator
    just matched that are still to be dropped.  The result is the segment
    being read and the segments after it. *)
Fixpoint split_go (sep : string) (skip : nat) (s : string) : string * list string :=
  match s with
  | EmptyString => (EmptyString, [])
  | String c s' =>
      match skip with
      | S k => split_go sep k s'
      | O =>
          if String.prefix sep s
          then (EmptyString,
                let '(h, t) := split_go sep (Nat.pred (String.length sep)) s' in h :: t)
          else let '(h, t) := split_go sep O s' in (String c h, t)
      end
  end.

(** [s.split(sep)] for a non-empty [sep]: the segments between the
    leftmost, non-overlapping occurrences of [sep]; never an empty list. *)
Definition split (s sep : string) : list string :=
  let '(h, t) := split_go sep O s in h :: t.

(** [l[-1]] on a list known to be non-empty ([split] never returns []). *)
Definition last_item (l : list string) : string := List.last l EmptyString.

(** [c.lower()] on one ASCII character *)
Definition lower_ascii (c : ascii) : ascii :=
  let n := nat_of_ascii c in
  if (Nat.leb 65 n && Nat.leb n 90)%bool then ascii_of_nat (n + 32) else c.

(** [s.lower()] *)
Fixpoint lower (s : string) : string :=
  match s with
  | EmptyString => EmptyString
  | String c s' => String (lower_ascii c) (lower s')
  end.

(** ["".join(2 * c for c in s)] *)
Fixpoint double_chars (s : string) : string :=
  match s with
  | EmptyString => EmptyString
  | String c s' => String c (String c (double_chars s'))
  end.

End Py.

(** ** Values, files and exceptions *)

(** A named in-memory file: Django's [ContentFile(content, name=...)], and
    also the shape of an uploaded file. *)
Record file := ContentFile { file_content : list byte; file_name : string }.

(** What a request body can hold: JSON, plus an uploaded file. *)
Inductive json :=
| JNull
| JBool (b : bool)
| JNum (z : Z)
| JStr (s : string)
| JArr (l : list json)
| JObj (o : gmap string json)
| JFile (f : file).

(** The detail carried by a [ValidationError]: a message, or the messages
    of the fields of a serializer, or those of the items of a list. *)
Inductive detail :=
| Msg (text : string)
| FieldErrors (errors : list (string * detail))
| ItemErrors (errors : list (option detail)).

(** A constraint of the schema declared in [models.py]. *)
Inductive constraint :=
| NotNull (column : string)
| CheckConstraint (name : string)
| UniqueTogether (columns : list string)
| ForeignKey (column : string).

Inductive exn :=
| ValueError (msg : string)
| TypeError (msg : string)
| ValidationError (d : detail)
| IntegrityError (c : constraint)
| MultipleObjectsReturned.

Definition is_ValidationError (e : exn) : bool :=
  match e with ValidationError _ => true | _ => false end.

(** A record of the [logging] module: the level and the formatted message. *)
Inductive log_record := LogError (message : string).

(** ** The platform: what the project imports and does not define *)

Class Platform := {
  (** [webcolors]: the CSS3 table from normalized hex codes to names. *)
  CSS3_HEX_TO_NAMES : gmap string string;
  (** [base64.b64decode] on a [str]: the bytes, or the text of the
      exception it raised. *)
  b64decode : string -> string + list byte;
  (** [serializers.ImageField.to_internal_value], which
      [Base64ImageField] reaches through [super()]. *)
  ImageField_to_internal_value : json -> exn + file;
  (** [serializers.CharField], with the [max_length] it was given if any,
      validating a value that is present and not null. *)
  CharField_run_validation : option nat -> json -> detail + string;
  (** [serializers.IntegerField] validating a value that is present and
      not null. *)
  IntegerField_run_validation : json -> detail + Z;
  (** The URL under which the storage backend serves a stored file. *)
  file_url : file -> string
}.

(** ** [webcolors.hex_to_name] *)

Module webcolors.

Definition is_hex_digit (c : ascii) : bool :=
  let n := nat_of_ascii c in
  ((Nat.leb 48 n && Nat.leb n 57) || (Nat.leb 97 n && Nat.leb n 102)
   || (Nat.leb 65 n && Nat.leb n 70))%bool.

(** [[a-fA-F0-9]{n}] at the head of [s]: the digits and what follows. *)
Fixpoint take_hex (n : nat) (s : string) : option (string * string) :=
  match n with
  | O => Some (EmptyString, s)
  | S n' =>
      match s with
      | EmptyString => None
      | String c s' =>
          if is_hex_digit c
          then match take_hex n' s' with
               | Some (d, r) => Some (String c d, r)
               | None => None
               end
          else None
      end
  end.

(** [$]: the end of the string, or just before a newline that ends it. *)
Definition at_dollar (s : string) : bool :=
  (String.eqb s EmptyString || String.eqb s (String "010"%char EmptyString))%bool.

Definition group_of (n : nat) (s : string) : option string :=
  match take_hex n s with
  | Some (d, r) => if at_dollar r then Some d else None
  | None => None
  end.

(** [HEX_COLOR_RE.match(s)] for
    [HEX_COLOR_RE = re.compile(r"^#([a-fA-F0-9]{3}|[a-fA-F0-9]{6})$")]:
    group 1 of the match, if any. *)
Definition HEX_COLOR_RE_match (s : string) : option string :=
  match s with
  | String "#"%char r =>
      match group_of 3 r with
      | Some d => Some d
      | None => group_of 6 r
      end
  | _ => None
  end.

Definition normalize_hex (hex_value : string) : exn + string :=
  match HEX_COLOR_RE_match hex_value with
  | None => inl (ValueError (hex_value +:+ " is not a valid hexadecimal color value."))
  | Some hex_digits =>
      let hex_digits :=
        if Nat.eqb (String.length hex_digits) 3 then Py.double_chars hex_digits
        else hex_digits in
      inr ("#" +:+ Py.lower hex_digits)
  end.

Definition hex_to_name `{Platform} (hex_value : string) : exn + string :=
  match normalize_hex hex_value with
  | inl e => inl e
  | inr normalized =>
      match CSS3_HEX_TO_NAMES !! normalized with
      | None => inl (ValueError (hex_value +:+ " has no defined color name in css3."))
      | Some name => inr name
      end
  end.

End webcolors.

(** ** [class Hex2NameColor(serializers.Field)] (serializers.py, 15-36) *)

Module Hex2NameColor.

Definition invalid_color : string :=
  "Неверный цветовой код или название для этого цвета не найдено.".

Definition to_representation (value : string) : string := value.

(** [webcolors.hex_to_name] hands its argument to [re.match], which raises
    [TypeError] on anything that is not a string; only [ValueError] is
    caught. *)
Definition to_internal_value `{Platform} (data : json) : exn + string :=
  match data with
  | JStr data =>
      match webcolors.hex_to_name data with
      | inl (ValueError _) => inl (ValidationError (Msg invalid_color))
      | inl e => inl e
      | inr data => inr data
      end
  | _ => inl (TypeError "expected string or bytes-like object")
  end.

End Hex2NameColor.

(** ** [class Base64ImageField(serializers.ImageField)] (serializers.py, 53-70) *)

Module Base64ImageField.

(** The body of the [try]: the file, or [str(e)] of the exception raised
    (by the unpacking of the split, or by the codec). *)
Definition decode `{Platform} (data : string) : string + file :=
  match Py.split data ";base64," with
  | [format; imgstr] =>
      let ext := Py.last_item (Py.split format "/") in
      match b64decode imgstr with
      | inl e => inl e
      | inr content => inr (ContentFile content ("temp." +:+ ext))
      end
  | [_] => inl "not enough values to unpack (expected 2, got 1)"
  | _ => inl "too many values to unpack (expected 2)"
  end.

Definition invalid_image : string := "Invalid base64 image data.".

Definition to_internal_value `{Platform} (data : json) (log : list log_record)
  : (exn + file) * list log_record :=
  match data with
  | JStr s =>
      if Py.startswith s "data:image"
      then match decode s with
           | inr f => (ImageField_to_internal_value (JFile f), log)
           | inl e =>
               (inl (ValidationError (Msg invalid_image)),
                log ++ [LogError ("Error decoding base64 image: " +:+ e)])
           end
      else (ImageField_to_internal_value data, log)
  | _ => (ImageField_to_internal_value data, log)
  end.

End Base64ImageField.

(** ** [models.py]: the three tables and their managers *)

(** [class Achievement(models.Model)] *)
Record Achievement := {
  Achievement_id : Z;
  Achievement_name : string
}.

(** [class Cat(models.Model)]; [owner] is the primary key of a user, and
    [image] the file the column refers to, if any. *)
Record Cat := {
  Cat_id : Z;
  Cat_name : string;
  Cat_color : string;
  Cat_birth_year : Z;
  Cat_owner : Z;
  Cat_image : option file
}.

(** [class AchievementCat(models.Model)]: the through model. *)
Record AchievementCat := {
  AchievementCat_id : Z;
  AchievementCat_achievement : Z;
  AchievementCat_cat : Z
}.

#[global] Instance byte_eq_dec : EqDecision byte := Byte.byte_eq_dec.
#[global] Instance file_eq_dec : EqDecision file.
Proof. solve_decision. Defined.
#[global] Instance Achievement_eq_dec : EqDecision Achievement.
Proof. solve_decision. Defined.
#[global] Instance Cat_eq_dec : EqDecision Cat.
Proof. solve_decision. Defined.
#[global] Instance AchievementCat_eq_dec : EqDecision AchievementCat.
Proof. solve_decision. Defined.

(** A write the database committed. *)
Inductive write :=
| InsertAchievement (row : Achievement)
| InsertCat (row : Cat)
| UpdateCat (row : Cat)
| DeleteCat (pk : Z)
| DeleteAchievement (pk : Z)
| InsertAchievementCat (row : AchievementCat)
| DeleteAchievementCats (cat_pk : Z)
| DeleteAchievementCatsOf (achievement_pk : Z).

Record store := {
  achievements : list Achievement;
  cats : list Cat;
  achievement_cats : list AchievementCat;
  journal : list write
}.

Definition empty_store : store :=
  {| achievements := []; cats := []; achievement_cats := []; journal := [] |}.

(** Code that reads and writes the store and may raise.  The store that
    comes back with an exception is the store at the time it was raised:
    what was written before stays written. *)
Definition DB (A : Type) : Type := store -> (exn + A) * store.

#[global] Instance DB_ret : MRet DB := fun A x s => (inr x, s).

#[global] Instance DB_bind : MBind DB := fun A B f m s =>
  match m s with
  | (inl e, s') => (inl e, s')
  | (inr x, s') => f x s'
  end.

(** [for x in l: body(x)] *)
Fixpoint for_each {A : Type} (l : list A) (body : A -> DB unit) : DB unit :=
  match l with
  | [] => mret tt
  | x :: l' => body x ≫= fun _ => for_each l' body
  end.

(** The primary key the backend gives a new row: one that is not in use
    in the table.  The model takes the successor of the largest key in
    use; a database sequence also skips the keys of deleted rows, so of
    this value only its freshness carries over to the database. *)
Definition fresh_pk (pks : list Z) : Z := 1 + foldr Z.max 0 pks.

(** The (achievement, cat) pairs of the through table. *)
Definition pair_of (r : AchievementCat) : Z * Z :=
  (AchievementCat_achievement r, AchievementCat_cat r).

Definition pairs (s : store) : list (Z * Z) := pair_of <$> achievement_cats s.

(** The descriptor of an achievement as the nested serializer validates
    it: the dictionary [{'name': ...}].  The key is absent only when a
    partial update leaves [achievement_name] out of an item. *)
Record achievement_data := { data_name : option string }.

(** The descriptor [{'name': n}]. *)
Definition descriptor (n : string) : achievement_data := {| data_name := Some n |}.

(** The dictionary [validated_data]: each key of the serializer's writable
    fields may be present or absent; [image] may be present and null. *)
Record validated_data := {
  vd_name : option string;
  vd_color : option string;
  vd_birth_year : option Z;
  vd_achievements : option (list achievement_data);
  vd_owner : option Z;
  vd_image : option (option file)
}.

(** [models.Q(birth_year__gt=1900, birth_year__lt=2100)] *)
Definition birth_year_reasonable (birth_year : Z) : Prop :=
  1900 < birth_year ∧ birth_year < 2100.

#[global] Instance birth_year_reasonable_dec y : Decision (birth_year_reasonable y).
Proof. unfold birth_year_reasonable. apply _. Defined.

(** A row matches the keyword arguments of a lookup when it agrees with
    each of them. *)
Definition matches (kwargs : achievement_data) (a : Achievement) : Prop :=
  match data_name kwargs with
  | Some n => Achievement_name a = n
  | None => True
  end.

#[global] Instance matches_dec kwargs a : Decision (matches kwargs a).
Proof. unfold matches. destruct (data_name kwargs); apply _. Defined.

(** [Achievement.objects.create] on the keyword arguments [kwargs]; a
    name left out defaults to the empty string. *)
Definition Achievement_objects_create (kwargs : achievement_data) : DB Achievement :=
  fun s =>
    let row := {| Achievement_id := fresh_pk (Achievement_id <$> achievements s);
                  Achievement_name := default "" (data_name kwargs) |} in
    (inr row,
     {| achievements := achievements s ++ [row]; cats := cats s;
        achievement_cats := achievement_cats s;
        journal := journal s ++ [InsertAchievement row] |}).

(** [Achievement.objects.get_or_create] on the keyword arguments
    [kwargs]: the row that matches is returned, [get] raises when several
    rows match, and the row is created when none does. *)
Definition Achievement_objects_get_or_create (kwargs : achievement_data)
  : DB (Achievement * bool) :=
  fun s =>
    match filter (matches kwargs) (achievements s) with
    | [] => (Achievement_objects_create kwargs ≫= fun a => mret (a, true)) s
    | [a] => (inr (a, false), s)
    | _ => (inl MultipleObjectsReturned, s)
    end.

(** [Cat.objects.create] on the keyword arguments [kwargs].  A
    many-to-many key among the arguments is refused by the model's
    constructor; a [CharField] left out defaults to the empty string; the
    columns that are not nullable are checked, then the check constraint
    of [Meta.constraints].  The birth year is an integer the column can
    hold ([in_IntegerField_range] below); what the database driver does
    with a larger one is not modelled. *)
Definition Cat_objects_create (kwargs : validated_data) : DB Cat :=
  fun s =>
    match vd_achievements kwargs with
    | Some _ =>
        (inl (TypeError "Direct assignment to the forward side of a many-to-many set"), s)
    | None =>
        match vd_birth_year kwargs, vd_owner kwargs with
        | None, _ => (inl (IntegrityError (NotNull "birth_year")), s)
        | Some _, None => (inl (IntegrityError (NotNull "owner_id")), s)
        | Some birth_year, Some owner =>
            if decide (birth_year_reasonable birth_year)
            then
              let row := {| Cat_id := fresh_pk (Cat_id <$> cats s);
                            Cat_name := default "" (vd_name kwargs);
                            Cat_color := default "" (vd_color kwargs);
                            Cat_birth_year := birth_year;
                            Cat_owner := owner;
                            Cat_image := default None (vd_image kwargs) |} in
              (inr row,
               {| achievements := achievements s; cats := cats s ++ [row];
                  achievement_cats := achievement_cats s;
                  journal := journal s ++ [InsertCat row] |})
            else (inl (IntegrityError (CheckConstraint "birth_year_reasonable")), s)
        end
    end.

(** [instance.save()]: the row with the instance's primary key is
    rewritten, or inserted when there is none; the check constraint
    applies either way.  As for [Cat.objects.create], the birth year is
    an integer the column can hold. *)
Definition Cat_save (instance : Cat) : DB unit :=
  fun s =>
    if decide (birth_year_reasonable (Cat_birth_year instance))
    then
      if decide (Cat_id instance ∈ Cat_id <$> cats s)
      then
        (inr tt,
         {| achievements := achievements s;
            cats := (fun row => if decide (Cat_id row = Cat_id instance)
                                then instance else row) <$> cats s;
            achievement_cats := achievement_cats s;
            journal := journal s ++ [UpdateCat instance] |})
      else
        (inr tt,
         {| achievements := achievements s; cats := cats s ++ [instance];
            achievement_cats := achievement_cats s;
            journal := journal s ++ [InsertCat instance] |})
    else (inl (IntegrityError (CheckConstraint "birth_year_reasonable")), s).

(** [AchievementCat.objects.create(achievement=..., cat=...)]:
    [unique_together = ['achievement', 'cat']] and the two foreign keys
    are enforced by the database. *)
Definition AchievementCat_objects_create (achievement : Achievement) (cat : Cat)
  : DB AchievementCat :=
  fun s =>
    if decide ((Achievement_id achievement, Cat_id cat) ∈ pairs s)
    then (inl (IntegrityError (UniqueTogether ["achievement"; "cat"])), s)
    else if decide (Achievement_id achievement ∈ Achievement_id <$> achievements s)
    then
      if decide (Cat_id cat ∈ Cat_id <$> cats s)
      then
        let row :=
          {| AchievementCat_id := fresh_pk (AchievementCat_id <$> achievement_cats s);
             AchievementCat_achievement := Achievement_id achievement;
             AchievementCat_cat := Cat_id cat |} in
        (inr row,
         {| achievements := achievements s; cats := cats s;
            achievement_cats := achievement_cats s ++ [row];
            journal := journal s ++ [InsertAchievementCat row] |})
      else (inl (IntegrityError (ForeignKey "cat_id")), s)
    else (inl (IntegrityError (ForeignKey "achievement_id")), s).

(** [instance.achievements.clear()]: every row of the through table that
    refers to the instance is deleted. *)
Definition Cat_achievements_clear (instance : Cat) : DB unit :=
  fun s =>
    (inr tt,
     {| achievements := achievements s; cats := cats s;
        achievement_cats :=
          filter (fun r => AchievementCat_cat r ≠ Cat_id instance) (achievement_cats s);
        journal := journal s ++ [DeleteAchievementCats (Cat_id instance)] |}).

(** [cat.delete()]: [on_delete=models.CASCADE] on [AchievementCat.cat]. *)
Definition Cat_delete (pk : Z) : DB unit :=
  fun s =>
    (inr tt,
     {| achievements := achievements s;
        cats := filter (fun c => Cat_id c ≠ pk) (cats s);
        achievement_cats := filter (fun r => AchievementCat_cat r ≠ pk) (achievement_cats s);
        journal := journal s ++ [DeleteAchievementCats pk; DeleteCat pk] |}).

(** [achievement.delete()]: [on_delete=models.CASCADE] on
    [AchievementCat.achievement]. *)
Definition Achievement_delete (pk : Z) : DB unit :=
  fun s =>
    (inr tt,
     {| achievements := filter (fun a => Achievement_id a ≠ pk) (achievements s);
        cats := cats s;
        achievement_cats :=
          filter (fun r => AchievementCat_achievement r ≠ pk) (achievement_cats s);
        journal := journal s ++ [DeleteAchievementCatsOf pk; DeleteAchievement pk] |}).

(** [ordering = ['name']] of [Achievement.Meta]: a stable sort. *)
Fixpoint insert_by_name (a : Achievement) (l : list Achievement) : list Achievement :=
  match l with
  | [] => [a]
  | b :: l' =>
      if String.leb (Achievement_name a) (Achievement_name b)
      then a :: l
      else b :: insert_by_name a l'
  end.

Definition order_by_name (l : list Achievement) : list Achievement :=
  foldr insert_by_name [] l.

(** [instance.achievements.all()]: the achievements joined to the cat by
    the through table, in the model's ordering. *)
Definition Cat_achievements_all (instance : Cat) (s : store) : list Achievement :=
  order_by_name
    (r ← filter (fun r => AchievementCat_cat r = Cat_id instance) (achievement_cats s);
     filter (fun a => Achievement_id a = AchievementCat_achievement r) (achievements s)).

(** ** The framework's serializer machinery, as the declarations use it *)

(** A declared field of a serializer whose validated data has type [V]:
    its flags, how it validates a value that is present and not null and
    stores the result under its source ([field_run], which may log), and
    how it stores a null. *)
Record field (V : Type) := {
  field_name : string;
  read_only : bool;
  required : bool;
  allow_null : bool;
  field_run : bool -> json -> list log_record -> (exn + (V -> V)) * list log_record;
  set_null : V -> V
}.
Arguments field_name {V} _.
Arguments read_only {V} _.
Arguments required {V} _.
Arguments allow_null {V} _.
Arguments field_run {V} _ _ _ _.
Arguments set_null {V} _ _.

Module Field.

Definition required_msg : string := "This field is required.".
Definition null_msg : string := "This field may not be null.".

(** [Field.run_validation] with [validate_empty_values]: a key that is
    absent is skipped under partial validation or when the field is not
    required; a null is stored when the field allows it.  [None] stands
    for [SkipField]. *)
Definition run_validation {V} (partial : bool) (f : field V) (data : option json)
    (log : list log_record) : (exn + option (V -> V)) * list log_record :=
  match data with
  | None =>
      if partial then (inr None, log)
      else if required f then (inl (ValidationError (Msg required_msg)), log)
      else (inr None, log)
  | Some JNull =>
      if allow_null f then (inr (Some (set_null f)), log)
      else (inl (ValidationError (Msg null_msg)), log)
  | Some v =>
      match field_run f partial v log with
      | (inl e, log') => (inl e, log')
      | (inr set, log') => (inr (Some set), log')
      end
  end.

End Field.

Module Serializer.

(** The Python type name the error messages quote. *)
Definition type_name (v : json) : string :=
  match v with
  | JNull => "NoneType"
  | JBool _ => "bool"
  | JNum _ => "int"
  | JStr _ => "str"
  | JArr _ => "list"
  | JObj _ => "dict"
  | JFile _ => "InMemoryUploadedFile"
  end.

Definition invalid_msg (v : json) : string :=
  "Invalid data. Expected a dictionary, but got " +:+ type_name v +:+ ".".

(** The loop of [Serializer.to_internal_value] over the writable fields:
    a [ValidationError] of a field is collected under the field's name,
    any other exception leaves the loop at once. *)
Fixpoint to_internal_value_loop {V} (partial : bool) (fs : list (field V))
    (data : gmap string json) (ret : V) (errors : list (string * detail))
    (log : list log_record) : (exn + V * list (string * detail)) * list log_record :=
  match fs with
  | [] => (inr (ret, errors), log)
  | f :: fs' =>
      match Field.run_validation partial f (data !! field_name f) log with
      | (inl (ValidationError d), log') =>
          to_internal_value_loop partial fs' data ret (errors ++ [(field_name f, d)]) log'
      | (inl e, log') => (inl e, log')
      | (inr None, log') => to_internal_value_loop partial fs' data ret errors log'
      | (inr (Some set), log') =>
          to_internal_value_loop partial fs' data (set ret) errors log'
      end
  end.

(** [_writable_fields] *)
Definition writable_fields {V} (fields : list (field V)) : list (field V) :=
  filter (fun f => read_only f = false) fields.

(** [Serializer.to_internal_value] of a serializer with the declared
    [fields], whose validated data starts as [empty]. *)
Definition to_internal_value {V} (fields : list (field V)) (empty : V) (partial : bool)
    (data : json) (log : list log_record) : (exn + V) * list log_record :=
  match data with
  | JObj data =>
      match to_internal_value_loop partial (writable_fields fields) data empty [] log with
      | (inl e, log') => (inl e, log')
      | (inr (ret, []), log') => (inr ret, log')
      | (inr (_, errors), log') => (inl (ValidationError (FieldErrors errors)), log')
      end
  | _ =>
      (inl (ValidationError (FieldErrors [("non_field_errors", Msg (invalid_msg data))])),
       log)
  end.

(** The loop of [ListSerializer.to_internal_value]: every item is
    validated by the child; the errors are kept by position. *)
Fixpoint list_loop {V} (child : json -> list log_record -> (exn + V) * list log_record)
    (items : list json) (ret : list V) (errors : list (option detail))
    (log : list log_record) : (exn + list V * list (option detail)) * list log_record :=
  match items with
  | [] => (inr (ret, errors), log)
  | item :: items' =>
      match child item log with
      | (inl (ValidationError d), log') =>
          list_loop child items' ret (errors ++ [Some d]) log'
      | (inl e, log') => (inl e, log')
      | (inr v, log') => list_loop child items' (ret ++ [v]) (errors ++ [None]) log'
      end
  end.

Definition not_a_list_msg (v : json) : string :=
  "Expected a list of items but got type " +:+ type_name v +:+ ".".

(** [ListSerializer.to_internal_value] *)
Definition many_to_internal_value {V}
    (child : json -> list log_record -> (exn + V) * list log_record)
    (data : json) (log : list log_record) : (exn + list V) * list log_record :=
  match data with
  | JArr items =>
      match list_loop child items [] [] log with
      | (inl e, log') => (inl e, log')
      | (inr (ret, errors), log') =>
          if forallb (fun e => negb (bool_decide (is_Some e))) errors
          then (inr ret, log')
          else (inl (ValidationError (ItemErrors errors)), log')
      end
  | _ =>
      (inl (ValidationError
              (FieldErrors [("non_field_errors", Msg (not_a_list_msg data))])),
       log)
  end.

End Serializer.

(** ** [class AchievementSerializer(serializers.ModelSerializer)] (serializers.py, 39-50) *)

Module AchievementSerializer.

Definition no_data : achievement_data := {| data_name := None |}.

(** [fields = ('id', 'achievement_name')], [read_only_fields = ('id',)];
    [achievement_name] is a [CharField] declared with [source='name'] and
    no [max_length]. *)
Definition fields `{Platform} : list (field achievement_data) :=
  [ {| field_name := "id"; read_only := true; required := false; allow_null := false;
       field_run := fun _ _ log => (inr (fun ret => ret), log);
       set_null := fun ret => ret |};
    {| field_name := "achievement_name"; read_only := false; required := true;
       allow_null := false;
       field_run := fun _ v log =>
         match CharField_run_validation None v with
         | inl d => (inl (ValidationError d), log)
         | inr name => (inr (fun _ => {| data_name := Some name |}), log)
         end;
       set_null := fun ret => ret |} ].

(** The validation of one item of the nested list. *)
Definition run_validation `{Platform} (partial : bool) (data : json)
    (log : list log_record) : (exn + achievement_data) * list log_record :=
  match data with
  | JNull => (inl (ValidationError (Msg Field.null_msg)), log)
  | _ => Serializer.to_internal_value fields no_data partial data log
  end.

Definition to_representation (instance : Achievement) : json :=
  JObj (<["id" := JNum (Achievement_id instance)]>
        (<["achievement_name" := JStr (Achievement_name instance)]> ∅)).

End AchievementSerializer.

(** ** [class CatSerializer(serializers.ModelSerializer)] (serializers.py, 73-145) *)

(** The part of [datetime.datetime.now()] that is read. *)
Record datetime := { year : Z }.

Module CatSerializer.

Definition no_data : validated_data :=
  {| vd_name := None; vd_color := None; vd_birth_year := None;
     vd_achievements := None; vd_owner := None; vd_image := None |}.

Definition set_name (v : string) (d : validated_data) : validated_data :=
  {| vd_name := Some v; vd_color := vd_color d; vd_birth_year := vd_birth_year d;
     vd_achievements := vd_achievements d; vd_owner := vd_owner d;
     vd_image := vd_image d |}.

Definition set_color (v : string) (d : validated_data) : validated_data :=
  {| vd_name := vd_name d; vd_color := Some v; vd_birth_year := vd_birth_year d;
     vd_achievements := vd_achievements d; vd_owner := vd_owner d;
     vd_image := vd_image d |}.

Definition set_birth_year (v : Z) (d : validated_data) : validated_data :=
  {| vd_name := vd_name d; vd_color := vd_color d; vd_birth_year := Some v;
     vd_achievements := vd_achievements d; vd_owner := vd_owner d;
     vd_image := vd_image d |}.

Definition set_achievements (v : option (list achievement_data)) (d : validated_data)
  : validated_data :=
  {| vd_name := vd_name d; vd_color := vd_color d; vd_birth_year := vd_birth_year d;
     vd_achievements := v; vd_owner := vd_owner d; vd_image := vd_image d |}.

Definition set_owner (v : Z) (d : validated_data) : validated_data :=
  {| vd_name := vd_name d; vd_color := vd_color d; vd_birth_year := vd_birth_year d;
     vd_achievements := vd_achievements d; vd_owner := Some v;
     vd_image := vd_image d |}.

Definition set_image (v : option file) (d : validated_data) : validated_data :=
  {| vd_name := vd_name d; vd_color := vd_color d; vd_birth_year := vd_birth_year d;
     vd_achievements := vd_achievements d; vd_owner := vd_owner d;
     vd_image := Some v |}.

(** A field the client cannot set: it has no part in validation. *)
Definition read_only_field (name : string) : field validated_data :=
  {| field_name := name; read_only := true; required := false; allow_null := false;
     field_run := fun _ _ log => (inr (fun ret => ret), log);
     set_null := fun ret => ret |}.

(** [Meta.fields], in order, with [read_only_fields = ('owner', 'age',
    'id')] and the fields declared on the class: [achievements] (nested,
    [many=True], [required=False]), [color], [age] and [image]
    ([required=False], [allow_null=True]).  [name] and [birth_year] are
    the fields the framework derives from the model's columns. *)
Definition fields `{Platform} : list (field validated_data) :=
  [ read_only_field "id";
    {| field_name := "name"; read_only := false; required := true; allow_null := false;
       field_run := fun _ v log =>
         match CharField_run_validation (Some 16%nat) v with
         | inl d => (inl (ValidationError d), log)
         | inr x => (inr (set_name x), log)
         end;
       set_null := fun ret => ret |};
    {| field_name := "color"; read_only := false; required := true; allow_null := false;
       field_run := fun _ v log =>
         match Hex2NameColor.to_internal_value v with
         | inl e => (inl e, log)
         | inr x => (inr (set_color x), log)
         end;
       set_null := fun ret => ret |};
    {| field_name := "birth_year"; read_only := false; required := true;
       allow_null := false;
       field_run := fun _ v log =>
         match IntegerField_run_validation v with
         | inl d => (inl (ValidationError d), log)
         | inr x => (inr (set_birth_year x), log)
         end;
       set_null := fun ret => ret |};
    {| field_name := "achievements"; read_only := false; required := false;
       allow_null := false;
       field_run := fun partial v log =>
         match Serializer.many_to_internal_value
                 (AchievementSerializer.run_validation partial) v log with
         | (inl e, log') => (inl e, log')
         | (inr x, log') => (inr (set_achievements (Some x)), log')
         end;
       set_null := fun ret => ret |};
    read_only_field "owner";
    read_only_field "age";
    {| field_name := "image"; read_only := false; required := false; allow_null := true;
       field_run := fun _ v log =>
         match Base64ImageField.to_internal_value v log with
         | (inl e, log') => (inl e, log')
         | (inr x, log') => (inr (set_image (Some x)), log')
         end;
       set_null := set_image None |} ].

(** [serializer.run_validation(data)]: the model declares no validator
    the serializer could pick up, so this is [to_internal_value]. *)
Definition run_validation `{Platform} (partial : bool) (data : json)
    (log : list log_record) : (exn + validated_data) * list log_record :=
  Serializer.to_internal_value fields no_data partial data log.

(** [def get_age(self, obj)], given what the clock reads. *)
Definition get_age (now : datetime) (obj : Cat) : Z :=
  year now - Cat_birth_year obj.

(** The body of the loop over the descriptors, the same in [create] and
    in [update]: [get_or_create], then the through row. *)
Definition attach (cat : Cat) (achievement_data : achievement_data) : DB unit :=
  '(achievement, _) ← Achievement_objects_get_or_create achievement_data;
  _ ← AchievementCat_objects_create achievement cat;
  mret tt.

(** [def create(self, validated_data)]; [pop('achievements', [])] reads
    the key with its default and removes it. *)
Definition create (validated_data : validated_data) : DB Cat :=
  let achievements := default [] (vd_achievements validated_data) in
  let validated_data := set_achievements None validated_data in
  cat ← Cat_objects_create validated_data;
  _ ← for_each achievements (fun achievement_data =>
        '(achievement, _) ← Achievement_objects_get_or_create achievement_data;
        _ ← AchievementCat_objects_create achievement cat;
        mret tt);
  mret cat.

(** [def update(self, instance, validated_data)]; [get(key, default)] is
    the value of a key that is present and the instance's own otherwise;
    the relation is touched only when [pop('achievements', None)] is not
    [None]. *)
Definition update (instance : Cat) (validated_data : validated_data) : DB Cat :=
  let achievements_data := vd_achievements validated_data in
  let instance :=
    {| Cat_id := Cat_id instance;
       Cat_name := default (Cat_name instance) (vd_name validated_data);
       Cat_color := default (Cat_color instance) (vd_color validated_data);
       Cat_birth_year := default (Cat_birth_year instance) (vd_birth_year validated_data);
       Cat_owner := Cat_owner instance;
       Cat_image := default (Cat_image instance) (vd_image validated_data) |} in
  _ ← Cat_save instance;
  _ ← match achievements_data with
      | Some achievements_data =>
          _ ← Cat_achievements_clear instance;
          for_each achievements_data (fun achievement_data =>
            '(achievement, _) ← Achievement_objects_get_or_create achievement_data;
            _ ← AchievementCat_objects_create achievement instance;
            mret tt)
      | None => mret tt
      end;
  mret instance.

(** [serializer.save(owner=...)]: the keyword arguments are merged into
    the validated data, and [update] or [create] is called according to
    whether the serializer was given an instance. *)
Definition save (instance : option Cat) (owner : option Z)
    (validated_data : validated_data) : DB Cat :=
  let validated_data :=
    match owner with
    | Some o => set_owner o validated_data
    | None => validated_data
    end in
  match instance with
  | Some instance => update instance validated_data
  | None => create validated_data
  end.

(** A write request: [is_valid(raise_exception=True)], then [save]. *)
Definition is_valid_and_save `{Platform} (instance : option Cat) (owner : option Z)
    (partial : bool) (data : json) (log : list log_record) (s : store)
  : (exn + Cat) * list log_record * store :=
  match run_validation partial data log with
  | (inl e, log') => (inl e, log', s)
  | (inr validated_data, log') =>
      let '(r, s') := save instance owner validated_data s in (r, log', s')
  end.

(** [serializer.to_representation(instance)]: every declared field, read
    from the instance. *)
Definition to_representation `{Platform} (now : datetime) (s : store) (instance : Cat)
  : gmap string json :=
  <["id" := JNum (Cat_id instance)]>
  (<["name" := JStr (Cat_name instance)]>
  (<["color" := JStr (Hex2NameColor.to_representation (Cat_color instance))]>
  (<["birth_year" := JNum (Cat_birth_year instance)]>
  (<["achievements" :=
       JArr (AchievementSerializer.to_representation <$> Cat_achievements_all instance s)]>
  (<["owner" := JNum (Cat_owner instance)]>
  (<["age" := JNum (get_age now instance)]>
  (<["image" := match Cat_image instance with
                | Some f => JStr (file_url f)
                | None => JNull
                end]> ∅))))))).

End CatSerializer.

(** ** A concrete platform, to run the model on examples

    The statements below hold for every platform; this one instantiates
    them: five rows of the CSS3 table, the RFC 4648 decoder, stock fields
    that accept a value of the field's own JSON type, and an image field
    that accepts a named file whose content starts as a GIF, a PNG or a
    JPEG file does, and rejects every other file as the stock field
    rejects a file that is not an image. *)

Module Sample.

Definition sextet (c : ascii) : option N :=
  let n := N_of_ascii c in
  if ((65 <=? n) && (n <=? 90))%N then Some (n - 65)%N
  else if ((97 <=? n) && (n <=? 122))%N then Some (n - 71)%N
  else if ((48 <=? n) && (n <=? 57))%N then Some (n + 4)%N
  else if (n =? 43)%N then Some 62%N
  else if (n =? 47)%N then Some 63%N
  else None.

Definition byte_of (n : N) : byte := default x00 (Byte.of_N (n mod 256)).

Definition is_pad (c : ascii) : bool := Ascii.eqb c "="%char.

Fixpoint decode_quads (cs : list ascii) : option (list byte) :=
  match cs with
  | [] => Some []
  | c1 :: c2 :: c3 :: c4 :: rest =>
      match sextet c1, sextet c2 with
      | Some n1, Some n2 =>
          if (is_pad c3 && is_pad c4)%bool
          then match rest with
               | [] => Some [byte_of (n1 * 4 + n2 / 16)]
               | _ => None
               end
          else match sextet c3 with
               | Some n3 =>
                   if is_pad c4
                   then match rest with
                        | [] => Some [byte_of (n1 * 4 + n2 / 16);
                                      byte_of (n2 * 16 + n3 / 4)]
                        | _ => None
                        end
                   else match sextet c4, decode_quads rest with
                        | Some n4, Some bs =>
                            Some (byte_of (n1 * 4 + n2 / 16)
                                  :: byte_of (n2 * 16 + n3 / 4)
                                  :: byte_of (n3 * 64 + n4) :: bs)
                        | _, _ => None
                        end
               | None => None
               end
      | _, _ => None
      end
  | _ => None
  end.

Definition rfc4648_decode (s : string) : string + list byte :=
  match decode_quads (list_ascii_of_string s) with
  | Some bs => inr bs
  | None => inl "Incorrect padding"
  end.

(** The first bytes of a GIF, a PNG and a JPEG file. *)
Definition image_signatures : list (list byte) :=
  [ ["G"; "I"; "F"; "8"; "7"; "a"]%byte;
    ["G"; "I"; "F"; "8"; "9"; "a"]%byte;
    [x89; "P"%byte; "N"%byte; "G"%byte; x0d; x0a; x1a; x0a];
    [xff; xd8; xff] ].

Definition is_image (content : list byte) : bool :=
  existsb (fun signature =>
             bool_decide (take (length signature) content = signature))
          image_signatures.

(** The stock field's message for a file that is not an image. *)
Definition invalid_image : string :=
  "Upload a valid image. The file you uploaded was either not an image or a corrupted image.".

Definition accept_file (data : json) : exn + file :=
  match data with
  | JFile f =>
      if (Nat.eqb (String.length (file_name f)) 0 || Nat.eqb (length (file_content f)) 0)%bool
      then inl (ValidationError (Msg "The submitted file is empty."))
      else if is_image (file_content f) then inr f
      else inl (ValidationError (Msg invalid_image))
  | _ => inl (ValidationError (Msg "The submitted data was not a file."))
  end.

Definition accept_string (max_length : option nat) (data : json)
  : detail + string :=
  match data with
  | JStr s =>
      match max_length with
      | Some n =>
          if Nat.leb (String.length s) n then inr s
          else inl (Msg "Ensure this field has no more characters than allowed.")
      | None => inr s
      end
  | _ => inl (Msg "Not a valid string.")
  end.

Definition accept_integer (data : json) : detail + Z :=
  match data with
  | JNum z => inr z
  | _ => inl (Msg "A valid integer is required.")
  end.

Definition platform : Platform := {|
  CSS3_HEX_TO_NAMES :=
    list_to_map [("#ffffff", "white"); ("#000000", "black"); ("#ff0000", "red");
                 ("#ffa500", "orange"); ("#ffc0cb", "pink")];
  b64decode := rfc4648_decode;
  ImageField_to_internal_value := accept_file;
  CharField_run_validation := accept_string;
  IntegerField_run_validation := accept_integer;
  file_url := fun f => "/media/cats/images/" +:+ file_name f
|}.

End Sample.

(** ** The schema as a predicate on stores, and the reachable stores *)

(** The constraints the database enforces: primary keys, the
    [unique_together] of the through model, and its two foreign keys. *)
Record schema_ok (s : store) : Prop := {
  achievement_pk : NoDup (Achievement_id <$> achievements s);
  cat_pk : NoDup (Cat_id <$> cats s);
  achievement_cat_unique_together : NoDup (pairs s);
  achievement_cat_foreign_keys :
    forall r, r ∈ achievement_cats s ->
      AchievementCat_achievement r ∈ Achievement_id <$> achievements s /\
      AchievementCat_cat r ∈ Cat_id <$> cats s
}.

(** No two achievements share a name.  The schema does not ask for it;
    it holds as long as achievements come from [get_or_create]. *)
Definition unique_names (s : store) : Prop :=
  NoDup (Achievement_name <$> achievements s).

(** The through rows of a cat, in the order of the table. *)
Definition rows_of (cat_pk : Z) (s : store) : list AchievementCat :=
  filter (fun r => AchievementCat_cat r = cat_pk) (achievement_cats s).

(** The invariant of the data model on [birth_year]. *)
Definition birth_years_reasonable (s : store) : Prop :=
  Forall (fun c => birth_year_reasonable (Cat_birth_year c)) (cats s).

(** The consistency every request preserves: the schema, and the
    uniqueness of achievement names. *)
Definition consistent (s : store) : Prop := schema_ok s /\ unique_names s.

(** The through rows of the cat link it to achievements that do not have
    the name [n]. *)
Definition not_linked_to (cat_pk : Z) (n : string) (s : store) : Prop :=
  forall r, r ∈ achievement_cats s -> AchievementCat_cat r = cat_pk ->
    exists a, a ∈ achievements s /\ Achievement_id a = AchievementCat_achievement r /\
              Achievement_name a <> n.

(** One request against the store: the two operations of the serializer on
    any validated data (whether they return or raise), the deletions with
    their cascades, and a direct insertion into the through table. *)
Inductive step : store -> store -> Prop :=
| step_create vd s : step s (snd (CatSerializer.create vd s))
| step_update instance vd s : step s (snd (CatSerializer.update instance vd s))
| step_delete_cat pk s : step s (snd (Cat_delete pk s))
| step_delete_achievement pk s : step s (snd (Achievement_delete pk s))
| step_link achievement cat s :
    step s (snd (AchievementCat_objects_create achievement cat s)).

Inductive reachable : store -> Prop :=
| reachable_empty : reachable empty_store
| reachable_step s s' : reachable s -> step s s' -> reachable s'.

(** Writes to the many-to-many relation: to the through table of a cat,
    and the achievements created for it. *)
Definition is_relation_write (w : write) : bool :=
  match w with
  | InsertAchievement _ | InsertAchievementCat _ | DeleteAchievementCats _ => true
  | _ => false
  end.

(** The cat table is as it was, and what was written is written to the
    relation. *)
Definition only_relation_writes (s s' : store) : Prop :=
  cats s' = cats s /\
  exists ws, journal s' = journal s ++ ws /\ forallb is_relation_write ws = true.

(** What an operation leaves true of the store, whether it returns or
    raises. *)
Definition preserves {A : Type} (I : store -> Prop) (m : DB A) : Prop :=
  forall s, I s -> I (snd (m s)).

(** What an operation does to the store, as a relation between the store
    before and the store after, whether it returns or raises. *)
Definition relates {A : Type} (R : store -> store -> Prop) (m : DB A) : Prop :=
  forall s, R s (snd (m s)).

(** The instance [update] saves: each scalar field is the one of the
    input when the key is present, and the instance's own otherwise. *)
Definition updated (instance : Cat) (vd : validated_data) : Cat :=
  {| Cat_id := Cat_id instance;
     Cat_name := match vd_name vd with Some v => v | None => Cat_name instance end;
     Cat_color := match vd_color vd with Some v => v | None => Cat_color instance end;
     Cat_birth_year :=
       match vd_birth_year vd with Some v => v | None => Cat_birth_year instance end;
     Cat_owner := Cat_owner instance;
     Cat_image := match vd_image vd with Some v => v | None => Cat_image instance end |}.

(** Sample data for the examples. *)
Definition murka : validated_data :=
  {| vd_name := Some "Murka"; vd_color := Some "white"; vd_birth_year := Some 2015;
     vd_achievements := Some [descriptor "Climber"]; vd_owner := Some 1;
     vd_image := None |}.

Definition barsik : validated_data :=
  {| vd_name := Some "Barsik"; vd_color := Some "black"; vd_birth_year := Some 2018;
     vd_achievements := Some [descriptor "Climber"]; vd_owner := Some 2;
     vd_image := None |}.

(** The cat of [murka] once created in the empty store, the store after
    that, and two partial updates of it. *)
Definition murka_cat : Cat :=
  {| Cat_id := 1; Cat_name := "Murka"; Cat_color := "white"; Cat_birth_year := 2015;
     Cat_owner := 1; Cat_image := None |}.

Definition murka_store : store := snd (CatSerializer.create murka empty_store).


Definition retrain : validated_data :=
  CatSerializer.set_achievements (Some [descriptor "Hunter"; descriptor "Climber"])
    CatSerializer.no_data.

(** The payload of an achievement named [n] with primary key [pk]. *)
Definition achievement_payload (pk : Z) (n : string) : json :=
  JObj (<["id" := JNum pk]> (<["achievement_name" := JStr n]> ∅)).

(** A request body with a birth year on the edge of the range. *)
Definition born_in_1900 : json :=
  JObj (<["name" := JStr "Murka"]> (<["color" := JStr "#ffffff"]>
       (<["birth_year" := JNum 1900]> ∅))).

(** The separator of a data URL between its header and its payload. *)
Definition base64_sep : string := ";base64,".

(** Reduction of the projections of a store built by an operation. *)
Tactic Notation "store_simpl" :=
  cbn [fst snd achievements cats achievement_cats journal
       Achievement_id Achievement_name Cat_id AchievementCat_id
       AchievementCat_achievement AchievementCat_cat pair_of].

Tactic Notation "store_simpl" "in" hyp(H) :=
  cbn [fst snd achievements cats achievement_cats journal
       Achievement_id Achievement_name Cat_id AchievementCat_id
       AchievementCat_achievement AchievementCat_cat pair_of] in H.

(** What the loop over the descriptors [ds] has done for a cat once it
    has returned in the store [s'], from the achievement table [before]
    and the through table [rows_before]: the achievements [created] were
    appended, each for a descriptor that matched no achievement of
    [before]; the through table got the rows [rows], one per descriptor
    and in their order, each linking the cat to the achievement of
    [joined] that matches the descriptor. *)
Record attached (cat_pk : Z) (ds : list achievement_data)
    (before : list Achievement) (rows_before : list AchievementCat) (s' : store)
    (created joined : list Achievement) (rows : list AchievementCat) : Prop := {
  attached_achievements : achievements s' = before ++ created;
  attached_created :
    Forall (fun a => exists d, d ∈ ds /\ matches d a /\
                       forall b, b ∈ before -> ~ matches d b) created;
  attached_rows : achievement_cats s' = rows_before ++ rows;
  attached_pairs : pair_of <$> rows = (fun a => (Achievement_id a, cat_pk)) <$> joined;
  attached_joined : Forall2 matches ds joined;
  attached_members : forall a, a ∈ joined -> a ∈ achievements s'
}.

(** ** The methods of the models (models.py) *)

(** [def get_age(self)] of [Cat] (models.py, 81-87), given what the clock
    reads. *)
Definition Cat_get_age (now : datetime) (self : Cat) : Z :=
  let current_year := year now in
  current_year - Cat_birth_year self.

(** [def __str__(self)] of [Achievement] and of [Cat]. *)
Definition Achievement_str (self : Achievement) : string := Achievement_name self.

Definition Cat_str (self : Cat) : string := Cat_name self.

(** [self.achievement] and [self.cat] of a through row: the row the foreign
    key refers to, fetched from its table; [None] when there is no such row
    ([DoesNotExist]). *)
Definition AchievementCat_achievement_object (self : AchievementCat) (s : store)
  : option Achievement :=
  head (filter (fun a => Achievement_id a = AchievementCat_achievement self) (achievements s)).

Definition AchievementCat_cat_object (self : AchievementCat) (s : store) : option Cat :=
  head (filter (fun c => Cat_id c = AchievementCat_cat self) (cats s)).

(** [def __str__(self)] of [AchievementCat]:
    [f'{self.achievement} - {self.cat}']. *)
Definition AchievementCat_str (self : AchievementCat) (s : store) : option string :=
  achievement ← AchievementCat_achievement_object self s;
  cat ← AchievementCat_cat_object self s;
  Some (Achievement_str achievement +:+ " - " +:+ Cat_str cat).

(** ** Notions the properties are stated with *)

(** The line feed. *)
Definition newline : string := String "010"%char EmptyString.

(** A string of hexadecimal digits. *)
Definition hex_digits (d : string) : Prop :=
  forallb webcolors.is_hex_digit (list_ascii_of_string d) = true.

(** [sep.join(l)] *)
Fixpoint str_join (sep : string) (l : list string) : string :=
  match l with
  | [] => EmptyString
  | [x] => x
  | x :: l' => x +:+ sep +:+ str_join sep l'
  end.

(** A result that is a value, or the exception [ValidationError]. *)
Definition raises_only_validation_errors {A : Type} (r : exn + A) : Prop :=
  match r with
  | inl e => is_ValidationError e = true
  | inr _ => True
  end.

(** The writable fields of [CatSerializer], by position: [name], [color],
    [birth_year], [achievements] and [image]. *)
Definition writable_field `{Platform} (i : nat) : field validated_data :=
  nth i (Serializer.writable_fields CatSerializer.fields) (CatSerializer.read_only_field "").

(** A descriptor that carries a name. *)
Definition named (d : achievement_data) : Prop := is_Some (data_name d).

(** The exception of [unique_together = ['achievement', 'cat']]. *)
Definition unique_error : exn := IntegrityError (UniqueTogether ["achievement"; "cat"]).

(** The order of [ordering = ['name']], on names and on achievements. *)
Definition name_le (a b : string) : Prop := String.leb a b = true.

Definition by_name (a b : Achievement) : Prop :=
  name_le (Achievement_name a) (Achievement_name b).

(** The achievement table only grew, and so did the through table. *)
Definition only_appends (s s' : store) : Prop :=
  (exists created, achievements s' = achievements s ++ created) /\
  (exists rows, achievement_cats s' = achievement_cats s ++ rows).

(** The achievement table only grew, and the through rows of the cats
    other than [pk] are what they were. *)
Definition keeps_others (pk : Z) (s s' : store) : Prop :=
  (exists created, achievements s' = achievements s ++ created) /\
  (forall r, AchievementCat_cat r <> pk ->
     r ∈ achievement_cats s' <-> r ∈ achievement_cats s).

(** The keys of a request that the serializer reads. *)
Definition writable_keys : list string :=
  ["name"; "color"; "birth_year"; "achievements"; "image"].

(** More sample data: a request body, and a body whose colour is a number. *)
Definition murka_request : gmap string json :=
  <["name" := JStr "Murka"]> (<["color" := JStr "#FFF"]> (<["birth_year" := JNum 2015]>
  (<["achievements" := JArr [JObj (<["achievement_name" := JStr "Climber"]> ∅)]]>
  (<["image" := JNull]> ∅)))).

(** What the validation of that body gives. *)
Definition murka_validated : validated_data :=
  {| vd_name := Some "Murka"; vd_color := Some "white"; vd_birth_year := Some 2015;
     vd_achievements := Some [descriptor "Climber"]; vd_owner := None;
     vd_image := Some None |}.

Definition numeric_color : gmap string json :=
  <["name" := JStr "Murka"]> (<["color" := JNum 16777215]> ∅).

(** Validated data in which a name comes twice. *)
Definition climber_twice : validated_data :=
  CatSerializer.set_achievements (Some [descriptor "Climber"; descriptor "Climber"]) murka.

Definition hunter_twice : validated_data :=
  CatSerializer.set_achievements (Some [descriptor "Hunter"; descriptor "Hunter"])
    CatSerializer.no_data.

(** The integers an [IntegerField] column holds on every database
    backend. *)
Definition in_IntegerField_range (y : Z) : Prop :=
  -2147483648 <= y <= 2147483647.

(** A GIF image of one pixel, and the data URL of it. *)
Definition pixel : list byte :=
  ["G"; "I"; "F"; "8"; "9"; "a"]%byte
  ++ [x01; x00; x01; x00; x80; x00; x00; x00; x00; x00; xff; xff; xff;
      x21; xf9; x04; x01; x00; x00; x00; x00;
      x2c; x00; x00; x00; x00; x01; x00; x01; x00; x00;
      x02; x01; x44; x00; x3b].

Definition pixel_payload : string :=
  "R0lGODlhAQABAIAAAAAAAP///yH5BAEAAAAALAAAAAABAAEAAAIBRAA7".

Definition pixel_url : string := "data:image/gif;base64," +:+ pixel_payload.

(** * Properties *)

(** ** Splitting a data URL *)

Section Strings.

Lemma prefix_empty (s : string) : String.prefix EmptyString s = true.
Proof. destruct s; reflexivity. Qed.

Lemma prefix_append (p s : string) : String.prefix p (p +:+ s) = true.
Proof.
  induction p as [|c p IH]; simpl; [apply prefix_empty|].
  destruct (ascii_dec c c); [exact IH|congruence].
Qed.

Lemma contains_cons (sep : string) (c : ascii) (s : string) :
  Py.contains sep (String c s) = false ->
  String.prefix sep (String c s) = false /\ Py.contains sep s = false.
Proof.
  cbn [Py.contains]. intros H. apply orb_false_elim in H. exact H.
Qed.

(** A string that does not contain the separator is one segment. *)
Lemma split_go_no_sep (sep s : string) :
  Py.contains sep s = false -> Py.split_go sep 0 s = (s, []).
Proof.
  induction s as [|c s IH]; intros H; [reflexivity|].
  apply contains_cons in H as [Hp Hc].
  cbn [Py.split_go]. rewrite Hp, (IH Hc). reflexivity.
Qed.

Lemma split_go_skip (sep x s : string) :
  Py.split_go sep (String.length x) (x +:+ s) = Py.split_go sep 0 s.
Proof.
  induction x as [|c x IH]; simpl; [reflexivity|exact IH].
Qed.

(** At an occurrence of the separator the segment ends and the next one
    starts after it. *)
Lemma split_go_at_sep (c : ascii) (sep' s : string) :
  Py.split_go (String c sep') 0 (String c sep' +:+ s)
  = (EmptyString, let '(h, t) := Py.split_go (String c sep') 0 s in h :: t).
Proof.
  change (String c sep' +:+ s) with (String c (sep' +:+ s)).
  cbn [Py.split_go].
  change (String c (sep' +:+ s)) with (String c sep' +:+ s).
  rewrite prefix_append. cbn [String.length Nat.pred].
  rewrite split_go_skip. reflexivity.
Qed.


(** [;base64,] has no proper suffix that is also a prefix of it, so an
    occurrence that starts before another one lies wholly before it. *)
Lemma base64_sep_no_overlap (c : ascii) (x s : string) :
  String.prefix base64_sep (String c x +:+ base64_sep +:+ s) = true ->
  String.prefix base64_sep (String c x) = true.
Proof.
  unfold base64_sep.
  destruct x as [|c1 [|c2 [|c3 [|c4 [|c5 [|c6 [|c7 x]]]]]]]; simpl;
    rewrite ?prefix_empty;
    repeat (match goal with
            | |- context [ascii_dec ?a ?b] => destruct (ascii_dec a b); subst
            end; simpl; try discriminate; try reflexivity);
    try congruence; auto.
Qed.

Lemma split_go_before_sep (a b : string) :
  Py.contains base64_sep a = false ->
  Py.split_go base64_sep 0 (a +:+ base64_sep +:+ b)
  = (a, let '(h, t) := Py.split_go base64_sep 0 b in h :: t).
Proof.
  induction a as [|c a IH]; intros H.
  - exact (split_go_at_sep _ _ b).
  - apply contains_cons in H as [Hp Hc].
    assert (Hn : String.prefix base64_sep (String c a +:+ base64_sep +:+ b) = false).
    { destruct (String.prefix base64_sep (String c a +:+ base64_sep +:+ b)) eqn:E;
        [|reflexivity].
      apply base64_sep_no_overlap in E. congruence. }
    change (String c a +:+ base64_sep +:+ b) with (String c (a +:+ base64_sep +:+ b)) in *.
    cbn [Py.split_go]. rewrite Hn, (IH Hc). reflexivity.
Qed.

(** A header and a payload that do not contain [;base64,] are what the
    split of their data URL returns. *)
Lemma split_data_url (header payload : string) :
  Py.contains base64_sep header = false ->
  Py.contains base64_sep payload = false ->
  Py.split (header +:+ base64_sep +:+ payload) base64_sep = [header; payload].
Proof.
  intros Hh Hp. unfold Py.split.
  rewrite (split_go_before_sep _ _ Hh), (split_go_no_sep _ _ Hp). reflexivity.
Qed.

Lemma contains_sep_header (ext : string) :
  Py.contains base64_sep ext = false ->
  Py.contains base64_sep ("data:image/" +:+ ext) = false.
Proof. intros H. simpl. exact H. Qed.

(** The extension is what follows the last slash of the header. *)
Lemma header_extension (ext : string) :
  Py.contains "/" ext = false ->
  Py.last_item (Py.split ("data:image/" +:+ ext) "/") = ext.
Proof.
  intros H. unfold Py.split.
  cbv beta iota delta [String.append]. simpl.
  rewrite prefix_empty, (split_go_no_sep _ _ H). reflexivity.
Qed.

End Strings.

(** ** The colour normalizer *)

Section Hex2NameColorProperties.

Context `{Platform}.

(** A string with no leading [#] is no hex code for [webcolors]. *)
Lemma normalize_hex_needs_hash (c : ascii) (s : string) :
  c <> "#"%char ->
  webcolors.normalize_hex (String c s)
  = inl (ValueError (String c s +:+ " is not a valid hexadecimal color value.")).
Proof.
  intros Hc. unfold webcolors.normalize_hex.
  assert (E : webcolors.HEX_COLOR_RE_match (String c s) = None).
  { unfold webcolors.HEX_COLOR_RE_match.
    destruct c as [[] [] [] [] [] [] [] []]; try reflexivity. congruence. }
  rewrite E. reflexivity.
Qed.

Lemma to_internal_value_needs_hash (c : ascii) (s : string) :
  c <> "#"%char ->
  Hex2NameColor.to_internal_value (JStr (String c s))
  = inl (ValidationError (Msg Hex2NameColor.invalid_color)).
Proof.
  intros Hc. unfold Hex2NameColor.to_internal_value, webcolors.hex_to_name.
  rewrite (normalize_hex_needs_hash _ _ Hc). reflexivity.
Qed.

(** C1 (the code departs from the claim here): a colour name, which the
    help text of the field says is accepted, is not returned as it is but
    rejected with a validation error, whatever the CSS3 table holds. *)
Theorem Hex2NameColor_rejects_color_name :
  Hex2NameColor.to_internal_value (JStr "white")
  = inl (ValidationError (Msg Hex2NameColor.invalid_color)).
Proof. apply to_internal_value_needs_hash. discriminate. Qed.

Lemma at_dollar_two (a b : ascii) (s : string) :
  webcolors.at_dollar (String a (String b s)) = false.
Proof.
  unfold webcolors.at_dollar. cbn [String.eqb orb].
  destruct (Ascii.eqb a "010"%char); reflexivity.
Qed.

(** Six hex digits after a [#] are matched as group 1. *)
Lemma HEX_COLOR_RE_match_six (d : string) :
  String.length d = 6%nat ->
  forallb webcolors.is_hex_digit (list_ascii_of_string d) = true ->
  webcolors.HEX_COLOR_RE_match ("#" +:+ d) = Some d.
Proof.
  intros Hlen Hhex.
  destruct d as [|c1 [|c2 [|c3 [|c4 [|c5 [|c6 [|c7 d]]]]]]]; try discriminate.
  cbn [list_ascii_of_string forallb] in Hhex.
  repeat (apply andb_prop in Hhex as [? Hhex]).
  cbv beta iota delta [String.append].
  unfold webcolors.HEX_COLOR_RE_match, webcolors.group_of.
  cbn [webcolors.take_hex].
  repeat match goal with
         | E : webcolors.is_hex_digit ?c = true |- _ => rewrite E; clear E
         end.
  rewrite at_dollar_two. reflexivity.
Qed.

(** X1: the write direction on a code in [#RRGGBB] form: the name the table
    gives the lower-cased code, and a validation error when it gives
    none. *)
Theorem Hex2NameColor_hex_code (d : string) :
  String.length d = 6%nat ->
  forallb webcolors.is_hex_digit (list_ascii_of_string d) = true ->
  Hex2NameColor.to_internal_value (JStr ("#" +:+ d))
  = match CSS3_HEX_TO_NAMES !! ("#" +:+ Py.lower d) with
    | Some name => inr name
    | None => inl (ValidationError (Msg Hex2NameColor.invalid_color))
    end.
Proof.
  intros Hlen Hhex.
  unfold Hex2NameColor.to_internal_value, webcolors.hex_to_name, webcolors.normalize_hex.
  rewrite (HEX_COLOR_RE_match_six d Hlen Hhex), Hlen. cbn [Nat.eqb].
  destruct (CSS3_HEX_TO_NAMES !! ("#" +:+ Py.lower d)); reflexivity.
Qed.

End Hex2NameColorProperties.

Lemma Hex2NameColor_hex_code_witness :
  @Hex2NameColor.to_internal_value Sample.platform (JStr "#FFA500") = inr "orange".
Proof.
  exact (@Hex2NameColor_hex_code Sample.platform "FFA500" eq_refl eq_refl).
Defined.

(** ** The image decoder *)

Section Base64ImageFieldProperties.

Context `{Platform}.

Lemma decode_data_url (ext payload : string) (content : list byte) :
  Py.contains "/" ext = false ->
  Py.contains ";base64," ext = false ->
  Py.contains ";base64," payload = false ->
  b64decode payload = inr content ->
  Base64ImageField.decode ("data:image/" +:+ ext +:+ ";base64," +:+ payload)
  = inr (ContentFile content ("temp." +:+ ext)).
Proof.
  intros Hslash Hext Hpayload Hdecode. unfold Base64ImageField.decode.
  change ("data:image/" +:+ ext +:+ ";base64," +:+ payload)
    with (("data:image/" +:+ ext) +:+ base64_sep +:+ payload).
  change ";base64," with base64_sep.
  rewrite (split_data_url _ _ (contains_sep_header _ Hext) Hpayload).
  rewrite Hdecode, (header_extension _ Hslash). reflexivity.
Qed.

Lemma to_internal_value_data_url (ext payload : string) (content : list byte)
    (log : list log_record) :
  Py.contains "/" ext = false ->
  Py.contains ";base64," ext = false ->
  Py.contains ";base64," payload = false ->
  b64decode payload = inr content ->
  Base64ImageField.to_internal_value
    (JStr ("data:image/" +:+ ext +:+ ";base64," +:+ payload)) log
  = (ImageField_to_internal_value (JFile (ContentFile content ("temp." +:+ ext))), log).
Proof.
  intros Hslash Hext Hpayload Hdecode. unfold Base64ImageField.to_internal_value.
  rewrite (decode_data_url _ _ _ Hslash Hext Hpayload Hdecode).
  reflexivity.
Qed.

Lemma to_internal_value_decode_error (s e : string) (log : list log_record) :
  Py.startswith s "data:image" = true ->
  Base64ImageField.decode s = inl e ->
  Base64ImageField.to_internal_value (JStr s) log
  = (inl (ValidationError (Msg Base64ImageField.invalid_image)),
     log ++ [LogError ("Error decoding base64 image: " +:+ e)]).
Proof.
  intros Hprefix Hdecode. unfold Base64ImageField.to_internal_value.
  rewrite Hprefix, Hdecode. reflexivity.
Qed.

(** What makes the decoding fail: a header that does not split in two, or
    a payload the codec refuses. *)
Lemma decode_error_cases (s : string) :
  (forall f, Base64ImageField.decode s <> inr f) <->
  (length (Py.split s ";base64,") <> 2%nat \/
   exists format imgstr e,
     Py.split s ";base64," = [format; imgstr] /\ b64decode imgstr = inl e).
Proof.
  unfold Base64ImageField.decode.
  destruct (Py.split s ";base64,") as [|format [|imgstr [|x l]]]; cbn [length].
  - split; [intros _; left; lia|intros _ f; discriminate].
  - split; [intros _; left; lia|intros _ f; discriminate].
  - destruct (b64decode imgstr) as [e|content] eqn:E.
    + split; [intros _; right; eauto|intros _ f; discriminate].
    + split.
      * intros Hf. exfalso. exact (Hf _ eq_refl).
      * intros [Hl|(f' & i' & e' & Heq & He)]; [lia|].
        injection Heq as <- <-. congruence.
  - split; [intros _; left; lia|intros _ f; discriminate].
Qed.

(** Decoding that succeeds, on any string: the split gave a header and a
    payload, the codec decoded the payload, and the file is named after
    what follows the last slash of the header. *)
Lemma decode_success (s : string) (f : file) :
  Base64ImageField.decode s = inr f ->
  exists format imgstr content,
    Py.split s ";base64," = [format; imgstr] /\ b64decode imgstr = inr content /\
    f = ContentFile content ("temp." +:+ Py.last_item (Py.split format "/")).
Proof.
  unfold Base64ImageField.decode.
  destruct (Py.split s ";base64,") as [|format [|imgstr [|x l]]]; try discriminate.
  destruct (b64decode imgstr) as [e|content] eqn:E; [discriminate|].
  intros Hf. injection Hf as <-. exists format, imgstr, content.
  split; [reflexivity|]. split; [exact E|reflexivity].
Qed.

Lemma to_internal_value_other (data : json) (log : list log_record) :
  (forall s, data = JStr s -> Py.startswith s "data:image" = false) ->
  Base64ImageField.to_internal_value data log = (ImageField_to_internal_value data, log).
Proof.
  intros Hother. unfold Base64ImageField.to_internal_value.
  destruct data as [| | |s| | |]; try reflexivity.
  rewrite (Hother s eq_refl). reflexivity.
Qed.

(** C2: a data URL [data:image/<ext>;base64,<data>] whose payload the codec
    decodes becomes the file [temp.<ext>] holding the decoded bytes, and
    that file goes through the image field's own validation: the result
    is the file when the image field accepts it, the image field's error
    when it does not, and nothing is logged either way.  More generally,
    a string with the [data:image] prefix is decoded when it splits at
    [;base64,] into a header and a payload that the codec decodes.  A
    string with the prefix whose decoding raises (a header that does not
    split in two, a payload the codec refuses) is logged with the text of
    the exception and rejected with a validation error.  Everything else,
    a raw file and a null in particular, goes to the image field's own
    validation as it is, and nothing is logged. *)
Theorem Base64ImageField_to_internal_value_spec :
  (forall ext payload content log,
      Py.contains "/" ext = false ->
      Py.contains ";base64," ext = false ->
      Py.contains ";base64," payload = false ->
      b64decode payload = inr content ->
      let decoded := ContentFile content ("temp." +:+ ext) in
      let result :=
        Base64ImageField.to_internal_value
          (JStr ("data:image/" +:+ ext +:+ ";base64," +:+ payload)) log in
      result = (ImageField_to_internal_value (JFile decoded), log)
      /\ (ImageField_to_internal_value (JFile decoded) = inr decoded ->
          result = (inr decoded, log))
      /\ (forall e, ImageField_to_internal_value (JFile decoded) = inl e ->
          result = (inl e, log)))
  /\ (forall s format imgstr content log,
      Py.startswith s "data:image" = true ->
      Py.split s ";base64," = [format; imgstr] ->
      b64decode imgstr = inr content ->
      let decoded :=
        ContentFile content ("temp." +:+ Py.last_item (Py.split format "/")) in
      let result := Base64ImageField.to_internal_value (JStr s) log in
      result = (ImageField_to_internal_value (JFile decoded), log)
      /\ (ImageField_to_internal_value (JFile decoded) = inr decoded ->
          result = (inr decoded, log))
      /\ (forall e, ImageField_to_internal_value (JFile decoded) = inl e ->
          result = (inl e, log)))
  /\ (forall s log,
      Py.startswith s "data:image" = true ->
      (length (Py.split s ";base64,") <> 2%nat \/
       exists format imgstr e,
         Py.split s ";base64," = [format; imgstr] /\ b64decode imgstr = inl e) ->
      exists e,
        Base64ImageField.decode s = inl e /\
        Base64ImageField.to_internal_value (JStr s) log
        = (inl (ValidationError (Msg Base64ImageField.invalid_image)),
           log ++ [LogError ("Error decoding base64 image: " +:+ e)]))
  /\ (forall data log,
      (forall s, data = JStr s -> Py.startswith s "data:image" = false) ->
      Base64ImageField.to_internal_value data log
      = (ImageField_to_internal_value data, log))
  /\ (forall f log,
      Base64ImageField.to_internal_value (JFile f) log
      = (ImageField_to_internal_value (JFile f), log))
  /\ (forall log,
      Base64ImageField.to_internal_value JNull log
      = (ImageField_to_internal_value JNull, log)).
Proof.
  split.
  { intros ext payload content log Hslash Hext Hpayload Hdecode decoded result.
    assert (Hresult : result = (ImageField_to_internal_value (JFile decoded), log))
      by exact (to_internal_value_data_url _ _ _ log Hslash Hext Hpayload Hdecode).
    split; [exact Hresult|].
    split; [intros Hf|intros e He]; rewrite Hresult; f_equal; assumption. }
  split.
  { intros s format imgstr content log Hprefix Hsplit Hdecode decoded result.
    assert (Hresult : result = (ImageField_to_internal_value (JFile decoded), log)).
    { subst result decoded.
      unfold Base64ImageField.to_internal_value, Base64ImageField.decode.
      rewrite Hprefix, Hsplit, Hdecode. reflexivity. }
    split; [exact Hresult|].
    split; [intros Hf|intros e He]; rewrite Hresult; f_equal; assumption. }
  split.
  { intros s log Hprefix Hcases.
    pose proof (proj2 (decode_error_cases s) Hcases) as Hfail.
    destruct (Base64ImageField.decode s) as [e|f] eqn:E.
    - exists e. split; [reflexivity|].
      apply to_internal_value_decode_error; assumption.
    - exfalso. exact (Hfail f eq_refl). }
  split; [exact to_internal_value_other|].
  split; reflexivity.
Qed.

End Base64ImageFieldProperties.

Lemma Base64ImageField_to_internal_value_spec_witness :
  @Base64ImageField.to_internal_value Sample.platform (JStr pixel_url) []
  = (inr (ContentFile pixel "temp.gif"), [])
  /\ @Base64ImageField.to_internal_value Sample.platform
       (JStr "data:image/png;base64,aGk=") []
     = (inl (ValidationError (Msg Sample.invalid_image)), [])
  /\ @Base64ImageField.to_internal_value Sample.platform
       (JStr "data:image/png;base64,aGk") []
     = (inl (ValidationError (Msg Base64ImageField.invalid_image)),
        [LogError "Error decoding base64 image: Incorrect padding"]).
Proof.
  split; [|split].
  - exact (proj1 (proj2 (proj1 (@Base64ImageField_to_internal_value_spec Sample.platform)
                           "gif" pixel_payload pixel [] eq_refl eq_refl eq_refl eq_refl))
             eq_refl).
  - exact (proj2 (proj2 (proj1 (@Base64ImageField_to_internal_value_spec Sample.platform)
                           "png" "aGk=" ["h"%byte; "i"%byte] []
                           eq_refl eq_refl eq_refl eq_refl))
             _ eq_refl).
  - destruct (proj1 (proj2 (proj2 (@Base64ImageField_to_internal_value_spec
                                       Sample.platform)))
                "data:image/png;base64,aGk" [] eq_refl) as (e & He & Hr).
    + right. exists "data:image/png", "aGk", "Incorrect padding".
      split; reflexivity.
    + injection He as <-. exact Hr.
Defined.

(** The payload [aGk=] decodes, to the two bytes of [hi], and the data URL
    that carries it is refused all the same: the decoded file is not an
    image.  The refusal is the image field's, so nothing is logged. *)
Lemma decoded_payload_that_is_no_image :
  @b64decode Sample.platform "aGk=" = inr ["h"%byte; "i"%byte]
  /\ @Base64ImageField.decode Sample.platform "data:image/png;base64,aGk="
     = inr (ContentFile ["h"%byte; "i"%byte] "temp.png")
  /\ @Base64ImageField.to_internal_value Sample.platform
       (JStr "data:image/png;base64,aGk=") []
     = (inl (ValidationError (Msg Sample.invalid_image)), []).
Proof. split; [|split]; reflexivity. Qed.

(** ** The store: primary keys, and what each operation preserves *)

Section Lists.

Context {A B : Type}.

Lemma fresh_pk_gt (pks : list Z) (x : Z) : x ∈ pks -> x < fresh_pk pks.
Proof.
  unfold fresh_pk. induction pks as [|y pks IH]; intros Hx.
  - inversion Hx.
  - apply elem_of_cons in Hx as [->|Hx]; cbn [foldr]; [lia|].
    specialize (IH Hx). lia.
Qed.

Lemma fresh_pk_fresh (pks : list Z) : fresh_pk pks ∉ pks.
Proof. intros Hx. apply fresh_pk_gt in Hx. lia. Qed.

Lemma NoDup_fmap_snoc (f : A -> B) (l : list A) (x : A) :
  NoDup (f <$> l) -> f x ∉ f <$> l -> NoDup (f <$> (l ++ [x])).
Proof.
  intros Hl Hx. rewrite fmap_app. apply NoDup_app. split; [exact Hl|]. split.
  - intros y Hy Hy'. apply list_elem_of_singleton in Hy'. subst. contradiction.
  - apply NoDup_singleton.
Qed.

Lemma NoDup_fmap_filter (f : A -> B) (P : A -> Prop) `{!forall x, Decision (P x)}
    (l : list A) :
  NoDup (f <$> l) -> NoDup (f <$> filter P l).
Proof.
  intros Hl. eapply sublist_NoDup; [exact Hl|].
  apply fmap_sublist, sublist_filter.
Qed.

(** Rows with distinct keys: the key determines the row. *)
Lemma NoDup_fmap_key (f : A -> B) (l : list A) (x y : A) :
  NoDup (f <$> l) -> x ∈ l -> y ∈ l -> f x = f y -> x = y.
Proof.
  induction l as [|z l IH]; intros Hl Hx Hy E; [inversion Hx|].
  rewrite fmap_cons in Hl. apply NoDup_cons in Hl as [Hz Hl].
  apply elem_of_cons in Hx as [->|Hx]; apply elem_of_cons in Hy as [->|Hy].
  - reflexivity.
  - exfalso. apply Hz. rewrite E. apply list_elem_of_fmap_2. exact Hy.
  - exfalso. apply Hz. rewrite <- E. apply list_elem_of_fmap_2. exact Hx.
  - apply IH; assumption.
Qed.

Lemma filter_key_singleton `{!EqDecision B} (f : A -> B) (l : list A) (x : A) :
  NoDup (f <$> l) -> x ∈ l -> filter (fun y => f y = f x) l = [x].
Proof.
  induction l as [|z l IH]; intros Hl Hx; [inversion Hx|].
  rewrite fmap_cons in Hl. apply NoDup_cons in Hl as [Hz Hl].
  rewrite filter_cons. apply elem_of_cons in Hx as [->|Hx].
  - rewrite decide_True by reflexivity. f_equal.
    apply elem_of_nil_inv. intros y Hy. apply list_elem_of_filter in Hy as [E Hy].
    apply Hz. rewrite <- E. apply list_elem_of_fmap_2. exact Hy.
  - rewrite decide_False; [apply IH; assumption|].
    intros E. apply Hz. rewrite E. apply list_elem_of_fmap_2. exact Hx.
Qed.

Lemma filter_none (P : A -> Prop) `{!forall x, Decision (P x)} (l : list A) :
  (forall x, x ∈ l -> ~ P x) -> filter P l = [].
Proof.
  intros Hall. apply elem_of_nil_inv. intros x Hx.
  apply list_elem_of_filter in Hx as [HP Hx]. exact (Hall x Hx HP).
Qed.

Lemma filter_all (P : A -> Prop) `{!forall x, Decision (P x)} (l : list A) :
  (forall x, x ∈ l -> P x) -> filter P l = l.
Proof.
  induction l as [|x l IH]; intros Hall; [reflexivity|].
  rewrite filter_cons, decide_True by (apply Hall; left).
  f_equal. apply IH. intros y Hy. apply Hall. right. exact Hy.
Qed.

End Lists.


Section Preservation.

Context (I : store -> Prop).

Lemma preserves_ret {A} (x : A) : preserves I (mret x).
Proof. intros s Hs. exact Hs. Qed.

Lemma preserves_bind {A B} (m : DB A) (f : A -> DB B) :
  preserves I m -> (forall x, preserves I (f x)) -> preserves I (m ≫= f).
Proof.
  intros Hm Hf s Hs. unfold mbind, DB_bind.
  specialize (Hm s Hs). destruct (m s) as [[e|x] s']; [exact Hm|].
  apply Hf. exact Hm.
Qed.

Lemma preserves_for_each {A} (l : list A) (body : A -> DB unit) :
  (forall x, preserves I (body x)) -> preserves I (for_each l body).
Proof.
  intros Hbody. induction l as [|x l IH]; cbn [for_each].
  - apply preserves_ret.
  - apply preserves_bind; [apply Hbody|intros _; exact IH].
Qed.

End Preservation.



Lemma empty_store_consistent : consistent empty_store.
Proof.
  split; [split|]; unfold unique_names, pairs; store_simpl; try apply NoDup_nil_2.
  intros r Hr. inversion Hr.
Qed.

Lemma Achievement_objects_get_or_create_consistent kwargs :
  preserves consistent (Achievement_objects_get_or_create kwargs).
Proof.
  intros s [[Hpa Hpc Hu Hfk] Hn]. unfold Achievement_objects_get_or_create.
  destruct (filter (matches kwargs) (achievements s)) as [|a [|a' l]] eqn:E;
    [|split; [split|]; assumption..].
  unfold Achievement_objects_create, mbind, DB_bind, mret, DB_ret.
  split; [split|]; store_simpl.
  - apply NoDup_fmap_snoc; [exact Hpa|]. store_simpl. apply fresh_pk_fresh.
  - exact Hpc.
  - exact Hu.
  - intros r Hr. destruct (Hfk r Hr) as [Ha Hc]. split; [|exact Hc].
    rewrite fmap_app. apply elem_of_app. left. exact Ha.
  - unfold unique_names. store_simpl. apply NoDup_fmap_snoc; [exact Hn|]. store_simpl.
    intros Hin. apply list_elem_of_fmap in Hin as (a & Ea & Ha).
    eapply (filter_nil_not_elem_of _ _ a E); [|exact Ha].
    unfold matches. destruct (data_name kwargs) as [n|]; [|exact Logic.I].
    simpl in Ea. congruence.
Qed.

Lemma Cat_objects_create_consistent kwargs :
  preserves consistent (Cat_objects_create kwargs).
Proof.
  intros s [[Hpa Hpc Hu Hfk] Hn]. unfold Cat_objects_create.
  destruct (vd_achievements kwargs); [split; [split|]; assumption|].
  destruct (vd_birth_year kwargs) as [y|], (vd_owner kwargs) as [o|];
    try (split; [split|]; assumption).
  destruct (decide (birth_year_reasonable y)); [|split; [split|]; assumption].
  split; [split|]; store_simpl; try assumption.
  - apply NoDup_fmap_snoc; [exact Hpc|]. store_simpl. apply fresh_pk_fresh.
  - intros r Hr. destruct (Hfk r Hr) as [Ha Hc]. split; [exact Ha|].
    rewrite fmap_app. apply elem_of_app. left. exact Hc.
Qed.

(** Rewriting the row of a primary key changes no primary key. *)
Lemma Cat_id_rewrite (instance : Cat) (l : list Cat) :
  Cat_id <$> ((fun row => if decide (Cat_id row = Cat_id instance) then instance else row)
              <$> l)
  = Cat_id <$> l.
Proof.
  induction l as [|c l IH]; [reflexivity|].
  rewrite !fmap_cons, IH. f_equal. destruct (decide (Cat_id c = Cat_id instance)); congruence.
Qed.

Lemma Cat_save_consistent instance : preserves consistent (Cat_save instance).
Proof.
  intros s [[Hpa Hpc Hu Hfk] Hn]. unfold Cat_save.
  destruct (decide (birth_year_reasonable (Cat_birth_year instance)));
    [|split; [split|]; assumption].
  destruct (decide (Cat_id instance ∈ Cat_id <$> cats s)) as [Hin|Hin].
  - split; [split|]; store_simpl; try assumption.
    + rewrite Cat_id_rewrite. exact Hpc.
    + intros r Hr. rewrite Cat_id_rewrite. exact (Hfk r Hr).
  - split; [split|]; store_simpl; try assumption.
    + apply NoDup_fmap_snoc; assumption.
    + intros r Hr. destruct (Hfk r Hr) as [Ha Hc]. split; [exact Ha|].
      rewrite fmap_app. apply elem_of_app. left. exact Hc.
Qed.

Lemma AchievementCat_objects_create_consistent achievement cat :
  preserves consistent (AchievementCat_objects_create achievement cat).
Proof.
  intros s [[Hpa Hpc Hu Hfk] Hn]. unfold AchievementCat_objects_create.
  destruct (decide ((Achievement_id achievement, Cat_id cat) ∈ pairs s)) as [Hin|Hin];
    [split; [split|]; assumption|].
  destruct (decide (Achievement_id achievement ∈ Achievement_id <$> achievements s));
    [|split; [split|]; assumption].
  destruct (decide (Cat_id cat ∈ Cat_id <$> cats s)); [|split; [split|]; assumption].
  split; [split|]; store_simpl; try assumption.
  - unfold pairs. store_simpl. apply NoDup_fmap_snoc; [exact Hu|exact Hin].
  - intros r Hr. apply elem_of_app in Hr as [Hr|Hr]; [exact (Hfk r Hr)|].
    apply list_elem_of_singleton in Hr. subst r. store_simpl. split; assumption.
Qed.

Lemma Cat_achievements_clear_consistent instance :
  preserves consistent (Cat_achievements_clear instance).
Proof.
  intros s [[Hpa Hpc Hu Hfk] Hn]. unfold Cat_achievements_clear.
  split; [split|]; store_simpl; try assumption.
  - unfold pairs. store_simpl. apply NoDup_fmap_filter. exact Hu.
  - intros r Hr. apply list_elem_of_filter in Hr as [_ Hr]. exact (Hfk r Hr).
Qed.

Lemma Cat_delete_consistent pk : preserves consistent (Cat_delete pk).
Proof.
  intros s [[Hpa Hpc Hu Hfk] Hn]. unfold Cat_delete.
  split; [split|]; store_simpl; try assumption.
  - apply NoDup_fmap_filter. exact Hpc.
  - unfold pairs. store_simpl. apply NoDup_fmap_filter. exact Hu.
  - intros r Hr. apply list_elem_of_filter in Hr as [Hne Hr].
    destruct (Hfk r Hr) as [Ha Hc]. split; [exact Ha|].
    apply list_elem_of_fmap in Hc as (c & Ec & Hc).
    apply list_elem_of_fmap. exists c. split; [exact Ec|].
    apply list_elem_of_filter. split; [congruence|exact Hc].
Qed.

Lemma Achievement_delete_consistent pk : preserves consistent (Achievement_delete pk).
Proof.
  intros s [[Hpa Hpc Hu Hfk] Hn]. unfold Achievement_delete.
  split; [split|]; store_simpl; try assumption.
  - apply NoDup_fmap_filter. exact Hpa.
  - unfold pairs. store_simpl. apply NoDup_fmap_filter. exact Hu.
  - intros r Hr. apply list_elem_of_filter in Hr as [Hne Hr].
    destruct (Hfk r Hr) as [Ha Hc]. split; [|exact Hc].
    apply list_elem_of_fmap in Ha as (a & Ea & Ha).
    apply list_elem_of_fmap. exists a. split; [exact Ea|].
    apply list_elem_of_filter. split; [congruence|exact Ha].
  - unfold unique_names. store_simpl. apply NoDup_fmap_filter. exact Hn.
Qed.

Lemma attach_consistent cat achievement_data :
  preserves consistent (CatSerializer.attach cat achievement_data).
Proof.
  unfold CatSerializer.attach.
  apply preserves_bind; [apply Achievement_objects_get_or_create_consistent|].
  intros [achievement created].
  apply preserves_bind; [apply AchievementCat_objects_create_consistent|].
  intros _. apply preserves_ret.
Qed.

Lemma create_consistent vd : preserves consistent (CatSerializer.create vd).
Proof.
  unfold CatSerializer.create.
  apply preserves_bind; [apply Cat_objects_create_consistent|]. intros cat.
  apply preserves_bind; [|intros _; apply preserves_ret].
  apply preserves_for_each. intros d. apply (attach_consistent cat d).
Qed.

Lemma update_consistent instance vd :
  preserves consistent (CatSerializer.update instance vd).
Proof.
  unfold CatSerializer.update.
  apply preserves_bind; [apply Cat_save_consistent|]. intros _.
  apply preserves_bind; [|intros _; apply preserves_ret].
  destruct (vd_achievements vd) as [ds|]; [|apply preserves_ret].
  apply preserves_bind; [apply Cat_achievements_clear_consistent|]. intros _.
  apply preserves_for_each. intros d. apply (attach_consistent _ d).
Qed.

Lemma step_consistent s s' : step s s' -> consistent s -> consistent s'.
Proof.
  intros Hstep Hs. destruct Hstep.
  - apply create_consistent. exact Hs.
  - apply update_consistent. exact Hs.
  - apply Cat_delete_consistent. exact Hs.
  - apply Achievement_delete_consistent. exact Hs.
  - apply AchievementCat_objects_create_consistent. exact Hs.
Qed.

Lemma reachable_consistent s : reachable s -> consistent s.
Proof.
  induction 1 as [|s s' _ IH Hstep]; [apply empty_store_consistent|].
  exact (step_consistent _ _ Hstep IH).
Qed.

(** ** Get-or-create and the loop over the descriptors *)

Lemma filter_ext_in {A} (P Q : A -> Prop) `{!forall x, Decision (P x)}
    `{!forall x, Decision (Q x)} (l : list A) :
  (forall x, x ∈ l -> P x <-> Q x) -> filter P l = filter Q l.
Proof.
  induction l as [|x l IH]; intros Hall; [reflexivity|].
  rewrite !filter_cons.
  assert (Hx : P x <-> Q x) by (apply Hall; left).
  rewrite IH by (intros y Hy; apply Hall; right; exact Hy).
  destruct (decide (P x)), (decide (Q x)); tauto.
Qed.

(** An achievement of that name exists: it is found, nothing is written. *)
Lemma get_or_create_found (s : store) (a : Achievement) :
  unique_names s -> a ∈ achievements s ->
  Achievement_objects_get_or_create (descriptor (Achievement_name a)) s
  = (inr (a, false), s).
Proof.
  intros Hn Ha. unfold Achievement_objects_get_or_create.
  rewrite (list_filter_iff _ (fun y => Achievement_name y = Achievement_name a))
    by (intros y; reflexivity).
  rewrite (filter_key_singleton Achievement_name _ a Hn Ha). reflexivity.
Qed.

(** No achievement has that name: one is created, with a new primary key. *)
Lemma get_or_create_missing (s : store) (n : string) :
  n ∉ Achievement_name <$> achievements s ->
  let a := {| Achievement_id := fresh_pk (Achievement_id <$> achievements s);
              Achievement_name := n |} in
  Achievement_objects_get_or_create (descriptor n) s
  = (inr (a, true),
     {| achievements := achievements s ++ [a]; cats := cats s;
        achievement_cats := achievement_cats s;
        journal := journal s ++ [InsertAchievement a] |}).
Proof.
  intros Hn a. unfold Achievement_objects_get_or_create.
  rewrite filter_none; [reflexivity|].
  intros y Hy Hm. apply Hn. unfold matches in Hm. cbn in Hm. subst n.
  apply list_elem_of_fmap_2. exact Hy.
Qed.

Lemma AchievementCat_objects_create_ok (s : store) (achievement : Achievement) (cat : Cat) :
  (Achievement_id achievement, Cat_id cat) ∉ pairs s ->
  Achievement_id achievement ∈ Achievement_id <$> achievements s ->
  Cat_id cat ∈ Cat_id <$> cats s ->
  let row := {| AchievementCat_id := fresh_pk (AchievementCat_id <$> achievement_cats s);
                AchievementCat_achievement := Achievement_id achievement;
                AchievementCat_cat := Cat_id cat |} in
  AchievementCat_objects_create achievement cat s
  = (inr row,
     {| achievements := achievements s; cats := cats s;
        achievement_cats := achievement_cats s ++ [row];
        journal := journal s ++ [InsertAchievementCat row] |}).
Proof.
  intros Hp Ha Hc row. unfold AchievementCat_objects_create.
  rewrite decide_False by exact Hp.
  rewrite decide_True by exact Ha.
  rewrite decide_True by exact Hc. reflexivity.
Qed.

(** A pair that is already linked is refused, and nothing is written. *)
Lemma AchievementCat_objects_create_duplicate (s : store) (achievement : Achievement)
    (cat : Cat) :
  (Achievement_id achievement, Cat_id cat) ∈ pairs s ->
  AchievementCat_objects_create achievement cat s
  = (inl (IntegrityError (UniqueTogether ["achievement"; "cat"])), s).
Proof.
  intros Hp. unfold AchievementCat_objects_create.
  rewrite decide_True by exact Hp. reflexivity.
Qed.


(** One turn of the loop, on a descriptor whose achievement the cat does
    not have yet. *)
Lemma attach_one (cat : Cat) (n : string) (s : store) :
  consistent s -> Cat_id cat ∈ Cat_id <$> cats s -> not_linked_to (Cat_id cat) n s ->
  exists a s',
    CatSerializer.attach cat (descriptor n) s = (inr tt, s') /\
    Achievement_name a = n /\
    cats s' = cats s /\
    achievements s' =
      achievements s ++ (if decide (n ∈ Achievement_name <$> achievements s)
                         then [] else [a]) /\
    a ∈ achievements s' /\
    (exists row, achievement_cats s' = achievement_cats s ++ [row] /\
                 pair_of row = (Achievement_id a, Cat_id cat)) /\
    (exists ws, journal s' = journal s ++ ws /\ forallb is_relation_write ws = true).
Proof.
  intros [Hschema Hnames] Hcat Hlinked. unfold CatSerializer.attach.
  destruct (decide (n ∈ Achievement_name <$> achievements s)) as [Hin|Hin].
  - apply list_elem_of_fmap in Hin as (a & -> & Ha).
    exists a. eexists. unfold mbind, DB_bind.
    rewrite (get_or_create_found s a Hnames Ha).
    rewrite AchievementCat_objects_create_ok; cycle 1.
    + intros Hp. apply list_elem_of_fmap in Hp as (r & Er & Hr).
      injection Er as Era Erc.
      destruct (Hlinked r Hr (eq_sym Erc)) as (a' & Ha' & Eid & Hne).
      apply Hne. f_equal.
      apply (NoDup_fmap_key Achievement_id (achievements s)); try assumption.
      * apply Hschema.
      * congruence.
    + apply list_elem_of_fmap_2. exact Ha.
    + exact Hcat.
    + unfold mret, DB_ret. store_simpl.
      repeat split; try reflexivity.
      * rewrite app_nil_r. reflexivity.
      * exact Ha.
      * eexists. split; reflexivity.
      * eexists. split; reflexivity.
  - eexists. eexists. unfold mbind, DB_bind.
    rewrite (get_or_create_missing s n Hin).
    rewrite AchievementCat_objects_create_ok; store_simpl; cycle 1.
    + intros Hp. apply list_elem_of_fmap in Hp as (r & Er & Hr).
      injection Er as Era Erc.
      destruct (Hlinked r Hr (eq_sym Erc)) as (a' & Ha' & Eid & Hne).
      apply (fresh_pk_fresh (Achievement_id <$> achievements s)).
      rewrite Era, <- Eid. apply list_elem_of_fmap_2. exact Ha'.
    + rewrite fmap_app. apply elem_of_app. right. left.
    + exact Hcat.
    + unfold mret, DB_ret. store_simpl.
      repeat split; try reflexivity.
      * apply elem_of_app. right. left.
      * eexists. split; reflexivity.
      * eexists. rewrite <- app_assoc. split; reflexivity.
Qed.

(** The loop over descriptors with pairwise distinct names, for a cat that
    has none of the achievements they name: every turn returns; the
    achievements that were missing are created, in order; the through
    table gets one row per descriptor, linking the achievement of that
    name to the cat; nothing else changes. *)
Lemma attach_all (cat : Cat) (names : list string) : forall s,
  NoDup names -> consistent s -> Cat_id cat ∈ Cat_id <$> cats s ->
  (forall n, n ∈ names -> not_linked_to (Cat_id cat) n s) ->
  exists s' created joined rows,
    for_each (descriptor <$> names) (CatSerializer.attach cat) s = (inr tt, s') /\
    cats s' = cats s /\
    achievements s' = achievements s ++ created /\
    Achievement_name <$> created
      = filter (fun n => n ∉ Achievement_name <$> achievements s) names /\
    achievement_cats s' = achievement_cats s ++ rows /\
    pair_of <$> rows = (fun a => (Achievement_id a, Cat_id cat)) <$> joined /\
    Achievement_name <$> joined = names /\
    (forall a, a ∈ joined -> a ∈ achievements s') /\
    (exists ws, journal s' = journal s ++ ws /\ forallb is_relation_write ws = true).
Proof.
  induction names as [|n names IH]; intros s Hnodup Hs Hcat Hlinked.
  - exists s, [], [], []. cbn [fmap list_fmap for_each].
    rewrite !app_nil_r. repeat split; try reflexivity.
    + intros a Ha. inversion Ha.
    + exists []. rewrite app_nil_r. split; reflexivity.
  - apply NoDup_cons in Hnodup as [Hn Hnodup].
    destruct (attach_one cat n s Hs Hcat (Hlinked n ltac:(left)))
      as (a & s1 & Hrun & Hname & Hcats & Hachs & Ha & (row & Hrows & Hrow)
          & (ws & Hj & Hws)).
    assert (Hs1 : consistent s1).
    { pose proof (attach_consistent cat (descriptor n) s Hs) as Hc.
      rewrite Hrun in Hc. exact Hc. }
    assert (Hsub : forall x, x ∈ achievements s -> x ∈ achievements s1).
    { intros x Hx. rewrite Hachs. apply elem_of_app. left. exact Hx. }
    destruct (IH s1 Hnodup Hs1) as (s' & created & joined & rows & Hrun' & Hcats'
      & Hachs' & Hcreated & Hrows' & Hpairs & Hjoined & Hmem & (ws' & Hj' & Hws')).
    { rewrite Hcats. exact Hcat. }
    { intros m Hm r Hr Hrc. rewrite Hrows in Hr.
      apply elem_of_app in Hr as [Hr|Hr].
      - destruct (Hlinked m ltac:(right; exact Hm) r Hr Hrc) as (a' & Ha' & Eid & Hne).
        exists a'. split; [apply Hsub; exact Ha'|]. split; assumption.
      - apply list_elem_of_singleton in Hr. subst r.
        exists a. split; [exact Ha|]. split.
        + injection Hrow as Hra _. symmetry. exact Hra.
        + rewrite Hname. intros ->. contradiction. }
    exists s', ((if decide (n ∈ Achievement_name <$> achievements s) then [] else [a])
                ++ created), (a :: joined), (row :: rows).
    rewrite (fmap_cons descriptor). cbn [for_each]. unfold mbind at 1, DB_bind at 1.
    rewrite Hrun, Hrun'.
    split; [reflexivity|].
    split; [congruence|].
    split; [rewrite Hachs', Hachs, <- app_assoc; reflexivity|].
    split.
    { rewrite fmap_app, Hcreated, filter_cons.
      destruct (decide (n ∈ Achievement_name <$> achievements s)) as [Hin|Hin].
      - rewrite decide_False by (intros Hf; exact (Hf Hin)).
        rewrite Hachs, app_nil_r. reflexivity.
      - rewrite decide_True by exact Hin.
        rewrite fmap_cons, Hname. cbn [app]. f_equal.
        apply filter_ext_in. intros m Hm. rewrite Hachs, fmap_app, fmap_cons.
        rewrite Hname, elem_of_app, list_elem_of_singleton.
        split; [tauto|]. intros Hm' [Hm''| ->]; [exact (Hm' Hm'')|contradiction]. }
    split; [rewrite Hrows', Hrows, <- app_assoc; reflexivity|].
    split; [rewrite !fmap_cons, Hpairs, Hrow; reflexivity|].
    split; [rewrite fmap_cons, Hjoined, Hname; reflexivity|].
    split.
    { intros x Hx. apply elem_of_cons in Hx as [->|Hx]; [|apply Hmem; exact Hx].
      rewrite Hachs'. apply elem_of_app. left. exact Ha. }
    exists (ws ++ ws'). rewrite Hj', Hj, <- app_assoc. split; [reflexivity|].
    rewrite forallb_app, Hws, Hws'. reflexivity.
Qed.

(** The same loop on a cat that has no through row at all. *)
Lemma not_linked_to_fresh (cat_pk : Z) (n : string) (s : store) :
  (forall r, r ∈ achievement_cats s -> AchievementCat_cat r <> cat_pk) ->
  not_linked_to cat_pk n s.
Proof. intros Hnone r Hr Hrc. exfalso. exact (Hnone r Hr Hrc). Qed.

(** [order_by_name] only reorders. *)
Lemma insert_by_name_perm (a : Achievement) (l : list Achievement) :
  insert_by_name a l ≡ₚ a :: l.
Proof.
  induction l as [|b l IH]; [reflexivity|]. cbn [insert_by_name].
  destruct (String.leb (Achievement_name a) (Achievement_name b)); [reflexivity|].
  rewrite IH. apply Permutation_swap.
Qed.

Lemma order_by_name_perm (l : list Achievement) : order_by_name l ≡ₚ l.
Proof.
  unfold order_by_name. induction l as [|a l IH]; [reflexivity|].
  cbn [foldr]. rewrite insert_by_name_perm, IH. reflexivity.
Qed.

(** Reading the relation back: when the through rows of the cat are
    [rows], linking it to [joined], the cat's achievements are [joined],
    in the model's ordering. *)
Lemma Cat_achievements_all_joined (cat : Cat) (s : store)
    (rows : list AchievementCat) (joined : list Achievement) :
  NoDup (Achievement_id <$> achievements s) ->
  rows_of (Cat_id cat) s = rows ->
  pair_of <$> rows = (fun a => (Achievement_id a, Cat_id cat)) <$> joined ->
  (forall a, a ∈ joined -> a ∈ achievements s) ->
  Cat_achievements_all cat s = order_by_name joined.
Proof.
  intros Hpk Hrows Hpairs Hmem. unfold Cat_achievements_all. f_equal.
  unfold rows_of in Hrows. rewrite Hrows. clear Hrows.
  revert joined Hpairs Hmem.
  induction rows as [|r rows IH]; intros [|a joined] Hpairs Hmem;
    try discriminate; [reflexivity|].
  rewrite !fmap_cons in Hpairs. injection Hpairs as Hra Hrc Hpairs.
  cbn [mbind list_bind]. rewrite (IH joined Hpairs) by (intros x Hx; apply Hmem; right; exact Hx).
  rewrite Hra.
  rewrite (filter_key_singleton Achievement_id _ a Hpk) by (apply Hmem; left).
  reflexivity.
Qed.

(** ** The loop, whenever it returns *)

(** One turn that returns: the achievement it linked matches the
    descriptor; it was in the table, or nothing matched and it was
    appended; the through table got one row for it. *)
Lemma attach_returns (cat : Cat) (d : achievement_data) (s s1 : store) :
  CatSerializer.attach cat d s = (inr tt, s1) ->
  exists a row,
    matches d a /\ a ∈ achievements s1 /\
    (achievements s1 = achievements s \/
     (achievements s1 = achievements s ++ [a] /\
      forall b, b ∈ achievements s -> ~ matches d b)) /\
    cats s1 = cats s /\
    achievement_cats s1 = achievement_cats s ++ [row] /\
    pair_of row = (Achievement_id a, Cat_id cat).
Proof.
  unfold CatSerializer.attach, Achievement_objects_get_or_create,
    Achievement_objects_create, AchievementCat_objects_create.
  unfold mbind, DB_bind, mret, DB_ret.
  destruct (filter (matches d) (achievements s)) as [|a [|a' l]] eqn:E.
  - cbv beta iota. store_simpl.
    repeat (case_decide; try discriminate).
    intros Hrun. injection Hrun as <-.
    exists {| Achievement_id := fresh_pk (Achievement_id <$> achievements s);
              Achievement_name := default "" (data_name d) |}.
    eexists. store_simpl.
    split; [|split; [|split; [|split; [|split]]]]; try reflexivity.
    + unfold matches. store_simpl. destruct (data_name d); [reflexivity|exact Logic.I].
    + apply elem_of_app. right. left.
    + right. split; [reflexivity|].
      intros b Hb Hm. exact (filter_nil_not_elem_of _ _ b E Hm Hb).
  - cbv beta iota.
    repeat (case_decide; try discriminate).
    intros Hrun. injection Hrun as <-. exists a. eexists. store_simpl.
    assert (Ha : a ∈ filter (matches d) (achievements s)) by (rewrite E; left).
    apply list_elem_of_filter in Ha as [Hm Ha].
    split; [exact Hm|]. split; [exact Ha|]. split; [left; reflexivity|].
    split; [reflexivity|]. split; reflexivity.
  - discriminate.
Qed.

Lemma for_each_attach_returns (cat : Cat) (ds : list achievement_data) :
  forall s s',
    for_each ds (CatSerializer.attach cat) s = (inr tt, s') ->
    cats s' = cats s /\
    exists created joined rows,
      attached (Cat_id cat) ds (achievements s) (achievement_cats s) s'
        created joined rows.
Proof.
  induction ds as [|d ds IH]; intros s s' Hrun.
  - injection Hrun as <-. split; [reflexivity|]. exists [], [], [].
    split; rewrite ?app_nil_r; try reflexivity; try constructor.
    intros a Ha. inversion Ha.
  - cbn [for_each] in Hrun. unfold mbind at 1, DB_bind at 1 in Hrun.
    destruct (CatSerializer.attach cat d s) as [[e|[]] s1] eqn:Hone; [discriminate|].
    destruct (attach_returns cat d s s1 Hone)
      as (a & row & Hm & Ha & Hachs & Hcats & Hrows & Hrow).
    destruct (IH s1 s' Hrun)
      as (Hc & created & joined & rows & [Hac Hcr Hr Hp Hj Hmem]).
    split; [congruence|].
    assert (Hsub : forall b, b ∈ achievements s -> b ∈ achievements s1).
    { intros b Hb. destruct Hachs as [->|[-> _]]; [exact Hb|].
      apply elem_of_app. left. exact Hb. }
    assert (Hcreated' :
      Forall (fun a => exists d', d' ∈ d :: ds /\ matches d' a /\
                                  forall b, b ∈ achievements s -> ~ matches d' b) created).
    { eapply Forall_impl; [exact Hcr|]. intros x (d' & Hd' & Hm' & Hnone).
      exists d'. split; [right; exact Hd'|]. split; [exact Hm'|].
      intros b Hb. apply Hnone, Hsub, Hb. }
    destruct Hachs as [Hsame|[Hnew Hnone]].
    + exists created, (a :: joined), (row :: rows). split.
      * rewrite Hac, Hsame. reflexivity.
      * exact Hcreated'.
      * rewrite Hr, Hrows, <- app_assoc. reflexivity.
      * rewrite !fmap_cons, Hp, Hrow. reflexivity.
      * constructor; assumption.
      * intros x Hx. apply elem_of_cons in Hx as [->|Hx]; [|apply Hmem; exact Hx].
        rewrite Hac. apply elem_of_app. left. exact Ha.
    + exists (a :: created), (a :: joined), (row :: rows). split.
      * rewrite Hac, Hnew, <- app_assoc. reflexivity.
      * constructor; [|exact Hcreated'].
        exists d. split; [left|]. split; assumption.
      * rewrite Hr, Hrows, <- app_assoc. reflexivity.
      * rewrite !fmap_cons, Hp, Hrow. reflexivity.
      * constructor; assumption.
      * intros x Hx. apply elem_of_cons in Hx as [->|Hx]; [|apply Hmem; exact Hx].
        rewrite Hac. apply elem_of_app. left. exact Ha.
Qed.

(** ** [CatSerializer.create] *)

Lemma create_unfold (vd : validated_data) (s : store) :
  CatSerializer.create vd s
  = (Cat_objects_create (CatSerializer.set_achievements None vd) ≫= fun cat =>
     for_each (default [] (vd_achievements vd)) (CatSerializer.attach cat) ≫= fun _ =>
     mret cat) s.
Proof. reflexivity. Qed.

(** The row [Cat.objects.create] writes when the columns that are not
    nullable are given and the check constraint holds. *)
Lemma Cat_objects_create_ok (vd : validated_data) (birth_year owner : Z) (s : store) :
  vd_birth_year vd = Some birth_year -> vd_owner vd = Some owner ->
  birth_year_reasonable birth_year ->
  let cat := {| Cat_id := fresh_pk (Cat_id <$> cats s);
                Cat_name := default "" (vd_name vd);
                Cat_color := default "" (vd_color vd);
                Cat_birth_year := birth_year;
                Cat_owner := owner;
                Cat_image := default None (vd_image vd) |} in
  Cat_objects_create (CatSerializer.set_achievements None vd) s
  = (inr cat,
     {| achievements := achievements s; cats := cats s ++ [cat];
        achievement_cats := achievement_cats s;
        journal := journal s ++ [InsertCat cat] |}).
Proof.
  intros Hy Ho Hr cat. unfold Cat_objects_create.
  cbn [CatSerializer.set_achievements vd_achievements vd_birth_year vd_owner
       vd_name vd_color vd_image].
  rewrite Hy, Ho, decide_True by exact Hr. reflexivity.
Qed.

Lemma Cat_objects_create_unreasonable (vd : validated_data) (birth_year owner : Z)
    (s : store) :
  vd_birth_year vd = Some birth_year -> vd_owner vd = Some owner ->
  ~ birth_year_reasonable birth_year ->
  Cat_objects_create (CatSerializer.set_achievements None vd) s
  = (inl (IntegrityError (CheckConstraint "birth_year_reasonable")), s).
Proof.
  intros Hy Ho Hr. unfold Cat_objects_create.
  cbn [CatSerializer.set_achievements vd_achievements vd_birth_year vd_owner].
  rewrite Hy, Ho, decide_False by exact Hr. reflexivity.
Qed.

(** The through rows of a list that links achievements to one cat all
    belong to that cat. *)
Lemma linked_rows_of_cat (cat_pk : Z) (rows : list AchievementCat)
    (joined : list Achievement) :
  pair_of <$> rows = (fun a => (Achievement_id a, cat_pk)) <$> joined ->
  forall r, r ∈ rows -> AchievementCat_cat r = cat_pk.
Proof.
  revert joined. induction rows as [|r0 rows IH]; intros [|a joined] Hpairs r Hr;
    try discriminate; [inversion Hr|].
  rewrite !fmap_cons in Hpairs. injection Hpairs as _ Hc Hpairs.
  apply elem_of_cons in Hr as [->|Hr]; [exact Hc|].
  exact (IH joined Hpairs r Hr).
Qed.

(** [create] returns on validated data that carries the columns of the
    cat, with descriptors of pairwise distinct names. *)
Lemma create_distinct_names (s : store) (vd : validated_data)
    (names : list string) (birth_year owner : Z) :
  consistent s ->
  vd_birth_year vd = Some birth_year -> birth_year_reasonable birth_year ->
  vd_owner vd = Some owner ->
  default [] (vd_achievements vd) = descriptor <$> names ->
  NoDup names ->
  let cat := {| Cat_id := fresh_pk (Cat_id <$> cats s);
                Cat_name := default "" (vd_name vd);
                Cat_color := default "" (vd_color vd);
                Cat_birth_year := birth_year;
                Cat_owner := owner;
                Cat_image := default None (vd_image vd) |} in
  exists s' created joined rows,
    CatSerializer.create vd s = (inr cat, s') /\
    cats s' = cats s ++ [cat] /\
    achievements s' = achievements s ++ created /\
    Achievement_name <$> created
      = filter (fun n => n ∉ Achievement_name <$> achievements s) names /\
    achievement_cats s' = achievement_cats s ++ rows /\
    pair_of <$> rows = (fun a => (Achievement_id a, Cat_id cat)) <$> joined /\
    Achievement_name <$> joined = names /\
    (forall a, a ∈ joined -> a ∈ achievements s') /\
    rows_of (Cat_id cat) s' = rows /\
    Cat_achievements_all cat s' = order_by_name joined /\
    consistent s'.
Proof.
  intros Hs Hy Hr Ho Hds Hnodup cat.
  pose proof (Cat_objects_create_ok vd birth_year owner s Hy Ho Hr) as Hcreate.
  cbv zeta in Hcreate. fold cat in Hcreate.
  set (s0 := {| achievements := achievements s; cats := cats s ++ [cat];
                achievement_cats := achievement_cats s;
                journal := journal s ++ [InsertCat cat] |}) in *.
  assert (Hs0 : consistent s0).
  { pose proof (Cat_objects_create_consistent
                  (CatSerializer.set_achievements None vd) s Hs) as Hc.
    rewrite Hcreate in Hc. exact Hc. }
  assert (Hnone : forall r, r ∈ achievement_cats s -> AchievementCat_cat r <> Cat_id cat).
  { intros r Hr' E. destruct Hs as [Hschema _].
    destruct (achievement_cat_foreign_keys s Hschema r Hr') as [_ Hc].
    rewrite E in Hc. exact (fresh_pk_fresh _ Hc). }
  destruct (attach_all cat names s0 Hnodup Hs0) as (s' & created & joined & rows
    & Hrun & Hcats & Hachs & Hcreated & Hrows & Hpairs & Hjoined & Hmem & _).
  { subst s0. store_simpl. rewrite fmap_app. apply elem_of_app. right. left. }
  { intros n _. apply not_linked_to_fresh. exact Hnone. }
  assert (Hs' : consistent s').
  { pose proof (preserves_for_each consistent (descriptor <$> names)
                  (CatSerializer.attach cat) (attach_consistent cat) s0 Hs0) as Hc.
    rewrite Hrun in Hc. exact Hc. }
  assert (Hrows_of : rows_of (Cat_id cat) s' = rows).
  { unfold rows_of. rewrite Hrows. subst s0. store_simpl. rewrite filter_app.
    rewrite (filter_none _ (achievement_cats s)) by exact Hnone.
    apply filter_all. exact (linked_rows_of_cat _ _ _ Hpairs). }
  exists s', created, joined, rows.
  split.
  { rewrite create_unfold. unfold mbind at 1, DB_bind at 1. rewrite Hcreate.
    unfold mbind, DB_bind. rewrite Hds, Hrun. reflexivity. }
  split; [exact Hcats|].
  split; [exact Hachs|].
  split; [exact Hcreated|].
  split; [exact Hrows|].
  split; [exact Hpairs|].
  split; [exact Hjoined|].
  split; [exact Hmem|].
  split; [exact Hrows_of|].
  split; [|exact Hs'].
  apply (Cat_achievements_all_joined cat s' rows joined); try assumption.
  apply Hs'.
Qed.


(** Whenever [create] returns, whatever the validated data. *)
Lemma create_returns (s : store) (vd : validated_data) (cat : Cat) (s' : store) :
  consistent s -> CatSerializer.create vd s = (inr cat, s') ->
  exists birth_year owner created joined rows,
    vd_birth_year vd = Some birth_year /\ vd_owner vd = Some owner /\
    1900 < birth_year < 2100 /\
    cat = {| Cat_id := fresh_pk (Cat_id <$> cats s);
             Cat_name := default "" (vd_name vd);
             Cat_color := default "" (vd_color vd);
             Cat_birth_year := birth_year;
             Cat_owner := owner;
             Cat_image := default None (vd_image vd) |} /\
    cats s' = cats s ++ [cat] /\
    attached (Cat_id cat) (default [] (vd_achievements vd))
      (achievements s) (achievement_cats s) s' created joined rows /\
    rows_of (Cat_id cat) s' = rows /\
    Cat_achievements_all cat s' = order_by_name joined.
Proof.
  intros Hs Hrun.
  assert (Hs' : consistent s').
  { pose proof (create_consistent vd s Hs) as Hc. rewrite Hrun in Hc. exact Hc. }
  rewrite create_unfold in Hrun. unfold mbind at 1, DB_bind at 1 in Hrun.
  destruct (vd_birth_year vd) as [birth_year|] eqn:Hy;
    [|unfold Cat_objects_create in Hrun;
      cbn [CatSerializer.set_achievements vd_achievements vd_birth_year] in Hrun;
      rewrite Hy in Hrun; discriminate].
  destruct (vd_owner vd) as [owner|] eqn:Ho;
    [|unfold Cat_objects_create in Hrun;
      cbn [CatSerializer.set_achievements vd_achievements vd_birth_year vd_owner] in Hrun;
      rewrite Hy, Ho in Hrun; discriminate].
  destruct (decide (birth_year_reasonable birth_year)) as [Hr|Hr];
    [|rewrite (Cat_objects_create_unreasonable vd birth_year owner s Hy Ho Hr) in Hrun;
      discriminate].
  rewrite (Cat_objects_create_ok vd birth_year owner s Hy Ho Hr) in Hrun.
  cbv zeta in Hrun. unfold mbind at 1, DB_bind at 1 in Hrun.
  match type of Hrun with
  | context [for_each ?ds ?body ?s0] =>
      destruct (for_each ds body s0) as [[e|[]] s1] eqn:Hloop; [discriminate|]
  end.
  injection Hrun as <- <-.
  apply for_each_attach_returns in Hloop
    as (Hcats & created & joined & rows & Hattached).
  store_simpl in Hcats.
  assert (Hnone : forall r, r ∈ achievement_cats s ->
                            AchievementCat_cat r <> fresh_pk (Cat_id <$> cats s)).
  { intros r Hr' E. destruct Hs as [Hschema _].
    destruct (achievement_cat_foreign_keys s Hschema r Hr') as [_ Hc].
    rewrite E in Hc. exact (fresh_pk_fresh _ Hc). }
  assert (Hrows_of : rows_of (fresh_pk (Cat_id <$> cats s)) s1 = rows).
  { unfold rows_of. rewrite (attached_rows _ _ _ _ _ _ _ _ Hattached), filter_app.
    rewrite (filter_none _ (achievement_cats s)) by exact Hnone.
    apply filter_all.
    exact (linked_rows_of_cat _ _ _ (attached_pairs _ _ _ _ _ _ _ _ Hattached)). }
  exists birth_year, owner, created, joined, rows.
  split; [reflexivity|]. split; [reflexivity|]. split; [exact Hr|].
  split; [reflexivity|]. split; [exact Hcats|]. split; [exact Hattached|].
  split; [exact Hrows_of|].
  eapply Cat_achievements_all_joined; [apply Hs'|exact Hrows_of| |].
  - exact (attached_pairs _ _ _ _ _ _ _ _ Hattached).
  - exact (attached_members _ _ _ _ _ _ _ _ Hattached).
Qed.

(** C3: whenever [create] returns, the cat it returns is the new row of
    the cat table, made of every field but [achievements]; for each
    descriptor the achievement that matches it is the one found in the
    table, or one created because nothing matched; the through table has
    got exactly one row per descriptor, linking that achievement to the new
    cat; and the cat read back has exactly these achievements.  And
    [create] does return when the data carries the birth year, in range,
    and the owner, and the descriptors have pairwise distinct names; the
    achievements created are then those of the names the table did not
    have. *)
Theorem CatSerializer_create_spec :
  (forall s vd cat s',
      consistent s -> CatSerializer.create vd s = (inr cat, s') ->
      exists birth_year owner created joined rows,
        vd_birth_year vd = Some birth_year /\ vd_owner vd = Some owner /\
        1900 < birth_year < 2100 /\
        cat = {| Cat_id := fresh_pk (Cat_id <$> cats s);
                 Cat_name := default "" (vd_name vd);
                 Cat_color := default "" (vd_color vd);
                 Cat_birth_year := birth_year;
                 Cat_owner := owner;
                 Cat_image := default None (vd_image vd) |} /\
        cats s' = cats s ++ [cat] /\
        attached (Cat_id cat) (default [] (vd_achievements vd))
          (achievements s) (achievement_cats s) s' created joined rows /\
        rows_of (Cat_id cat) s' = rows /\
        Cat_achievements_all cat s' = order_by_name joined)
  /\ (forall s vd names birth_year owner,
      consistent s ->
      vd_birth_year vd = Some birth_year -> 1900 < birth_year < 2100 ->
      vd_owner vd = Some owner ->
      default [] (vd_achievements vd) = descriptor <$> names ->
      NoDup names ->
      exists cat s' created joined,
        CatSerializer.create vd s = (inr cat, s') /\
        achievements s' = achievements s ++ created /\
        Achievement_name <$> created
          = filter (fun n => n ∉ Achievement_name <$> achievements s) names /\
        Achievement_name <$> joined = names /\
        Cat_achievements_all cat s' = order_by_name joined /\
        consistent s').
Proof.
  split; [exact create_returns|].
  intros s vd names birth_year owner Hs Hy Hr Ho Hds Hnodup.
  destruct (create_distinct_names s vd names birth_year owner Hs Hy Hr Ho Hds Hnodup)
    as (s' & created & joined & rows & Hrun & _ & Hachs & Hcreated & _ & _ & Hjoined
        & _ & _ & Hall & Hs').
  eexists _, s', created, joined.
  split; [exact Hrun|]. split; [exact Hachs|]. split; [exact Hcreated|].
  split; [exact Hjoined|]. split; [exact Hall|exact Hs'].
Qed.

Lemma CatSerializer_create_spec_witness :
  exists cat s' created joined,
    CatSerializer.create murka empty_store = (inr cat, s') /\
    achievements s' = achievements empty_store ++ created /\
    Achievement_name <$> created
      = filter (fun n => n ∉ Achievement_name <$> achievements empty_store) ["Climber"] /\
    Achievement_name <$> joined = ["Climber"] /\
    Cat_achievements_all cat s' = order_by_name joined /\
    consistent s'.
Proof.
  refine (proj2 CatSerializer_create_spec empty_store murka ["Climber"] 2015 1
            empty_store_consistent eq_refl _ eq_refl eq_refl _).
  - lia.
  - apply NoDup_singleton.
Defined.

(** X2: a descriptor that comes twice: the second turn of the loop finds the
    achievement of the first and is refused by [unique_together].  The
    exception leaves [create] with the cat, the achievement and the first
    through row written. *)
Theorem create_repeated_descriptor (s : store) (vd : validated_data) (n : string)
    (birth_year owner : Z) :
  consistent s ->
  vd_birth_year vd = Some birth_year -> birth_year_reasonable birth_year ->
  vd_owner vd = Some owner ->
  vd_achievements vd = Some [descriptor n; descriptor n] ->
  exists s' row,
    CatSerializer.create vd s
    = (inl (IntegrityError (UniqueTogether ["achievement"; "cat"])), s') /\
    Cat_id <$> cats s' = (Cat_id <$> cats s) ++ [fresh_pk (Cat_id <$> cats s)] /\
    achievement_cats s' = achievement_cats s ++ [row] /\
    AchievementCat_cat row = fresh_pk (Cat_id <$> cats s).
Proof.
  intros Hs Hy Hr Ho Hds.
  pose proof (Cat_objects_create_ok vd birth_year owner s Hy Ho Hr) as Hcreate.
  cbv zeta in Hcreate.
  set (cat := {| Cat_id := fresh_pk (Cat_id <$> cats s);
                 Cat_name := default "" (vd_name vd);
                 Cat_color := default "" (vd_color vd);
                 Cat_birth_year := birth_year; Cat_owner := owner;
                 Cat_image := default None (vd_image vd) |}) in *.
  set (s0 := {| achievements := achievements s; cats := cats s ++ [cat];
                achievement_cats := achievement_cats s;
                journal := journal s ++ [InsertCat cat] |}) in *.
  assert (Hs0 : consistent s0).
  { pose proof (Cat_objects_create_consistent
                  (CatSerializer.set_achievements None vd) s Hs) as Hc.
    rewrite Hcreate in Hc. exact Hc. }
  destruct (attach_one cat n s0 Hs0) as (a & s1 & Hrun & Hname & Hcats & _ & Ha
    & (row & Hrows & Hrow) & _).
  { subst s0. store_simpl. rewrite fmap_app. apply elem_of_app. right. left. }
  { apply not_linked_to_fresh. intros r Hr' E. destruct Hs as [Hschema _].
    destruct (achievement_cat_foreign_keys s Hschema r Hr') as [_ Hc].
    rewrite E in Hc. exact (fresh_pk_fresh _ Hc). }
  assert (Hs1 : consistent s1).
  { pose proof (attach_consistent cat (descriptor n) s0 Hs0) as Hc.
    rewrite Hrun in Hc. exact Hc. }
  exists s1, row.
  split.
  { rewrite create_unfold. unfold mbind at 1, DB_bind at 1. rewrite Hcreate, Hds.
    cbn [default from_option id for_each].
    unfold mbind at 1, DB_bind at 1. unfold mbind at 1, DB_bind at 1. rewrite Hrun.
    unfold mbind at 1, DB_bind at 1.
    unfold CatSerializer.attach. unfold mbind at 1, DB_bind at 1.
    rewrite <- Hname. rewrite (get_or_create_found s1 a (proj2 Hs1) Ha).
    unfold mbind at 1, DB_bind at 1.
    rewrite AchievementCat_objects_create_duplicate; [reflexivity|].
    unfold pairs. rewrite Hrows, fmap_app. apply elem_of_app. right.
    rewrite list_fmap_singleton, Hrow. left. }
  split; [rewrite Hcats; subst s0; store_simpl; rewrite fmap_app; reflexivity|].
  split; [exact Hrows|].
  injection Hrow as _ Hc. exact Hc.
Qed.

Lemma create_repeated_descriptor_witness :
  exists s' row,
    CatSerializer.create
      (CatSerializer.set_achievements (Some [descriptor "Climber"; descriptor "Climber"])
         murka) empty_store
    = (inl (IntegrityError (UniqueTogether ["achievement"; "cat"])), s') /\
    Cat_id <$> cats s' = (Cat_id <$> cats empty_store) ++ [fresh_pk (Cat_id <$> cats empty_store)] /\
    achievement_cats s' = achievement_cats empty_store ++ [row] /\
    AchievementCat_cat row = fresh_pk (Cat_id <$> cats empty_store).
Proof.
  refine (create_repeated_descriptor empty_store
            (CatSerializer.set_achievements
               (Some [descriptor "Climber"; descriptor "Climber"]) murka)
            "Climber" 2015 1 empty_store_consistent eq_refl _ eq_refl eq_refl).
  unfold birth_year_reasonable. lia.
Defined.

(** ** Round trip and reuse of achievements *)

Section RoundTrip.

Context `{Platform}.

Lemma to_representation_achievements (now : datetime) (s : store) (cat : Cat) :
  CatSerializer.to_representation now s cat !! "achievements"
  = Some (JArr (AchievementSerializer.to_representation <$> Cat_achievements_all cat s)).
Proof.
  unfold CatSerializer.to_representation.
  repeat (rewrite lookup_insert_ne by discriminate).
  apply lookup_insert_eq.
Qed.

Lemma to_representation_age (now : datetime) (s : store) (cat : Cat) :
  CatSerializer.to_representation now s cat !! "age"
  = Some (JNum (year now - Cat_birth_year cat)).
Proof.
  unfold CatSerializer.to_representation.
  repeat (rewrite lookup_insert_ne by discriminate).
  apply lookup_insert_eq.
Qed.

(** C8: a cat created with the one descriptor [{name: "Climber"}] reads
    back with exactly one achievement, named "Climber"; a second cat
    created with the same descriptor is linked to that same achievement,
    and the achievement table gets no new row. *)
Theorem Climber_round_trip (now : datetime) (s : store) (vd1 vd2 : validated_data)
    (y1 o1 y2 o2 : Z) :
  consistent s ->
  vd_birth_year vd1 = Some y1 -> birth_year_reasonable y1 -> vd_owner vd1 = Some o1 ->
  vd_achievements vd1 = Some [descriptor "Climber"] ->
  vd_birth_year vd2 = Some y2 -> birth_year_reasonable y2 -> vd_owner vd2 = Some o2 ->
  vd_achievements vd2 = Some [descriptor "Climber"] ->
  exists cat1 s1 climber cat2 s2,
    CatSerializer.create vd1 s = (inr cat1, s1) /\
    climber ∈ achievements s1 /\
    CatSerializer.to_representation now s1 cat1 !! "achievements"
    = Some (JArr [achievement_payload (Achievement_id climber) "Climber"]) /\
    CatSerializer.create vd2 s1 = (inr cat2, s2) /\
    achievements s2 = achievements s1 /\
    filter (fun a => Achievement_name a = "Climber") (achievements s2) = [climber] /\
    CatSerializer.to_representation now s2 cat2 !! "achievements"
    = Some (JArr [achievement_payload (Achievement_id climber) "Climber"]).
Proof.
  intros Hs Hy1 Hr1 Ho1 Ha1 Hy2 Hr2 Ho2 Ha2.
  destruct (create_distinct_names s vd1 ["Climber"] y1 o1 Hs Hy1 Hr1 Ho1)
    as (s1 & created & joined & rows & Hrun & _ & _ & _ & _ & _ & Hjoined & Hmem
        & _ & Hall & Hs1).
  { rewrite Ha1. reflexivity. }
  { apply NoDup_singleton. }
  destruct joined as [|climber [|x joined]]; try discriminate.
  injection Hjoined as Hname.
  assert (Hclimber : climber ∈ achievements s1) by (apply Hmem; left).
  destruct (create_distinct_names s1 vd2 ["Climber"] y2 o2 Hs1 Hy2 Hr2 Ho2)
    as (s2 & created2 & joined2 & rows2 & Hrun2 & _ & Hachs2 & Hcreated2 & _ & _
        & Hjoined2 & Hmem2 & _ & Hall2 & Hs2).
  { rewrite Ha2. reflexivity. }
  { apply NoDup_singleton. }
  assert (Hin : "Climber" ∈ Achievement_name <$> achievements s1).
  { rewrite <- Hname. apply list_elem_of_fmap_2. exact Hclimber. }
  rewrite filter_cons, decide_False, filter_nil in Hcreated2
    by (intros Hf; exact (Hf Hin)).
  apply fmap_nil_inv in Hcreated2. subst created2. rewrite app_nil_r in Hachs2.
  destruct joined2 as [|climber2 [|x joined2]]; try discriminate.
  injection Hjoined2 as Hname2.
  assert (climber2 = climber) as ->.
  { destruct Hs1 as [_ Hnames].
    apply (NoDup_fmap_key Achievement_name (achievements s1)); try assumption.
    - rewrite <- Hachs2. apply Hmem2. left.
    - congruence. }
  eexists _, s1, climber, _, s2.
  split; [exact Hrun|].
  split; [exact Hclimber|].
  split.
  { rewrite to_representation_achievements, Hall. cbn [order_by_name foldr insert_by_name].
    rewrite list_fmap_singleton.
    unfold AchievementSerializer.to_representation, achievement_payload.
    rewrite Hname. reflexivity. }
  split; [exact Hrun2|].
  split; [exact Hachs2|].
  split.
  { rewrite Hachs2, <- Hname.
    apply (filter_key_singleton Achievement_name); [apply Hs1|exact Hclimber]. }
  rewrite to_representation_achievements, Hall2. cbn [order_by_name foldr insert_by_name].
  rewrite list_fmap_singleton.
  unfold AchievementSerializer.to_representation, achievement_payload.
  rewrite Hname. reflexivity.
Qed.

End RoundTrip.

Lemma Climber_round_trip_witness :
  exists cat1 s1 climber cat2 s2,
    CatSerializer.create murka empty_store = (inr cat1, s1) /\
    climber ∈ achievements s1 /\
    @CatSerializer.to_representation Sample.platform {| year := 2024 |} s1 cat1
      !! "achievements"
    = Some (JArr [achievement_payload (Achievement_id climber) "Climber"]) /\
    CatSerializer.create barsik s1 = (inr cat2, s2) /\
    achievements s2 = achievements s1 /\
    filter (fun a => Achievement_name a = "Climber") (achievements s2) = [climber] /\
    @CatSerializer.to_representation Sample.platform {| year := 2024 |} s2 cat2
      !! "achievements"
    = Some (JArr [achievement_payload (Achievement_id climber) "Climber"]).
Proof.
  refine (@Climber_round_trip Sample.platform {| year := 2024 |} empty_store murka barsik
            2015 1 2018 2 empty_store_consistent eq_refl _ eq_refl eq_refl
            eq_refl _ eq_refl eq_refl);
    unfold birth_year_reasonable; lia.
Defined.

(** ** [create] without achievements *)

Lemma Cat_objects_create_relation (kwargs : validated_data) (s : store) :
  achievements (snd (Cat_objects_create kwargs s)) = achievements s /\
  achievement_cats (snd (Cat_objects_create kwargs s)) = achievement_cats s.
Proof.
  unfold Cat_objects_create.
  destruct (vd_achievements kwargs); [split; reflexivity|].
  destruct (vd_birth_year kwargs) as [y|], (vd_owner kwargs) as [o|];
    try (split; reflexivity).
  destruct (decide (birth_year_reasonable y)); split; reflexivity.
Qed.

(** C10: [create] on validated data with no [achievements] key is [create]
    on the same data with an empty list: both are the creation of the cat
    row alone, which reads no achievement (no get-or-create) and writes no
    row of the achievement table or of the through table.  And the cat is
    created from the other fields: with the birth year in range and the
    owner given, [create] returns a cat with a primary key that was not
    in use and the name, colour, birth year, owner and image of the
    validated data; that row is appended to the cat table, and it is the
    one write. *)
Theorem create_without_achievements (vd : validated_data) (s : store) :
  CatSerializer.create (CatSerializer.set_achievements None vd) s
  = CatSerializer.create (CatSerializer.set_achievements (Some []) vd) s
  /\ CatSerializer.create (CatSerializer.set_achievements None vd) s
     = Cat_objects_create (CatSerializer.set_achievements None vd) s
  /\ achievements (snd (CatSerializer.create (CatSerializer.set_achievements None vd) s))
     = achievements s
  /\ achievement_cats
       (snd (CatSerializer.create (CatSerializer.set_achievements None vd) s))
     = achievement_cats s
  /\ (forall birth_year owner,
        vd_birth_year vd = Some birth_year -> vd_owner vd = Some owner ->
        1900 < birth_year < 2100 ->
        exists cat s',
          CatSerializer.create (CatSerializer.set_achievements None vd) s = (inr cat, s') /\
          (Cat_id cat ∉ Cat_id <$> cats s) /\
          Cat_name cat = default "" (vd_name vd) /\
          Cat_color cat = default "" (vd_color vd) /\
          Cat_birth_year cat = birth_year /\
          Cat_owner cat = owner /\
          Cat_image cat = default None (vd_image vd) /\
          cats s' = cats s ++ [cat] /\
          achievements s' = achievements s /\
          achievement_cats s' = achievement_cats s /\
          journal s' = journal s ++ [InsertCat cat]).
Proof.
  assert (E : CatSerializer.create (CatSerializer.set_achievements None vd) s
              = Cat_objects_create (CatSerializer.set_achievements None vd) s).
  { rewrite create_unfold. unfold mbind, DB_bind.
    cbn [CatSerializer.set_achievements vd_achievements vd_name vd_color vd_birth_year
         vd_owner vd_image default from_option for_each].
    change (CatSerializer.set_achievements None
              (CatSerializer.set_achievements None vd))
      with (CatSerializer.set_achievements None vd).
    destruct (Cat_objects_create (CatSerializer.set_achievements None vd) s)
      as [[e|cat] s']; reflexivity. }
  split; [reflexivity|].
  split; [exact E|].
  split; [rewrite E; apply Cat_objects_create_relation|].
  split; [rewrite E; apply Cat_objects_create_relation|].
  intros birth_year owner Hy Ho Hr.
  rewrite E, (Cat_objects_create_ok vd birth_year owner s Hy Ho Hr).
  eexists _, _. split; [reflexivity|]. store_simpl.
  split; [apply fresh_pk_fresh|].
  repeat (split; [reflexivity|]). reflexivity.
Qed.

Lemma create_without_achievements_witness :
  exists cat s',
    CatSerializer.create (CatSerializer.set_achievements None murka) empty_store
    = (inr cat, s') /\
    (Cat_id cat ∉ Cat_id <$> cats empty_store) /\
    Cat_name cat = "Murka" /\ Cat_color cat = "white" /\ Cat_birth_year cat = 2015 /\
    Cat_owner cat = 1 /\ Cat_image cat = None /\
    cats s' = [cat] /\ achievements s' = [] /\ achievement_cats s' = [] /\
    journal s' = [InsertCat cat].
Proof.
  exact (proj2 (proj2 (proj2 (proj2 (create_without_achievements murka empty_store))))
           2015 1 eq_refl eq_refl (conj eq_refl eq_refl)).
Defined.

(** ** The uniqueness of (achievement, cat) pairs *)

(** C7: creating a through row for a pair that is already linked raises
    the integrity error of [unique_together] and writes nothing; in every
    reachable store the pairs of the through table are pairwise distinct,
    so a pair is linked by at most one row. *)
Theorem AchievementCat_pair_unique :
  (forall s achievement cat,
      (Achievement_id achievement, Cat_id cat) ∈ pairs s ->
      AchievementCat_objects_create achievement cat s
      = (inl (IntegrityError (UniqueTogether ["achievement"; "cat"])), s))
  /\ (forall s, reachable s -> NoDup (pairs s))
  /\ (forall s r1 r2,
      reachable s -> r1 ∈ achievement_cats s -> r2 ∈ achievement_cats s ->
      AchievementCat_achievement r1 = AchievementCat_achievement r2 ->
      AchievementCat_cat r1 = AchievementCat_cat r2 ->
      r1 = r2).
Proof.
  split; [exact AchievementCat_objects_create_duplicate|].
  split.
  - intros s Hs. apply reachable_consistent in Hs. apply Hs.
  - intros s r1 r2 Hs H1 H2 Ha Hc. apply reachable_consistent in Hs.
    apply (NoDup_fmap_key pair_of (achievement_cats s)); try assumption.
    + apply Hs.
    + unfold pair_of. congruence.
Qed.

Lemma murka_store_reachable : reachable murka_store.
Proof. apply (reachable_step empty_store); constructor. Qed.

Lemma AchievementCat_pair_unique_witness :
  AchievementCat_objects_create
    {| Achievement_id := 1; Achievement_name := "Climber" |} murka_cat murka_store
  = (inl (IntegrityError (UniqueTogether ["achievement"; "cat"])), murka_store)
  /\ NoDup (pairs murka_store).
Proof.
  split.
  - apply (proj1 AchievementCat_pair_unique). vm_compute. left.
  - exact (proj1 (proj2 AchievementCat_pair_unique) murka_store murka_store_reachable).
Defined.

(** ** [CatSerializer.update] *)


Section Relates.

Context (R : store -> store -> Prop) `{!Reflexive R} `{!Transitive R}.

Lemma relates_ret {A} (x : A) : relates R (mret x).
Proof. intros s. reflexivity. Qed.

Lemma relates_bind {A B} (m : DB A) (f : A -> DB B) :
  relates R m -> (forall x, relates R (f x)) -> relates R (m ≫= f).
Proof.
  intros Hm Hf s. unfold mbind, DB_bind.
  specialize (Hm s). destruct (m s) as [[e|x] s']; [exact Hm|].
  etransitivity; [exact Hm|]. apply Hf.
Qed.

Lemma relates_for_each {A} (l : list A) (body : A -> DB unit) :
  (forall x, relates R (body x)) -> relates R (for_each l body).
Proof.
  intros Hbody. induction l as [|x l IH]; cbn [for_each].
  - apply relates_ret.
  - apply relates_bind; [apply Hbody|intros _; exact IH].
Qed.

End Relates.


#[local] Instance only_relation_writes_refl : Reflexive only_relation_writes.
Proof.
  intros s. split; [reflexivity|]. exists []. rewrite app_nil_r. split; reflexivity.
Qed.

#[local] Instance only_relation_writes_trans : Transitive only_relation_writes.
Proof.
  intros s1 s2 s3 [Hc1 (ws1 & Hj1 & Hw1)] [Hc2 (ws2 & Hj2 & Hw2)].
  split; [congruence|]. exists (ws1 ++ ws2).
  rewrite Hj2, Hj1, <- app_assoc, forallb_app, Hw1, Hw2. split; reflexivity.
Qed.

Lemma one_relation_write (s s' : store) (w : write) :
  cats s' = cats s -> journal s' = journal s ++ [w] -> is_relation_write w = true ->
  only_relation_writes s s'.
Proof.
  intros Hc Hj Hw. split; [exact Hc|]. exists [w]. split; [exact Hj|].
  cbn [forallb]. rewrite Hw. reflexivity.
Qed.

Lemma attach_relation (cat : Cat) (d : achievement_data) :
  relates only_relation_writes (CatSerializer.attach cat d).
Proof.
  unfold CatSerializer.attach. apply relates_bind; try apply _.
  - intros s. unfold Achievement_objects_get_or_create.
    destruct (filter (matches d) (achievements s)) as [|a [|a' l]]; try reflexivity.
    eapply one_relation_write; reflexivity.
  - intros [a created]. apply relates_bind; try apply _.
    + intros s. unfold AchievementCat_objects_create.
      repeat (case_decide; try reflexivity).
      eapply one_relation_write; reflexivity.
    + intros _. apply relates_ret; apply _.
Qed.

Lemma update_unfold (instance : Cat) (vd : validated_data) (s : store) :
  CatSerializer.update instance vd s
  = (Cat_save (updated instance vd) ≫= fun _ =>
     match vd_achievements vd with
     | Some ds =>
         Cat_achievements_clear (updated instance vd) ≫= fun _ =>
         for_each ds (CatSerializer.attach (updated instance vd))
     | None => mret tt
     end ≫= fun _ =>
     mret (updated instance vd)) s.
Proof. reflexivity. Qed.

(** What follows the save in [update] writes to the relation only. *)
Lemma update_relation_phase (new : Cat) (achievements_data : option (list achievement_data)) :
  relates only_relation_writes
    (match achievements_data with
     | Some ds =>
         Cat_achievements_clear new ≫= fun _ => for_each ds (CatSerializer.attach new)
     | None => mret tt
     end ≫= fun _ => mret new).
Proof.
  apply relates_bind; try apply _; [|intros _; apply relates_ret; apply _].
  destruct achievements_data as [ds|]; [|apply relates_ret; apply _].
  apply relates_bind; try apply _.
  - intros s. eapply one_relation_write; reflexivity.
  - intros _. apply relates_for_each; try apply _. apply attach_relation.
Qed.

(** [save] on an instance whose birth year passes the check. *)
Lemma Cat_save_ok (new : Cat) (s : store) :
  birth_year_reasonable (Cat_birth_year new) ->
  exists s0 w,
    Cat_save new s = (inr tt, s0) /\
    achievements s0 = achievements s /\
    achievement_cats s0 = achievement_cats s /\
    new ∈ cats s0 /\
    (forall c, c ∈ cats s0 -> Cat_id c = Cat_id new -> c = new) /\
    journal s0 = journal s ++ [w] /\
    (w = UpdateCat new \/ w = InsertCat new).
Proof.
  intros Hr. unfold Cat_save. rewrite decide_True by exact Hr.
  destruct (decide (Cat_id new ∈ Cat_id <$> cats s)) as [Hin|Hin].
  - eexists _, _. split; [reflexivity|]. store_simpl.
    split; [reflexivity|]. split; [reflexivity|]. split; [|split].
    + apply list_elem_of_fmap in Hin as (row & Erow & Hrow).
      apply list_elem_of_fmap. exists row. split; [|exact Hrow].
      rewrite decide_True by congruence. reflexivity.
    + intros c Hc Eid. apply list_elem_of_fmap in Hc as (row & -> & Hrow).
      destruct (decide (Cat_id row = Cat_id new)); [reflexivity|contradiction].
    + split; [reflexivity|]. left. reflexivity.
  - eexists _, _. split; [reflexivity|]. store_simpl.
    split; [reflexivity|]. split; [reflexivity|]. split; [|split].
    + apply elem_of_app. right. left.
    + intros c Hc Eid. apply elem_of_app in Hc as [Hc|Hc].
      * exfalso. apply Hin. rewrite <- Eid. apply list_elem_of_fmap_2. exact Hc.
      * apply list_elem_of_singleton in Hc. exact Hc.
    + split; [reflexivity|]. right. reflexivity.
Qed.

Lemma Cat_save_unreasonable (new : Cat) (s : store) :
  ~ birth_year_reasonable (Cat_birth_year new) ->
  Cat_save new s = (inl (IntegrityError (CheckConstraint "birth_year_reasonable")), s).
Proof. intros Hr. unfold Cat_save. rewrite decide_False by exact Hr. reflexivity. Qed.


(** [update] without the key, and [update] with descriptors of pairwise
    distinct names. *)
Lemma update_absent_or_distinct_names (s : store) (instance : Cat)
    (vd : validated_data) :
  (vd_achievements vd = None ->
   achievements (snd (CatSerializer.update instance vd s)) = achievements s /\
   achievement_cats (snd (CatSerializer.update instance vd s)) = achievement_cats s)
  /\ (forall names,
      vd_achievements vd = Some (descriptor <$> names) ->
      NoDup names -> consistent s ->
      birth_year_reasonable (Cat_birth_year (updated instance vd)) ->
      exists s' created joined rows,
        CatSerializer.update instance vd s = (inr (updated instance vd), s') /\
        achievements s' = achievements s ++ created /\
        Achievement_name <$> created
          = filter (fun n => n ∉ Achievement_name <$> achievements s) names /\
        achievement_cats s'
          = filter (fun r => AchievementCat_cat r ≠ Cat_id instance) (achievement_cats s)
            ++ rows /\
        pair_of <$> rows = (fun a => (Achievement_id a, Cat_id instance)) <$> joined /\
        Achievement_name <$> joined = names /\
        (forall a, a ∈ joined -> a ∈ achievements s') /\
        rows_of (Cat_id instance) s' = rows /\
        Cat_achievements_all (updated instance vd) s' = order_by_name joined).
Proof.
  split.
  - intros Hnone. rewrite update_unfold, Hnone. unfold mbind, DB_bind, mret, DB_ret.
    unfold Cat_save.
    repeat (case_decide; try (split; reflexivity)).
  - intros names Hds Hnodup Hs Hr.
    set (new := updated instance vd) in *.
    destruct (Cat_save_ok new s Hr) as (s0 & w & Hsave & Hachs0 & Hrows0 & Hin & _).
    assert (Hs0 : consistent s0).
    { pose proof (Cat_save_consistent new s Hs) as Hc. rewrite Hsave in Hc. exact Hc. }
    set (s1 := snd (Cat_achievements_clear new s0)).
    assert (Hs1 : consistent s1) by (apply Cat_achievements_clear_consistent; exact Hs0).
    destruct (attach_all new names s1 Hnodup Hs1) as (s' & created & joined & rows
      & Hrun & Hcats & Hachs & Hcreated & Hrows & Hpairs & Hjoined & Hmem & _).
    { subst s1. unfold Cat_achievements_clear. store_simpl.
      apply list_elem_of_fmap_2. exact Hin. }
    { intros n _. apply not_linked_to_fresh. intros r Hr'.
      subst s1. unfold Cat_achievements_clear in Hr'. store_simpl in Hr'.
      apply list_elem_of_filter in Hr' as [Hne _]. exact Hne. }
    assert (Hs' : consistent s').
    { pose proof (preserves_for_each consistent (descriptor <$> names)
                    (CatSerializer.attach new) (attach_consistent new) s1 Hs1) as Hc.
      rewrite Hrun in Hc. exact Hc. }
    assert (Hrows1 : achievement_cats s1
                     = filter (fun r => AchievementCat_cat r ≠ Cat_id instance)
                         (achievement_cats s)).
    { subst s1. unfold Cat_achievements_clear. store_simpl. rewrite Hrows0. reflexivity. }
    assert (Hachs1 : achievements s1 = achievements s).
    { subst s1. unfold Cat_achievements_clear. store_simpl. exact Hachs0. }
    assert (Hrows_of : rows_of (Cat_id instance) s' = rows).
    { unfold rows_of. rewrite Hrows, Hrows1, filter_app.
      rewrite filter_none.
      - apply filter_all. exact (linked_rows_of_cat _ _ _ Hpairs).
      - intros r Hr' E. apply list_elem_of_filter in Hr' as [Hne _]. exact (Hne E). }
    exists s', created, joined, rows.
    split.
    { rewrite update_unfold, Hds. fold new.
      unfold mbind at 1, DB_bind at 1. rewrite Hsave.
      unfold mbind at 1, DB_bind at 1. unfold mbind at 1, DB_bind at 1.
      change (Cat_achievements_clear new s0) with (@inr exn unit tt, s1).
      cbv beta iota. rewrite Hrun. reflexivity. }
    split; [rewrite Hachs, Hachs1; reflexivity|].
    split; [rewrite Hcreated, Hachs1; reflexivity|].
    split; [rewrite Hrows, Hrows1; reflexivity|].
    split; [exact Hpairs|].
    split; [exact Hjoined|].
    split; [exact Hmem|].
    split; [exact Hrows_of|].
    apply (Cat_achievements_all_joined new s' rows joined); try assumption.
    apply Hs'.
Qed.

(** Whenever [update] returns on data that has the [achievements] key. *)
Lemma update_returns (s : store) (instance : Cat) (vd : validated_data)
    (ds : list achievement_data) (cat : Cat) (s' : store) :
  consistent s -> vd_achievements vd = Some ds ->
  CatSerializer.update instance vd s = (inr cat, s') ->
  cat = updated instance vd /\
  exists created joined rows,
    attached (Cat_id instance) ds (achievements s)
      (filter (fun r => AchievementCat_cat r ≠ Cat_id instance) (achievement_cats s))
      s' created joined rows /\
    rows_of (Cat_id instance) s' = rows /\
    Cat_achievements_all cat s' = order_by_name joined.
Proof.
  intros Hs Hds Hrun.
  assert (Hs' : consistent s').
  { pose proof (update_consistent instance vd s Hs) as Hc. rewrite Hrun in Hc. exact Hc. }
  rewrite update_unfold, Hds in Hrun. unfold mbind at 1, DB_bind at 1 in Hrun.
  destruct (decide (birth_year_reasonable (Cat_birth_year (updated instance vd))))
    as [Hr|Hr]; [|rewrite (Cat_save_unreasonable _ s Hr) in Hrun; discriminate].
  destruct (Cat_save_ok (updated instance vd) s Hr)
    as (s0 & w & Hsave & Hachs0 & Hrows0 & _).
  rewrite Hsave in Hrun.
  unfold mbind at 1, DB_bind at 1 in Hrun. unfold mbind at 1, DB_bind at 1 in Hrun.
  unfold Cat_achievements_clear at 1 in Hrun. cbv beta iota in Hrun.
  match type of Hrun with
  | context [for_each ?ds ?body ?s1] =>
      destruct (for_each ds body s1) as [[e|[]] s2] eqn:Hloop; [discriminate|]
  end.
  injection Hrun as <- <-. split; [reflexivity|].
  apply for_each_attach_returns in Hloop as (_ & created & joined & rows & Hattached).
  store_simpl in Hattached. rewrite Hachs0, Hrows0 in Hattached.
  change (Cat_id (updated instance vd)) with (Cat_id instance) in Hattached.
  assert (Hrows_of : rows_of (Cat_id instance) s2 = rows).
  { unfold rows_of. rewrite (attached_rows _ _ _ _ _ _ _ _ Hattached), filter_app.
    rewrite filter_none.
    - apply filter_all.
      exact (linked_rows_of_cat _ _ _ (attached_pairs _ _ _ _ _ _ _ _ Hattached)).
    - intros r Hr' E. apply list_elem_of_filter in Hr' as [Hne _]. exact (Hne E). }
  exists created, joined, rows. split; [exact Hattached|]. split; [exact Hrows_of|].
  eapply Cat_achievements_all_joined; [apply Hs'|exact Hrows_of| |].
  - exact (attached_pairs _ _ _ _ _ _ _ _ Hattached).
  - exact (attached_members _ _ _ _ _ _ _ _ Hattached).
Qed.

(** C5: when the validated data has no [achievements] key, [update] leaves
    the achievement table and the through table as they are.  When the key
    is present and [update] returns, the through rows the cat had are
    deleted, the rows of the other cats stay, and the cat has exactly one
    row per descriptor, linking it to the achievement that matches it,
    found or created as in [create].  And [update] does return when the
    saved row passes the check and the descriptors have pairwise distinct
    names, none in particular: with the empty list the cat is left with no
    achievement. *)
Theorem CatSerializer_update_achievements (s : store) (instance : Cat)
    (vd : validated_data) :
  (vd_achievements vd = None ->
   achievements (snd (CatSerializer.update instance vd s)) = achievements s /\
   achievement_cats (snd (CatSerializer.update instance vd s)) = achievement_cats s)
  /\ (forall ds cat s',
      consistent s -> vd_achievements vd = Some ds ->
      CatSerializer.update instance vd s = (inr cat, s') ->
      exists created joined rows,
        attached (Cat_id instance) ds (achievements s)
          (filter (fun r => AchievementCat_cat r ≠ Cat_id instance) (achievement_cats s))
          s' created joined rows /\
        rows_of (Cat_id instance) s' = rows /\
        Cat_achievements_all cat s' = order_by_name joined)
  /\ (forall names,
      consistent s -> vd_achievements vd = Some (descriptor <$> names) ->
      NoDup names ->
      1900 < Cat_birth_year (updated instance vd) < 2100 ->
      exists s' created joined,
        CatSerializer.update instance vd s = (inr (updated instance vd), s') /\
        achievements s' = achievements s ++ created /\
        Achievement_name <$> created
          = filter (fun n => n ∉ Achievement_name <$> achievements s) names /\
        Achievement_name <$> joined = names /\
        Cat_achievements_all (updated instance vd) s' = order_by_name joined)
  /\ (consistent s -> vd_achievements vd = Some [] ->
      1900 < Cat_birth_year (updated instance vd) < 2100 ->
      exists s',
        CatSerializer.update instance vd s = (inr (updated instance vd), s') /\
        rows_of (Cat_id instance) s' = [] /\
        Cat_achievements_all (updated instance vd) s' = []).
Proof.
  destruct (update_absent_or_distinct_names s instance vd) as [Habsent Hdistinct].
  split; [exact Habsent|].
  split.
  { intros ds cat s' Hs Hds Hrun.
    destruct (update_returns s instance vd ds cat s' Hs Hds Hrun) as [_ Hattached].
    exact Hattached. }
  split.
  { intros names Hs Hds Hnodup Hr.
    destruct (Hdistinct names Hds Hnodup Hs Hr)
      as (s' & created & joined & rows & Hrun & Hachs & Hcreated & _ & _ & Hjoined
          & _ & _ & Hall).
    exists s', created, joined.
    split; [exact Hrun|]. split; [exact Hachs|]. split; [exact Hcreated|].
    split; [exact Hjoined|exact Hall]. }
  intros Hs Hds Hr.
  destruct (Hdistinct [] Hds (NoDup_nil_2) Hs Hr)
    as (s' & created & joined & rows & Hrun & _ & _ & _ & Hpairs & Hjoined
        & _ & Hrows_of & Hall).
  apply fmap_nil_inv in Hjoined. subst joined.
  apply fmap_nil_inv in Hpairs. subst rows.
  exists s'. split; [exact Hrun|]. split; [exact Hrows_of|exact Hall].
Qed.


Lemma CatSerializer_update_achievements_witness :
  exists s' created joined,
    CatSerializer.update murka_cat retrain murka_store
    = (inr (updated murka_cat retrain), s') /\
    achievements s' = achievements murka_store ++ created /\
    Achievement_name <$> created
      = filter (fun n => n ∉ Achievement_name <$> achievements murka_store)
          ["Hunter"; "Climber"] /\
    Achievement_name <$> joined = ["Hunter"; "Climber"] /\
    Cat_achievements_all (updated murka_cat retrain) s' = order_by_name joined.
Proof.
  apply (proj1 (proj2 (proj2
           (CatSerializer_update_achievements murka_store murka_cat retrain)))
           ["Hunter"; "Climber"]).
  - exact (reachable_consistent _ murka_store_reachable).
  - reflexivity.
  - apply NoDup_cons. split; [|apply NoDup_singleton].
    intros Hin. apply list_elem_of_singleton in Hin. discriminate.
  - cbn. lia.
Defined.

(** ** Read-only fields and the computed age *)

Section ReadOnly.

Context `{Platform}.

(** The loop over the fields reads the request only at their names. *)
Lemma to_internal_value_loop_ext {V} (partial : bool) (fs : list (field V))
    (d1 d2 : gmap string json) :
  (forall f, f ∈ fs -> d1 !! field_name f = d2 !! field_name f) ->
  forall ret errors log,
    Serializer.to_internal_value_loop partial fs d1 ret errors log
    = Serializer.to_internal_value_loop partial fs d2 ret errors log.
Proof.
  induction fs as [|f fs IH]; intros Hsame ret errors log; [reflexivity|].
  cbn [Serializer.to_internal_value_loop].
  rewrite (Hsame f) by left.
  destruct (Field.run_validation partial f (d2 !! field_name f) log)
    as [[[]|[set|]] log']; try reflexivity;
    apply IH; intros g Hg; apply Hsame; right; exact Hg.
Qed.

Lemma writable_field_names :
  field_name <$> Serializer.writable_fields CatSerializer.fields
  = ["name"; "color"; "birth_year"; "achievements"; "image"].
Proof. reflexivity. Qed.

(** A key that is not the name of a writable field has no part in the
    validation. *)
Lemma run_validation_ignores (key : string) (v : json) (partial : bool)
    (data : gmap string json) (log : list log_record) :
  key ∉ ["name"; "color"; "birth_year"; "achievements"; "image"] ->
  CatSerializer.run_validation partial (JObj (<[key := v]> data)) log
  = CatSerializer.run_validation partial (JObj data) log.
Proof.
  intros Hkey. unfold CatSerializer.run_validation, Serializer.to_internal_value.
  rewrite (to_internal_value_loop_ext partial _ (<[key := v]> data) data); [reflexivity|].
  intros f Hf. apply lookup_insert_ne. intros ->. apply Hkey.
  rewrite <- writable_field_names. apply list_elem_of_fmap_2. exact Hf.
Qed.

Lemma is_valid_and_save_ignores (key : string) (v : json) (instance : option Cat)
    (owner : option Z) (partial : bool) (data : gmap string json)
    (log : list log_record) (s : store) :
  key ∉ ["name"; "color"; "birth_year"; "achievements"; "image"] ->
  CatSerializer.is_valid_and_save instance owner partial (JObj (<[key := v]> data)) log s
  = CatSerializer.is_valid_and_save instance owner partial (JObj data) log s.
Proof.
  intros Hkey. unfold CatSerializer.is_valid_and_save.
  rewrite (run_validation_ignores key v partial data log Hkey). reflexivity.
Qed.

(** C9: the [age] of the representation is the year of the clock minus the
    cat's birth year; and a value sent for [age], [owner] or [id] changes
    neither the validated data nor what the write request returns, logs
    and stores, on create and on update. *)
Theorem CatSerializer_read_only_fields :
  (forall now s cat,
      CatSerializer.to_representation now s cat !! "age"
      = Some (JNum (year now - Cat_birth_year cat)))
  /\ (forall v instance owner partial data log s,
      CatSerializer.is_valid_and_save instance owner partial (JObj (<["age" := v]> data))
        log s
      = CatSerializer.is_valid_and_save instance owner partial (JObj data) log s)
  /\ (forall v instance owner partial data log s,
      CatSerializer.is_valid_and_save instance owner partial (JObj (<["owner" := v]> data))
        log s
      = CatSerializer.is_valid_and_save instance owner partial (JObj data) log s)
  /\ (forall v instance owner partial data log s,
      CatSerializer.is_valid_and_save instance owner partial (JObj (<["id" := v]> data))
        log s
      = CatSerializer.is_valid_and_save instance owner partial (JObj data) log s).
Proof.
  split; [exact to_representation_age|].
  split; [|split]; intros v instance owner partial data log s;
    apply is_valid_and_save_ignores; intros Hin;
    repeat (apply elem_of_cons in Hin as [Hin|Hin]; [discriminate|]);
    inversion Hin.
Qed.

End ReadOnly.

(** ** Invariants of the reachable stores *)

Lemma keeps_cats_preserves {A} (P : list Cat -> Prop) (m : DB A) :
  relates only_relation_writes m -> preserves (fun s => P (cats s)) m.
Proof. intros Hm s Hs. destruct (Hm s) as [-> _]. exact Hs. Qed.

Lemma Cat_objects_create_birth_years kwargs :
  preserves birth_years_reasonable (Cat_objects_create kwargs).
Proof.
  intros s Hs. unfold Cat_objects_create.
  destruct (vd_achievements kwargs); [exact Hs|].
  destruct (vd_birth_year kwargs) as [y|], (vd_owner kwargs) as [o|]; try exact Hs.
  destruct (decide (birth_year_reasonable y)) as [Hy|]; [|exact Hs].
  unfold birth_years_reasonable. store_simpl.
  apply Forall_app. split; [exact Hs|]. constructor; [exact Hy|constructor].
Qed.

Lemma Cat_save_birth_years instance :
  preserves birth_years_reasonable (Cat_save instance).
Proof.
  intros s Hs. unfold Cat_save.
  destruct (decide (birth_year_reasonable (Cat_birth_year instance))) as [Hy|];
    [|exact Hs].
  destruct (decide (Cat_id instance ∈ Cat_id <$> cats s)).
  - unfold birth_years_reasonable. store_simpl.
    apply Forall_fmap. eapply Forall_impl; [exact Hs|].
    intros c Hc. cbn. destruct (decide (Cat_id c = Cat_id instance)); assumption.
  - unfold birth_years_reasonable. store_simpl.
    apply Forall_app. split; [exact Hs|]. constructor; [exact Hy|constructor].
Qed.

Lemma create_birth_years vd : preserves birth_years_reasonable (CatSerializer.create vd).
Proof.
  unfold CatSerializer.create.
  apply preserves_bind; [apply Cat_objects_create_birth_years|]. intros cat.
  apply preserves_bind; [|intros _; apply preserves_ret].
  apply (keeps_cats_preserves (Forall (fun c => birth_year_reasonable (Cat_birth_year c)))).
  apply relates_for_each; try apply _. apply attach_relation.
Qed.

Lemma update_birth_years instance vd :
  preserves birth_years_reasonable (CatSerializer.update instance vd).
Proof.
  intros s Hs. rewrite update_unfold.
  apply (preserves_bind birth_years_reasonable); [apply Cat_save_birth_years| |exact Hs].
  intros _.
  apply (keeps_cats_preserves (Forall (fun c => birth_year_reasonable (Cat_birth_year c)))).
  apply update_relation_phase.
Qed.

Lemma step_birth_years s s' :
  step s s' -> birth_years_reasonable s -> birth_years_reasonable s'.
Proof.
  intros Hstep Hs. destruct Hstep.
  - apply create_birth_years. exact Hs.
  - apply update_birth_years. exact Hs.
  - unfold birth_years_reasonable, Cat_delete. store_simpl.
    apply Forall_forall. intros c Hc. apply list_elem_of_filter in Hc as [_ Hc].
    revert c Hc. apply Forall_forall. exact Hs.
  - exact Hs.
  - unfold AchievementCat_objects_create. repeat case_decide; exact Hs.
Qed.

(** X3: the invariant of the data model on [birth_year]: every cat of a
    reachable store was born after 1900 and before 2100. *)
Theorem reachable_birth_years (s : store) (c : Cat) :
  reachable s -> c ∈ cats s -> 1900 < Cat_birth_year c < 2100.
Proof.
  intros Hs. revert c. apply Forall_forall.
  induction Hs as [|s s' _ IH Hstep]; [constructor|].
  exact (step_birth_years _ _ Hstep IH).
Qed.

Lemma reachable_birth_years_witness : 1900 < Cat_birth_year murka_cat < 2100.
Proof.
  apply (reachable_birth_years murka_store murka_cat murka_store_reachable).
  vm_compute. left.
Defined.

(** X4: every reachable store satisfies its schema (primary keys, foreign keys
    of the through rows, [unique_together]), and no two of its
    achievements share a name: [get_or_create] never makes a second row
    for a name. *)
Theorem reachable_store_consistent (s : store) :
  reachable s -> schema_ok s /\ NoDup (Achievement_name <$> achievements s).
Proof. exact (reachable_consistent s). Qed.

Lemma reachable_store_consistent_witness :
  schema_ok murka_store /\ NoDup (Achievement_name <$> achievements murka_store).
Proof. exact (reachable_store_consistent murka_store murka_store_reachable). Defined.

(** * Further properties *)

(** ** More on strings *)

Section MoreStrings.

Lemma append_cons (c : ascii) (s r : string) : String c s +:+ r = String c (s +:+ r).
Proof. reflexivity. Qed.

Lemma append_empty_r (s : string) : s +:+ EmptyString = s.
Proof. induction s as [|c s IH]; [reflexivity|]. rewrite append_cons, IH. reflexivity. Qed.

Lemma string_append_assoc (a b c : string) : (a +:+ b) +:+ c = a +:+ b +:+ c.
Proof. induction a as [|x a IH]; [reflexivity|]. rewrite !append_cons, IH. reflexivity. Qed.

Lemma length_append (a b : string) :
  String.length (a +:+ b) = (String.length a + String.length b)%nat.
Proof.
  induction a as [|c a IH]; [reflexivity|]. rewrite append_cons. cbn. rewrite IH.
  reflexivity.
Qed.

Lemma prefix_inv (p : string) : forall s,
  String.prefix p s = true -> exists r, s = p +:+ r.
Proof.
  induction p as [|c p IH]; intros s Hp.
  - exists s. reflexivity.
  - destruct s as [|c' s]; [discriminate|]. cbn [String.prefix] in Hp.
    destruct (ascii_dec c c') as [->|]; [|discriminate].
    destruct (IH s Hp) as (r & ->). exists r. reflexivity.
Qed.

Lemma str_join_cons (sep : string) (c : ascii) (h : string) (t : list string) :
  str_join sep (String c h :: t) = String c (str_join sep (h :: t)).
Proof. destruct t; reflexivity. Qed.

Lemma str_join_two (sep x y : string) (l : list string) :
  str_join sep (x :: y :: l) = x +:+ sep +:+ str_join sep (y :: l).
Proof. reflexivity. Qed.
(** Joining the segments of a split with the separator gives the string
    back. *)
Lemma split_go_join (c0 : ascii) (sep0 : string) (n : nat) : forall s,
  (String.length s <= n)%nat ->
  str_join (String c0 sep0) (let '(h, t) := Py.split_go (String c0 sep0) 0 s in h :: t) = s.
Proof.
  induction n as [|n IH]; intros s Hlen.
  - destruct s; [reflexivity|cbn in Hlen; lia].
  - destruct s as [|c s]; [reflexivity|]. cbn [String.length] in Hlen.
    cbn [Py.split_go].
    destruct (String.prefix (String c0 sep0) (String c s)) eqn:Hp.
    + apply prefix_inv in Hp as (r & Hr). rewrite append_cons in Hr.
      injection Hr as -> ->. cbn [String.length Nat.pred].
      rewrite split_go_skip.
      assert (Hr : (String.length r <= n)%nat).
      { rewrite length_append in Hlen. lia. }
      specialize (IH r Hr).
      destruct (Py.split_go (String c0 sep0) 0 r) as [h t].
      rewrite str_join_two, IH. reflexivity.
    + specialize (IH s ltac:(lia)).
      destruct (Py.split_go (String c0 sep0) 0 s) as [h t].
      rewrite str_join_cons, IH. reflexivity.
Qed.

Lemma split_join (s : string) (c0 : ascii) (sep0 : string) :
  str_join (String c0 sep0) (Py.split s (String c0 sep0)) = s.
Proof. unfold Py.split. exact (split_go_join c0 sep0 (String.length s) s (le_n _)). Qed.

(** A segment of a split at one character does not hold the character. *)
Lemma split_go_char (c0 : ascii) (s : string) :
  Forall (fun x => Py.contains (String c0 "") x = false)
    (let '(h, t) := Py.split_go (String c0 "") 0 s in h :: t).
Proof.
  induction s as [|c s IH]; [repeat constructor|].
  cbn [Py.split_go String.length Nat.pred].
  destruct (Py.split_go (String c0 "") 0 s) as [h t].
  destruct (String.prefix (String c0 "") (String c s)) eqn:Hp.
  - constructor; [reflexivity|exact IH].
  - inversion IH as [|x l Hh Ht]; subst. constructor; [|exact Ht].
    cbn [Py.contains]. rewrite Hh, orb_false_r.
    cbn [String.prefix] in Hp |- *.
    destruct (ascii_dec c0 c); [|reflexivity].
    rewrite prefix_empty in Hp. discriminate.
Qed.

Lemma last_item_elem (h : string) (t : list string) : Py.last_item (h :: t) ∈ h :: t.
Proof.
  unfold Py.last_item. revert h. induction t as [|x t IH]; intros h; [left|].
  right. exact (IH x).
Qed.

(** The last segment ends the string, after nothing or after a separator. *)
Lemma join_last (sep h : string) (t : list string) :
  exists pre,
    str_join sep (h :: t) = pre +:+ Py.last_item (h :: t) /\
    (pre = EmptyString \/ exists p, pre = p +:+ sep).
Proof.
  revert h. induction t as [|x t IH]; intros h.
  - exists EmptyString. split; [reflexivity|left; reflexivity].
  - destruct (IH x) as (pre & E & Hpre).
    exists (h +:+ sep +:+ pre).
    change (Py.last_item (h :: x :: t)) with (Py.last_item (x :: t)).
    rewrite str_join_two, E.
    split.
    + rewrite !string_append_assoc. reflexivity.
    + right. destruct Hpre as [->|(p & ->)].
      * exists h. rewrite append_empty_r. reflexivity.
      * exists (h +:+ sep +:+ p). rewrite !string_append_assoc. reflexivity.
Qed.

End MoreStrings.

(** ** The colour field on every string *)

Section ColourCodes.

Context `{Platform}.

Lemma take_hex_Some (n : nat) : forall s d r,
  webcolors.take_hex n s = Some (d, r) <->
  s = d +:+ r /\ String.length d = n /\ hex_digits d.
Proof.
  unfold hex_digits.
  induction n as [|n IH]; intros s d r; cbn [webcolors.take_hex].
  - split.
    + intros E. injection E as <- <-. split; [reflexivity|]. split; reflexivity.
    + intros (-> & Hlen & _). destruct d; [reflexivity|discriminate].
  - destruct s as [|c s].
    + split; [discriminate|]. intros (E & Hlen & _).
      destruct d; [discriminate|]. rewrite append_cons in E. discriminate.
    + destruct (webcolors.is_hex_digit c) eqn:Hc.
      * destruct (webcolors.take_hex n s) as [[d' r']|] eqn:E.
        -- apply IH in E as (-> & Hlen & Hhex). split.
           ++ intros E. injection E as <- <-. rewrite append_cons.
              split; [reflexivity|]. cbn [String.length list_ascii_of_string forallb].
              rewrite Hc, Hlen, Hhex. split; reflexivity.
           ++ intros (E & Hlen' & Hhex'). destruct d as [|c' d]; [discriminate|].
              rewrite append_cons in E. injection E as <- E.
              cbn [String.length] in Hlen'. injection Hlen' as Hlen'.
              cbn [list_ascii_of_string forallb] in Hhex'.
              apply andb_prop in Hhex' as [_ Hhex'].
              assert (E' : webcolors.take_hex n (d' +:+ r') = Some (d, r))
                by (apply IH; split; [exact E|split; assumption]).
              assert (E'' : webcolors.take_hex n (d' +:+ r') = Some (d', r'))
                by (apply IH; split; [reflexivity|split; assumption]).
              congruence.
        -- split; [discriminate|]. intros (E' & Hlen' & Hhex').
           destruct d as [|c' d]; [discriminate|].
           rewrite append_cons in E'. injection E' as <- E'.
           cbn [String.length] in Hlen'. injection Hlen' as Hlen'.
           cbn [list_ascii_of_string forallb] in Hhex'.
           apply andb_prop in Hhex' as [_ Hhex'].
           assert (E'' : webcolors.take_hex n s = Some (d, r))
             by (apply IH; split; [exact E'|split; assumption]).
           congruence.
      * split; [discriminate|]. intros (E' & Hlen' & Hhex').
        destruct d as [|c' d]; [discriminate|].
        rewrite append_cons in E'. injection E' as <- E'.
        cbn [list_ascii_of_string forallb] in Hhex'.
        apply andb_prop in Hhex' as [Hc' _]. congruence.
Qed.

Lemma at_dollar_iff (r : string) :
  webcolors.at_dollar r = true <-> r = EmptyString \/ r = newline.
Proof.
  unfold webcolors.at_dollar, newline. rewrite orb_true_iff, !String.eqb_eq. reflexivity.
Qed.

Lemma group_of_Some (n : nat) (r d : string) :
  webcolors.group_of n r = Some d <->
  (r = d \/ r = d +:+ newline) /\ String.length d = n /\ hex_digits d.
Proof.
  unfold webcolors.group_of.
  destruct (webcolors.take_hex n r) as [[d' r']|] eqn:E.
  - apply take_hex_Some in E as (-> & Hlen & Hhex).
    destruct (webcolors.at_dollar r') eqn:Hd.
    + apply at_dollar_iff in Hd. split.
      * intros E. injection E as <-. split; [|split; assumption].
        destruct Hd as [->| ->]; [left; apply append_empty_r|right; reflexivity].
      * intros (Hr & Hlen' & Hhex'). f_equal.
        assert (E1 : webcolors.take_hex n (d' +:+ r') = Some (d', r'))
          by (apply take_hex_Some; split; [reflexivity|split; assumption]).
        destruct Hr as [Hr|Hr].
        -- assert (E2 : webcolors.take_hex n (d' +:+ r') = Some (d, EmptyString)).
           { apply take_hex_Some. rewrite append_empty_r. split; [exact Hr|split; assumption]. }
           congruence.
        -- assert (E2 : webcolors.take_hex n (d' +:+ r') = Some (d, newline)).
           { apply take_hex_Some. split; [exact Hr|split; assumption]. }
           congruence.
    + split; [discriminate|]. intros (Hr & Hlen' & Hhex'). exfalso.
      assert (E1 : webcolors.take_hex n (d' +:+ r') = Some (d', r'))
        by (apply take_hex_Some; split; [reflexivity|split; assumption]).
      assert (Hd' : webcolors.at_dollar r' = true); [|congruence].
      apply at_dollar_iff.
      destruct Hr as [Hr|Hr].
      * assert (E2 : webcolors.take_hex n (d' +:+ r') = Some (d, EmptyString)).
        { apply take_hex_Some. rewrite append_empty_r. split; [exact Hr|split; assumption]. }
        left. congruence.
      * assert (E2 : webcolors.take_hex n (d' +:+ r') = Some (d, newline)).
        { apply take_hex_Some. split; [exact Hr|split; assumption]. }
        right. congruence.
  - split; [discriminate|]. intros (Hr & Hlen' & Hhex'). exfalso.
    destruct Hr as [Hr|Hr].
    + assert (E2 : webcolors.take_hex n r = Some (d, EmptyString)).
      { apply take_hex_Some. rewrite append_empty_r. split; [exact Hr|split; assumption]. }
      congruence.
    + assert (E2 : webcolors.take_hex n r = Some (d, newline)).
      { apply take_hex_Some. split; [exact Hr|split; assumption]. }
      congruence.
Qed.


(** What [HEX_COLOR_RE] matches: a [#], three or six hex digits, and
    nothing more but for one newline. *)
Lemma HEX_COLOR_RE_match_Some (s d : string) :
  webcolors.HEX_COLOR_RE_match s = Some d <->
  (s = "#" +:+ d \/ s = "#" +:+ d +:+ newline) /\ hex_digits d /\
  (String.length d = 3%nat \/ String.length d = 6%nat).
Proof.
  assert (Hshape : forall r n, (r = d \/ r = d +:+ newline) -> String.length d = n ->
            String.length r = n \/ String.length r = S n).
  { intros r n [->| ->] <-; [left; reflexivity|right].
    rewrite length_append. cbn. lia. }
  split.
  - unfold webcolors.HEX_COLOR_RE_match.
    destruct s as [|c r]; [discriminate|].
    destruct (Ascii.eqb_spec c "#"%char) as [->|Hc];
      [|destruct c as [[] [] [] [] [] [] [] []]; try discriminate; congruence].
    destruct (webcolors.group_of 3 r) as [d3|] eqn:E3.
    + intros E. injection E as ->. apply group_of_Some in E3 as (Hr & Hlen & Hhex).
      split; [|split; [exact Hhex|left; exact Hlen]].
      destruct Hr as [->| ->]; [left|right]; reflexivity.
    + intros E6. apply group_of_Some in E6 as (Hr & Hlen & Hhex).
      split; [|split; [exact Hhex|right; exact Hlen]].
      destruct Hr as [->| ->]; [left|right]; reflexivity.
  - intros (Hs & Hhex & Hlen).
    assert (exists r, s = String "#"%char r /\ (r = d \/ r = d +:+ newline)) as (r & -> & Hr).
    { destruct Hs as [->| ->]; eexists; (split; [reflexivity|]); [left|right]; reflexivity. }
    unfold webcolors.HEX_COLOR_RE_match.
    destruct Hlen as [Hlen|Hlen].
    + rewrite (proj2 (group_of_Some 3 r d)) by (split; [exact Hr|split; assumption]).
      reflexivity.
    + destruct (webcolors.group_of 3 r) as [d3|] eqn:E3.
      * exfalso. apply group_of_Some in E3 as (Hr3 & Hlen3 & _).
        assert (Hlr : String.length r = 6%nat \/ String.length r = 7%nat).
        { destruct Hr as [->| ->]; [left; exact Hlen|right].
          rewrite length_append, Hlen. reflexivity. }
        assert (Hlr3 : String.length r = 3%nat \/ String.length r = 4%nat).
        { destruct Hr3 as [->| ->]; [left; exact Hlen3|right].
          rewrite length_append, Hlen3. reflexivity. }
        lia.
      * apply group_of_Some. split; [exact Hr|split; assumption].
Qed.

(** A colour that was accepted is a name of the CSS3 table. *)
Lemma Hex2NameColor_returns_table_name (v : json) (c : string) :
  Hex2NameColor.to_internal_value v = inr c ->
  exists code, CSS3_HEX_TO_NAMES !! code = Some c.
Proof.
  unfold Hex2NameColor.to_internal_value, webcolors.hex_to_name.
  destruct v as [| | |s| | |]; try discriminate.
  destruct (webcolors.normalize_hex s) as [[]|code]; try discriminate.
  destruct (CSS3_HEX_TO_NAMES !! code) as [name|] eqn:E; [|discriminate].
  intros E'. injection E' as <-. eauto.
Qed.

(** On a string the colour field returns or raises a validation error. *)
Lemma Hex2NameColor_string_outcome (s : string) :
  (exists name, Hex2NameColor.to_internal_value (JStr s) = inr name) \/
  Hex2NameColor.to_internal_value (JStr s)
  = inl (ValidationError (Msg Hex2NameColor.invalid_color)).
Proof.
  unfold Hex2NameColor.to_internal_value, webcolors.hex_to_name.
  destruct (webcolors.normalize_hex s) as [e|normalized] eqn:E.
  - right. unfold webcolors.normalize_hex in E.
    destruct (webcolors.HEX_COLOR_RE_match s); [discriminate|].
    injection E as <-. reflexivity.
  - destruct (CSS3_HEX_TO_NAMES !! normalized) as [name|]; [left; eauto|right; reflexivity].
Qed.

(** X5: the colour field accepts a string exactly when it is a [#] followed
    by three or six hexadecimal digits (and at most one line feed) whose
    lower-cased six-digit form has a name in the CSS3 table, and it then
    returns that name; on every other string it raises the validation
    error of the field. *)
Theorem Hex2NameColor_accepts_iff :
  (forall s name,
      Hex2NameColor.to_internal_value (JStr s) = inr name <->
      exists d,
        (s = "#" +:+ d \/ s = "#" +:+ d +:+ newline) /\ hex_digits d /\
        ((String.length d = 3%nat /\
          CSS3_HEX_TO_NAMES !! ("#" +:+ Py.lower (Py.double_chars d)) = Some name) \/
         (String.length d = 6%nat /\
          CSS3_HEX_TO_NAMES !! ("#" +:+ Py.lower d) = Some name)))
  /\ (forall s,
      (exists name, Hex2NameColor.to_internal_value (JStr s) = inr name) \/
      Hex2NameColor.to_internal_value (JStr s)
      = inl (ValidationError (Msg Hex2NameColor.invalid_color))).
Proof.
  split; [|exact Hex2NameColor_string_outcome].
  intros s name.
  unfold Hex2NameColor.to_internal_value, webcolors.hex_to_name, webcolors.normalize_hex.
  destruct (webcolors.HEX_COLOR_RE_match s) as [d|] eqn:E.
  - apply HEX_COLOR_RE_match_Some in E as (Hs & Hhex & Hlen). split.
    + intros Hname. exists d. split; [exact Hs|]. split; [exact Hhex|].
      destruct Hlen as [Hlen|Hlen]; rewrite Hlen in Hname; cbn [Nat.eqb] in Hname;
        [left|right]; (split; [exact Hlen|]);
        match type of Hname with
        | context [CSS3_HEX_TO_NAMES !! ?k] =>
            destruct (CSS3_HEX_TO_NAMES !! k); [congruence|discriminate]
        end.
    + intros (d' & Hs' & Hhex' & Hname).
      assert (d' = d) as ->.
      { assert (E1 : webcolors.HEX_COLOR_RE_match s = Some d).
        { apply HEX_COLOR_RE_match_Some. split; [exact Hs|split; assumption]. }
        assert (E2 : webcolors.HEX_COLOR_RE_match s = Some d').
        { apply HEX_COLOR_RE_match_Some. split; [exact Hs'|]. split; [exact Hhex'|].
          destruct Hname as [[Hl _]|[Hl _]]; [left|right]; exact Hl. }
        congruence. }
      destruct Hname as [[Hl Hname]|[Hl Hname]]; rewrite Hl; cbn [Nat.eqb];
        rewrite Hname; reflexivity.
  - split; [discriminate|].
    intros (d & Hs & Hhex & Hname). exfalso.
    assert (E2 : webcolors.HEX_COLOR_RE_match s = Some d); [|congruence].
    apply HEX_COLOR_RE_match_Some. split; [exact Hs|]. split; [exact Hhex|].
    destruct Hname as [[Hl _]|[Hl _]]; [left|right]; exact Hl.
Qed.

(** Lower-casing commutes with the steps of the match. *)
Lemma is_hex_digit_lower (c : ascii) :
  webcolors.is_hex_digit (Py.lower_ascii c) = webcolors.is_hex_digit c.
Proof. destruct c as [[] [] [] [] [] [] [] []]; reflexivity. Qed.

Lemma lower_ascii_newline (c : ascii) :
  Ascii.eqb (Py.lower_ascii c) "010"%char = Ascii.eqb c "010"%char.
Proof. destruct c as [[] [] [] [] [] [] [] []]; reflexivity. Qed.

Lemma lower_ascii_hash (c : ascii) :
  Ascii.eqb (Py.lower_ascii c) "#"%char = Ascii.eqb c "#"%char.
Proof. destruct c as [[] [] [] [] [] [] [] []]; reflexivity. Qed.

Lemma lower_ascii_idemp (c : ascii) : Py.lower_ascii (Py.lower_ascii c) = Py.lower_ascii c.
Proof. destruct c as [[] [] [] [] [] [] [] []]; reflexivity. Qed.

Lemma lower_idemp (s : string) : Py.lower (Py.lower s) = Py.lower s.
Proof.
  induction s as [|c s IH]; [reflexivity|]. cbn [Py.lower].
  rewrite lower_ascii_idemp, IH. reflexivity.
Qed.

Lemma lower_length (s : string) : String.length (Py.lower s) = String.length s.
Proof. induction s as [|c s IH]; [reflexivity|]. cbn. rewrite IH. reflexivity. Qed.

Lemma lower_double_chars (s : string) :
  Py.double_chars (Py.lower s) = Py.lower (Py.double_chars s).
Proof.
  induction s as [|c s IH]; [reflexivity|]. cbn [Py.lower Py.double_chars].
  rewrite IH. reflexivity.
Qed.

Lemma take_hex_lower (n : nat) : forall s,
  webcolors.take_hex n (Py.lower s)
  = (fun p => (Py.lower (fst p), Py.lower (snd p))) <$> webcolors.take_hex n s.
Proof.
  induction n as [|n IH]; intros s; [reflexivity|].
  destruct s as [|c s]; [reflexivity|]. cbn [Py.lower webcolors.take_hex].
  rewrite is_hex_digit_lower, IH.
  destruct (webcolors.is_hex_digit c); [|reflexivity].
  destruct (webcolors.take_hex n s) as [[d r]|]; reflexivity.
Qed.

Lemma at_dollar_lower (r : string) :
  webcolors.at_dollar (Py.lower r) = webcolors.at_dollar r.
Proof.
  unfold webcolors.at_dollar. destruct r as [|c r]; [reflexivity|].
  cbn [Py.lower String.eqb orb]. rewrite lower_ascii_newline.
  destruct r; reflexivity.
Qed.

Lemma group_of_lower (n : nat) (r : string) :
  webcolors.group_of n (Py.lower r) = Py.lower <$> webcolors.group_of n r.
Proof.
  unfold webcolors.group_of. rewrite take_hex_lower.
  destruct (webcolors.take_hex n r) as [[d r']|]; [|reflexivity].
  cbn [fmap option_fmap option_map fst snd]. rewrite at_dollar_lower.
  destruct (webcolors.at_dollar r'); reflexivity.
Qed.

Lemma HEX_COLOR_RE_match_lower (s : string) :
  webcolors.HEX_COLOR_RE_match (Py.lower s) = Py.lower <$> webcolors.HEX_COLOR_RE_match s.
Proof.
  destruct s as [|c r]; [reflexivity|]. cbn [Py.lower].
  unfold webcolors.HEX_COLOR_RE_match.
  destruct (Ascii.eqb_spec c "#"%char) as [->|Hc].
  - change (Py.lower_ascii "#") with "#"%char. rewrite !group_of_lower.
    destruct (webcolors.group_of 3 r); [reflexivity|].
    destruct (webcolors.group_of 6 r); reflexivity.
  - assert (Hl : Py.lower_ascii c <> "#"%char).
    { intros E. apply Hc. apply Ascii.eqb_eq. rewrite <- lower_ascii_hash.
      apply Ascii.eqb_eq. exact E. }
    destruct (Py.lower_ascii c) as [[] [] [] [] [] [] [] []];
      destruct c as [[] [] [] [] [] [] [] []]; try reflexivity; congruence.
Qed.

(** X6: the colour field does not look at the case of the letters: a string
    and its lower-cased form give the same result. *)
Theorem Hex2NameColor_case_insensitive (s : string) :
  Hex2NameColor.to_internal_value (JStr (Py.lower s))
  = Hex2NameColor.to_internal_value (JStr s).
Proof.
  unfold Hex2NameColor.to_internal_value, webcolors.hex_to_name, webcolors.normalize_hex.
  rewrite HEX_COLOR_RE_match_lower.
  destruct (webcolors.HEX_COLOR_RE_match s) as [d|]; [|reflexivity].
  cbn [fmap option_fmap option_map]. rewrite lower_length.
  destruct (Nat.eqb (String.length d) 3).
  - rewrite lower_double_chars, lower_idemp.
    destruct (CSS3_HEX_TO_NAMES !! _); reflexivity.
  - rewrite lower_idemp. destruct (CSS3_HEX_TO_NAMES !! _); reflexivity.
Qed.

(** X7: the three-digit shorthand: a code [#rgb] gives what the code
    [#rrggbb] with each digit doubled gives. *)
Theorem Hex2NameColor_shorthand (d : string) :
  String.length d = 3%nat -> hex_digits d ->
  Hex2NameColor.to_internal_value (JStr ("#" +:+ d))
  = Hex2NameColor.to_internal_value (JStr ("#" +:+ Py.double_chars d)).
Proof.
  intros Hlen Hhex. unfold hex_digits in Hhex.
  destruct d as [|r [|g [|b [|x d]]]]; try discriminate.
  cbn [list_ascii_of_string forallb] in Hhex.
  repeat (apply andb_prop in Hhex as [? Hhex]).
  cbn [Py.double_chars]. cbv beta iota delta [String.append].
  unfold Hex2NameColor.to_internal_value, webcolors.hex_to_name, webcolors.normalize_hex,
    webcolors.HEX_COLOR_RE_match, webcolors.group_of.
  cbn [webcolors.take_hex].
  repeat match goal with
         | E : webcolors.is_hex_digit ?c = true |- _ => rewrite E; clear E
         end.
  rewrite at_dollar_two.
  change (webcolors.at_dollar "") with true. cbv beta iota.
  cbn [String.length Nat.eqb Py.double_chars].
  destruct (CSS3_HEX_TO_NAMES !! _); reflexivity.
Qed.

End ColourCodes.

Lemma Hex2NameColor_shorthand_witness :
  @Hex2NameColor.to_internal_value Sample.platform (JStr ("#" +:+ "fFf"))
  = @Hex2NameColor.to_internal_value Sample.platform (JStr ("#" +:+ Py.double_chars "fFf")).
Proof. exact (@Hex2NameColor_shorthand Sample.platform "fFf" eq_refl eq_refl). Defined.

(** ** The image field on every data URL *)

Section DataURL.

Context `{Platform}.

(** X8: what the image field does with a string that starts with
    [data:image]: either the string is a header, the separator [;base64,]
    and a payload the codec decodes, and the image field of the framework
    is handed a file of the decoded bytes named [temp.<ext>], where [<ext>]
    is what follows the last slash of the header (the whole header when it
    has none) and holds no slash itself; or the validation error of the
    field is raised and one record is logged.  Nothing else happens. *)
Theorem data_url_outcomes (s : string) (log : list log_record) :
  Py.startswith s "data:image" = true ->
  (exists format imgstr content pre ext,
      s = format +:+ ";base64," +:+ imgstr /\
      b64decode imgstr = inr content /\
      format = pre +:+ ext /\ (pre = EmptyString \/ exists p, pre = p +:+ "/") /\
      Py.contains "/" ext = false /\
      Base64ImageField.to_internal_value (JStr s) log
      = (ImageField_to_internal_value (JFile (ContentFile content ("temp." +:+ ext))), log))
  \/ (exists e,
      Base64ImageField.to_internal_value (JStr s) log
      = (inl (ValidationError (Msg Base64ImageField.invalid_image)),
         log ++ [LogError ("Error decoding base64 image: " +:+ e)])).
Proof.
  intros Hprefix.
  destruct (Base64ImageField.decode s) as [e|f] eqn:Hdecode.
  - right. exists e. apply to_internal_value_decode_error; assumption.
  - left. destruct (decode_success s f Hdecode) as (format & imgstr & content & Hsplit
      & Hcontent & ->).
    pose proof (split_join s ";" "base64,") as Hjoin.
    change (String ";" "base64,") with ";base64," in Hjoin. rewrite Hsplit in Hjoin.
    cbn [str_join] in Hjoin.
    pose proof (split_join format "/" "") as Hformat.
    pose proof (split_go_char "/" format) as Hsegments.
    change (String "/" "") with "/" in *.
    unfold Py.split in *.
    destruct (Py.split_go "/" 0 format) as [h t].
    destruct (join_last "/" h t) as (pre & Hlast & Hpre).
    exists format, imgstr, content, pre, (Py.last_item (h :: t)).
    split; [symmetry; exact Hjoin|]. split; [exact Hcontent|].
    split; [rewrite <- Hlast; symmetry; exact Hformat|]. split; [exact Hpre|].
    split.
    + rewrite Forall_forall in Hsegments. apply Hsegments. apply last_item_elem.
    + unfold Base64ImageField.to_internal_value. rewrite Hprefix, Hdecode. reflexivity.
Qed.

End DataURL.

Lemma data_url_outcomes_witness :
  (exists format imgstr content pre ext,
      "data:image/png;base64,aGk=" = format +:+ ";base64," +:+ imgstr /\
      @b64decode Sample.platform imgstr = inr content /\
      format = pre +:+ ext /\ (pre = EmptyString \/ exists p, pre = p +:+ "/") /\
      Py.contains "/" ext = false /\
      @Base64ImageField.to_internal_value Sample.platform
        (JStr "data:image/png;base64,aGk=") []
      = (@ImageField_to_internal_value Sample.platform
           (JFile (ContentFile content ("temp." +:+ ext))), []))
  \/ (exists e,
      @Base64ImageField.to_internal_value Sample.platform
        (JStr "data:image/png;base64,aGk=") []
      = (inl (ValidationError (Msg Base64ImageField.invalid_image)),
         [] ++ [LogError ("Error decoding base64 image: " +:+ e)])).
Proof.
  exact (@data_url_outcomes Sample.platform "data:image/png;base64,aGk=" [] eq_refl).
Defined.

(** ** The validation of a request *)

Section Validation.

Context `{Platform}.

Lemma writable_fields_by_position :
  Serializer.writable_fields CatSerializer.fields
  = [writable_field 0; writable_field 1; writable_field 2; writable_field 3;
     writable_field 4].
Proof. reflexivity. Qed.

Lemma to_internal_value_loop_step {V} (partial : bool) (f : field V) (fs : list (field V))
    (data : gmap string json) (ret : V) (errors : list (string * detail))
    (log : list log_record) :
  Serializer.to_internal_value_loop partial (f :: fs) data ret errors log
  = match Field.run_validation partial f (data !! field_name f) log with
    | (inl (ValidationError d), log') =>
        Serializer.to_internal_value_loop partial fs data ret
          (errors ++ [(field_name f, d)]) log'
    | (inl e, log') => (inl e, log')
    | (inr None, log') => Serializer.to_internal_value_loop partial fs data ret errors log'
    | (inr (Some set), log') =>
        Serializer.to_internal_value_loop partial fs data (set ret) errors log'
    end.
Proof. reflexivity. Qed.

Lemma to_internal_value_loop_errors {V} (partial : bool) (fs : list (field V))
    (data : gmap string json) :
  forall ret errors log ret' errors' log',
    Serializer.to_internal_value_loop partial fs data ret errors log
    = (inr (ret', errors'), log') ->
    exists more, errors' = errors ++ more.
Proof.
  induction fs as [|f fs IH]; intros ret errors log ret' errors' log' E;
    cbn [Serializer.to_internal_value_loop] in E.
  - injection E as <- <- <-. exists []. rewrite app_nil_r. reflexivity.
  - destruct (Field.run_validation partial f (data !! field_name f) log)
      as [[[]|[set|]] log1]; try discriminate.
    + apply IH in E as (more & ->). rewrite <- app_assoc. eauto.
    + apply IH in E. exact E.
    + apply IH in E. exact E.
Qed.

(** A turn of the loop that leads to a result without errors: the field
    was skipped or gave a value. *)
Lemma to_internal_value_loop_cons {V} (partial : bool) (f : field V) (fs : list (field V))
    (data : gmap string json) (ret : V) (log : list log_record) (ret' : V)
    (log' : list log_record) :
  Serializer.to_internal_value_loop partial (f :: fs) data ret [] log
  = (inr (ret', []), log') ->
  exists o log1,
    Field.run_validation partial f (data !! field_name f) log = (inr o, log1) /\
    Serializer.to_internal_value_loop partial fs data
      (match o with Some set => set ret | None => ret end) [] log1
    = (inr (ret', []), log').
Proof.
  cbn [Serializer.to_internal_value_loop].
  destruct (Field.run_validation partial f (data !! field_name f) log)
    as [[[]|[set|]] log1]; try discriminate; intros E.
  - apply to_internal_value_loop_errors in E as (more & E).
    destruct more; discriminate.
  - exists (Some set), log1. split; [reflexivity|exact E].
  - exists None, log1. split; [reflexivity|exact E].
Qed.

(** The loop raises only what a field raises that is not a validation
    error. *)
Lemma to_internal_value_loop_total {V} (partial : bool) (fs : list (field V))
    (data : gmap string json) :
  (forall f log, f ∈ fs ->
     raises_only_validation_errors
       (fst (Field.run_validation partial f (data !! field_name f) log))) ->
  forall ret errors log,
    exists ret' errors' log',
      Serializer.to_internal_value_loop partial fs data ret errors log
      = (inr (ret', errors'), log').
Proof.
  induction fs as [|f fs IH]; intros Hfs ret errors log;
    cbn [Serializer.to_internal_value_loop].
  - eauto.
  - pose proof (Hfs f log ltac:(left)) as Hf.
    assert (IH' := IH (fun g l Hg => Hfs g l ltac:(right; exact Hg))).
    destruct (Field.run_validation partial f (data !! field_name f) log)
      as [[[]|[set|]] log1]; try discriminate; apply IH'.
Qed.

Lemma to_internal_value_total {V} (fs : list (field V)) (empty : V) (partial : bool)
    (data : json) (log : list log_record) :
  (forall o f l, data = JObj o -> f ∈ Serializer.writable_fields fs ->
     raises_only_validation_errors
       (fst (Field.run_validation partial f (o !! field_name f) l))) ->
  raises_only_validation_errors (fst (Serializer.to_internal_value fs empty partial data log)).
Proof.
  intros Hfs. unfold Serializer.to_internal_value.
  destruct data as [| | | | |o|]; try reflexivity.
  destruct (to_internal_value_loop_total partial (Serializer.writable_fields fs) o
              (fun f l Hf => Hfs o f l eq_refl Hf) empty [] log)
    as (ret' & errors' & log' & ->).
  destruct errors'; reflexivity.
Qed.

(** *** The fields, one by one *)

Lemma writable_field_name :
  writable_field 0
  = {| field_name := "name"; read_only := false; required := true; allow_null := false;
       field_run := fun _ v log =>
         match CharField_run_validation (Some 16%nat) v with
         | inl d => (inl (ValidationError d), log)
         | inr x => (inr (CatSerializer.set_name x), log)
         end;
       set_null := fun ret => ret |}.
Proof. reflexivity. Qed.

Lemma writable_field_color :
  writable_field 1
  = {| field_name := "color"; read_only := false; required := true; allow_null := false;
       field_run := fun _ v log =>
         match Hex2NameColor.to_internal_value v with
         | inl e => (inl e, log)
         | inr x => (inr (CatSerializer.set_color x), log)
         end;
       set_null := fun ret => ret |}.
Proof. reflexivity. Qed.

Lemma writable_field_birth_year :
  writable_field 2
  = {| field_name := "birth_year"; read_only := false; required := true;
       allow_null := false;
       field_run := fun _ v log =>
         match IntegerField_run_validation v with
         | inl d => (inl (ValidationError d), log)
         | inr x => (inr (CatSerializer.set_birth_year x), log)
         end;
       set_null := fun ret => ret |}.
Proof. reflexivity. Qed.

Lemma writable_field_achievements :
  writable_field 3
  = {| field_name := "achievements"; read_only := false; required := false;
       allow_null := false;
       field_run := fun partial v log =>
         match Serializer.many_to_internal_value
                 (AchievementSerializer.run_validation partial) v log with
         | (inl e, log') => (inl e, log')
         | (inr x, log') => (inr (CatSerializer.set_achievements (Some x)), log')
         end;
       set_null := fun ret => ret |}.
Proof. reflexivity. Qed.

Lemma writable_field_image :
  writable_field 4
  = {| field_name := "image"; read_only := false; required := false; allow_null := true;
       field_run := fun _ v log =>
         match Base64ImageField.to_internal_value v log with
         | (inl e, log') => (inl e, log')
         | (inr x, log') => (inr (CatSerializer.set_image (Some x)), log')
         end;
       set_null := CatSerializer.set_image None |}.
Proof. reflexivity. Qed.

Lemma name_field_run_validation (partial : bool) (d : option json) (log : list log_record) :
  Field.run_validation partial (writable_field 0) d log
  = (match d with
     | None =>
         if partial then inr None
         else inl (ValidationError (Msg Field.required_msg))
     | Some JNull => inl (ValidationError (Msg Field.null_msg))
     | Some v =>
         match CharField_run_validation (Some 16%nat) v with
         | inl e => inl (ValidationError e)
         | inr x => inr (Some (CatSerializer.set_name x))
         end
     end, log).
Proof.
  rewrite writable_field_name. unfold Field.run_validation.
  cbn [required allow_null field_run set_null].
  destruct d as [[]|]; try destruct partial; try reflexivity;
    destruct (CharField_run_validation _ _); reflexivity.
Qed.

Lemma color_field_run_validation (partial : bool) (d : option json) (log : list log_record) :
  Field.run_validation partial (writable_field 1) d log
  = (match d with
     | None =>
         if partial then inr None
         else inl (ValidationError (Msg Field.required_msg))
     | Some JNull => inl (ValidationError (Msg Field.null_msg))
     | Some v =>
         match Hex2NameColor.to_internal_value v with
         | inl e => inl e
         | inr x => inr (Some (CatSerializer.set_color x))
         end
     end, log).
Proof.
  rewrite writable_field_color. unfold Field.run_validation.
  cbn [required allow_null field_run set_null].
  destruct d as [[]|]; try destruct partial; try reflexivity;
    destruct (Hex2NameColor.to_internal_value _); reflexivity.
Qed.

Lemma birth_year_field_run_validation (partial : bool) (d : option json)
    (log : list log_record) :
  Field.run_validation partial (writable_field 2) d log
  = (match d with
     | None =>
         if partial then inr None
         else inl (ValidationError (Msg Field.required_msg))
     | Some JNull => inl (ValidationError (Msg Field.null_msg))
     | Some v =>
         match IntegerField_run_validation v with
         | inl e => inl (ValidationError e)
         | inr x => inr (Some (CatSerializer.set_birth_year x))
         end
     end, log).
Proof.
  rewrite writable_field_birth_year. unfold Field.run_validation.
  cbn [required allow_null field_run set_null].
  destruct d as [[]|]; try destruct partial; try reflexivity;
    destruct (IntegerField_run_validation _); reflexivity.
Qed.

Lemma achievements_field_run_validation (partial : bool) (d : option json)
    (log : list log_record) :
  Field.run_validation partial (writable_field 3) d log
  = match d with
    | None => (inr None, log)
    | Some JNull => (inl (ValidationError (Msg Field.null_msg)), log)
    | Some v =>
        match Serializer.many_to_internal_value
                (AchievementSerializer.run_validation partial) v log with
        | (inl e, log') => (inl e, log')
        | (inr x, log') => (inr (Some (CatSerializer.set_achievements (Some x))), log')
        end
    end.
Proof.
  rewrite writable_field_achievements. unfold Field.run_validation.
  cbn [required allow_null field_run set_null].
  destruct d as [[]|]; try destruct partial; try reflexivity;
    destruct (Serializer.many_to_internal_value _ _ _) as [[] ?]; reflexivity.
Qed.

Lemma image_field_run_validation (partial : bool) (d : option json)
    (log : list log_record) :
  Field.run_validation partial (writable_field 4) d log
  = match d with
    | None => (inr None, log)
    | Some JNull => (inr (Some (CatSerializer.set_image None)), log)
    | Some v =>
        match Base64ImageField.to_internal_value v log with
        | (inl e, log') => (inl e, log')
        | (inr x, log') => (inr (Some (CatSerializer.set_image (Some x))), log')
        end
    end.
Proof.
  rewrite writable_field_image. unfold Field.run_validation.
  cbn [required allow_null field_run set_null].
  destruct d as [[]|]; try destruct partial; try reflexivity;
    destruct (Base64ImageField.to_internal_value _ _) as [[] ?]; reflexivity.
Qed.


(** *** The nested serializer *)

(** What the validation of one item of [achievements] gives. *)
Lemma AchievementSerializer_run_validation_item (partial : bool) (item : json)
    (log : list log_record) :
  AchievementSerializer.run_validation partial item log
  = (match item with
     | JNull => inl (ValidationError (Msg Field.null_msg))
     | JObj o =>
         match o !! "achievement_name" with
         | None =>
             if partial then inr AchievementSerializer.no_data
             else inl (ValidationError
                         (FieldErrors [("achievement_name", Msg Field.required_msg)]))
         | Some JNull =>
             inl (ValidationError (FieldErrors [("achievement_name", Msg Field.null_msg)]))
         | Some v =>
             match CharField_run_validation None v with
             | inl d => inl (ValidationError (FieldErrors [("achievement_name", d)]))
             | inr n => inr (descriptor n)
             end
         end
     | v =>
         inl (ValidationError
                (FieldErrors [("non_field_errors", Msg (Serializer.invalid_msg v))]))
     end, log).
Proof.
  destruct item as [| | | | |o|]; try reflexivity.
  unfold AchievementSerializer.run_validation, Serializer.to_internal_value.
  change (Serializer.writable_fields AchievementSerializer.fields)
    with (drop 1 AchievementSerializer.fields).
  cbn [drop AchievementSerializer.fields Serializer.to_internal_value_loop field_name].
  unfold Field.run_validation. cbn [required allow_null field_run set_null].
  destruct (o !! "achievement_name") as [[]|]; try destruct partial; try reflexivity;
    destruct (CharField_run_validation _ _); reflexivity.
Qed.


Lemma list_loop_spec {V} (child : json -> list log_record -> (exn + V) * list log_record)
    (P : V -> Prop) (items : list json) :
  (forall item log, snd (child item log) = log) ->
  (forall item log, raises_only_validation_errors (fst (child item log))) ->
  (forall item log v, fst (child item log) = inr v -> P v) ->
  forall ret errors log,
    exists oks errs,
      Serializer.list_loop child items ret errors log
      = (inr (ret ++ oks, errors ++ errs), log) /\
      Forall P oks /\
      (forallb (fun e => negb (bool_decide (is_Some e))) errs = true ->
       length oks = length items).
Proof.
  intros Hlog Honly HP.
  induction items as [|item items IH]; intros ret errors log; cbn [Serializer.list_loop].
  - exists [], []. rewrite !app_nil_r. split; [reflexivity|]. split; [constructor|reflexivity].
  - specialize (Hlog item log). specialize (Honly item log). specialize (HP item log).
    destruct (child item log) as [[e|v] log1]; cbn [fst snd] in *; subst log1.
    + destruct e as [| |d| |]; try discriminate.
      destruct (IH ret (errors ++ [Some d]) log) as (oks & errs & -> & Hoks & _).
      exists oks, (Some d :: errs). rewrite <- app_assoc.
      split; [reflexivity|]. split; [exact Hoks|]. discriminate.
    + destruct (IH (ret ++ [v]) (errors ++ [None]) log) as (oks & errs & -> & Hoks & Hlen).
      exists (v :: oks), (None :: errs). rewrite <- !app_assoc.
      split; [reflexivity|]. split; [constructor; [apply HP; reflexivity|exact Hoks]|].
      intros Hno. cbn [length]. f_equal. apply Hlen. exact Hno.
Qed.

Lemma many_to_internal_value_spec {V}
    (child : json -> list log_record -> (exn + V) * list log_record)
    (P : V -> Prop) (v : json) (log : list log_record) :
  (forall item log, snd (child item log) = log) ->
  (forall item log, raises_only_validation_errors (fst (child item log))) ->
  (forall item log x, fst (child item log) = inr x -> P x) ->
  exists r,
    Serializer.many_to_internal_value child v log = (r, log) /\
    raises_only_validation_errors r /\
    forall xs, r = inr xs ->
      exists items, v = JArr items /\ length xs = length items /\ Forall P xs.
Proof.
  intros Hlog Honly HP. unfold Serializer.many_to_internal_value.
  destruct v as [| | | |items| |];
    try (eexists; split; [reflexivity|]; split; [reflexivity|discriminate]).
  destruct (list_loop_spec child P items Hlog Honly HP [] [] log)
    as (oks & errs & -> & Hoks & Hlen).
  cbn [app].
  destruct (forallb (fun e => negb (bool_decide (is_Some e))) errs) eqn:Hno.
  - eexists. split; [reflexivity|]. split; [exact Logic.I|].
    intros xs E. injection E as <-. exists items.
    split; [reflexivity|]. split; [apply Hlen; reflexivity|exact Hoks].
  - eexists. split; [reflexivity|]. split; [reflexivity|discriminate].
Qed.

(** The list of achievements: nothing is logged, only validation errors
    are raised, and the list that is returned has one descriptor per item
    of the request, each with its name unless the validation is partial. *)
Lemma achievements_spec (partial : bool) (v : json) (log : list log_record) :
  exists r,
    Serializer.many_to_internal_value (AchievementSerializer.run_validation partial) v log
    = (r, log) /\
    raises_only_validation_errors r /\
    forall ds, r = inr ds ->
      exists items, v = JArr items /\ length ds = length items /\
                    Forall (fun d => partial = false -> named d) ds.
Proof.
  apply many_to_internal_value_spec.
  - intros item l. rewrite AchievementSerializer_run_validation_item. reflexivity.
  - intros item l. rewrite AchievementSerializer_run_validation_item. cbn [fst].
    destruct item as [| | | | |o|]; try reflexivity.
    destruct (o !! "achievement_name") as [[]|]; try destruct partial; try reflexivity;
      destruct (CharField_run_validation _ _); reflexivity.
  - intros item l d. rewrite AchievementSerializer_run_validation_item. cbn [fst].
    destruct item as [| | | | |o|]; try discriminate.
    destruct (o !! "achievement_name") as [[]|]; try destruct partial; try discriminate;
      try (destruct (CharField_run_validation _ _); try discriminate);
      intros E; injection E as <-; intros Hp; try discriminate; eexists; reflexivity.
Qed.

(** *** The image field *)

Lemma Base64ImageField_returns_without_log (v : json) (log : list log_record) (f : file)
    (log' : list log_record) :
  Base64ImageField.to_internal_value v log = (inr f, log') -> log' = log.
Proof.
  unfold Base64ImageField.to_internal_value.
  destruct v as [| | |s| | |]; try (intros E; injection E as _ <-; reflexivity).
  destruct (Py.startswith s "data:image");
    [destruct (Base64ImageField.decode s); [discriminate|]|];
    intros E; injection E as _ <-; reflexivity.
Qed.

Lemma Base64ImageField_raises (v : json) (log : list log_record) :
  (forall x, raises_only_validation_errors (ImageField_to_internal_value x)) ->
  raises_only_validation_errors (fst (Base64ImageField.to_internal_value v log)).
Proof.
  intros Himg. unfold Base64ImageField.to_internal_value.
  destruct v as [| | |s| | |]; try apply Himg.
  destruct (Py.startswith s "data:image"); [|apply Himg].
  destruct (Base64ImageField.decode s); [reflexivity|apply Himg].
Qed.


(** *** What a field gave when it did not raise *)

Lemma name_field_returns (partial : bool) (d : option json) (log : list log_record)
    (o : option (validated_data -> validated_data)) (l : list log_record) :
  Field.run_validation partial (writable_field 0) d log = (inr o, l) ->
  l = log /\
  ((d = None /\ partial = true /\ o = None) \/
   (exists v x, d = Some v /\ CharField_run_validation (Some 16%nat) v = inr x /\
                o = Some (CatSerializer.set_name x))).
Proof.
  rewrite name_field_run_validation. intros E. injection E as E <-.
  split; [reflexivity|].
  destruct d as [v|]; [|destruct partial; [left; split; [|split]; congruence|discriminate]].
  right. exists v.
  destruct v; try discriminate;
    (destruct (CharField_run_validation _ _) as [|x] eqn:Ex; [discriminate|]);
    exists x; (split; [reflexivity|]); split; congruence.
Qed.

Lemma color_field_returns (partial : bool) (d : option json) (log : list log_record)
    (o : option (validated_data -> validated_data)) (l : list log_record) :
  Field.run_validation partial (writable_field 1) d log = (inr o, l) ->
  l = log /\
  ((d = None /\ partial = true /\ o = None) \/
   (exists v x, d = Some v /\ Hex2NameColor.to_internal_value v = inr x /\
                o = Some (CatSerializer.set_color x))).
Proof.
  rewrite color_field_run_validation. intros E. injection E as E <-.
  split; [reflexivity|].
  destruct d as [v|]; [|destruct partial; [left; split; [|split]; congruence|discriminate]].
  right. exists v.
  destruct v; try discriminate;
    (destruct (Hex2NameColor.to_internal_value _) as [|x] eqn:Ex; [discriminate|]);
    exists x; (split; [reflexivity|]); split; congruence.
Qed.

Lemma birth_year_field_returns (partial : bool) (d : option json) (log : list log_record)
    (o : option (validated_data -> validated_data)) (l : list log_record) :
  Field.run_validation partial (writable_field 2) d log = (inr o, l) ->
  l = log /\
  ((d = None /\ partial = true /\ o = None) \/
   (exists v x, d = Some v /\ IntegerField_run_validation v = inr x /\
                o = Some (CatSerializer.set_birth_year x))).
Proof.
  rewrite birth_year_field_run_validation. intros E. injection E as E <-.
  split; [reflexivity|].
  destruct d as [v|]; [|destruct partial; [left; split; [|split]; congruence|discriminate]].
  right. exists v.
  destruct v; try discriminate;
    (destruct (IntegerField_run_validation _) as [|x] eqn:Ex; [discriminate|]);
    exists x; (split; [reflexivity|]); split; congruence.
Qed.

Lemma achievements_field_returns (partial : bool) (d : option json) (log : list log_record)
    (o : option (validated_data -> validated_data)) (l : list log_record) :
  Field.run_validation partial (writable_field 3) d log = (inr o, l) ->
  l = log /\
  ((d = None /\ o = None) \/
   (exists items ds, d = Some (JArr items) /\ length ds = length items /\
                     Forall (fun d => partial = false -> named d) ds /\
                     o = Some (CatSerializer.set_achievements (Some ds)))).
Proof.
  rewrite achievements_field_run_validation.
  destruct d as [v|]; [|intros E; injection E as <- <-; split; [reflexivity|left; split; reflexivity]].
  destruct (achievements_spec partial v log) as (r & Hr & _ & Hds).
  destruct v; try discriminate; rewrite Hr;
    (destruct r as [e|ds]; [discriminate|]);
    intros E; injection E as <- <-; (split; [reflexivity|]); right;
    destruct (Hds ds eq_refl) as (items & Ev & Hlen & Hall); try discriminate.
  injection Ev as <-. eexists _, ds.
  split; [reflexivity|]. split; [exact Hlen|]. split; [exact Hall|reflexivity].
Qed.

Lemma image_field_returns (partial : bool) (d : option json) (log : list log_record)
    (o : option (validated_data -> validated_data)) (l : list log_record) :
  Field.run_validation partial (writable_field 4) d log = (inr o, l) ->
  l = log /\
  ((d = None /\ o = None) \/
   (d = Some JNull /\ o = Some (CatSerializer.set_image None)) \/
   (exists v f, d = Some v /\ v <> JNull /\
                Base64ImageField.to_internal_value v log = (inr f, log) /\
                o = Some (CatSerializer.set_image (Some f)))).
Proof.
  rewrite image_field_run_validation.
  destruct d as [v|]; [|intros E; injection E as <- <-; split; [reflexivity|left; split; reflexivity]].
  destruct v;
    try (intros E; injection E as <- <-; split; [reflexivity|right; left; split; reflexivity]; fail);
    (destruct (Base64ImageField.to_internal_value _ log) as [[e|img] l'] eqn:Ef; [discriminate|]);
    pose proof (Base64ImageField_returns_without_log _ _ _ _ Ef) as ->;
    intros E; injection E as <- <-; (split; [reflexivity|]); right; right;
    eexists _, img; (split; [reflexivity|]); (split; [discriminate|]);
    (split; [exact Ef|reflexivity]).
Qed.

(** Whenever validation returns: nothing was logged, and each key of the
    validated data is what its field gave on the value of the request. *)
Lemma run_validation_returns (partial : bool) (data : gmap string json)
    (log : list log_record) (vd : validated_data) (log' : list log_record) :
  CatSerializer.run_validation partial (JObj data) log = (inr vd, log') ->
  log' = log /\
  vd_owner vd = None /\
  match data !! "name" with
  | None => partial = true /\ vd_name vd = None
  | Some v =>
      exists x, CharField_run_validation (Some 16%nat) v = inr x /\ vd_name vd = Some x
  end /\
  match data !! "color" with
  | None => partial = true /\ vd_color vd = None
  | Some v => exists x, Hex2NameColor.to_internal_value v = inr x /\ vd_color vd = Some x
  end /\
  match data !! "birth_year" with
  | None => partial = true /\ vd_birth_year vd = None
  | Some v => exists x, IntegerField_run_validation v = inr x /\ vd_birth_year vd = Some x
  end /\
  match data !! "achievements" with
  | None => vd_achievements vd = None
  | Some v =>
      exists items ds,
        v = JArr items /\ vd_achievements vd = Some ds /\ length ds = length items /\
        Forall (fun d => partial = false -> named d) ds
  end /\
  match data !! "image" with
  | None => vd_image vd = None
  | Some v =>
      (v = JNull /\ vd_image vd = Some None) \/
      (exists f, v <> JNull /\ Base64ImageField.to_internal_value v log = (inr f, log) /\
                 vd_image vd = Some (Some f))
  end.
Proof.
  unfold CatSerializer.run_validation, Serializer.to_internal_value.
  rewrite writable_fields_by_position.
  destruct (Serializer.to_internal_value_loop _ _ _ _ _ _) as [[e|[ret errors]] log1]
    eqn:Hloop; [discriminate|].
  destruct errors; [|discriminate]. intros E. injection E as -> ->.
  apply to_internal_value_loop_cons in Hloop as (o0 & l0 & H0 & Hloop).
  apply name_field_returns in H0 as [-> H0].
  apply to_internal_value_loop_cons in Hloop as (o1 & l1 & H1 & Hloop).
  apply color_field_returns in H1 as [-> H1].
  apply to_internal_value_loop_cons in Hloop as (o2 & l2 & H2 & Hloop).
  apply birth_year_field_returns in H2 as [-> H2].
  apply to_internal_value_loop_cons in Hloop as (o3 & l3 & H3 & Hloop).
  apply achievements_field_returns in H3 as [-> H3].
  apply to_internal_value_loop_cons in Hloop as (o4 & l4 & H4 & Hloop).
  apply image_field_returns in H4 as [-> H4].
  cbn [Serializer.to_internal_value_loop] in Hloop. injection Hloop as <- <-.
  change (field_name (writable_field 0)) with "name" in *.
  change (field_name (writable_field 1)) with "color" in *.
  change (field_name (writable_field 2)) with "birth_year" in *.
  change (field_name (writable_field 3)) with "achievements" in *.
  change (field_name (writable_field 4)) with "image" in *.
  split; [reflexivity|].
  destruct H0 as [(E0 & P0 & ->)|(v0 & x0 & E0 & A0 & ->)];
  destruct H1 as [(E1 & P1 & ->)|(v1 & x1 & E1 & A1 & ->)];
  destruct H2 as [(E2 & P2 & ->)|(v2 & x2 & E2 & A2 & ->)];
  destruct H3 as [(E3 & ->)|(items & ds3 & E3 & Hlen & Hall & ->)];
  destruct H4 as [(E4 & ->)|[(E4 & ->)|(v4 & f4 & E4 & N4 & A4 & ->)]];
  rewrite E0, E1, E2, E3, E4;
  cbn [CatSerializer.no_data CatSerializer.set_name CatSerializer.set_color
       CatSerializer.set_birth_year CatSerializer.set_achievements CatSerializer.set_image
       vd_name vd_color vd_birth_year vd_achievements vd_owner vd_image];
  (split; [reflexivity|]);
  (split; [first [split; [exact P0|reflexivity]|eexists; split; [exact A0|reflexivity]]|]);
  (split; [first [split; [exact P1|reflexivity]|eexists; split; [exact A1|reflexivity]]|]);
  (split; [first [split; [exact P2|reflexivity]|eexists; split; [exact A2|reflexivity]]|]);
  (split; [first [reflexivity
                 |exists items, ds3; split; [reflexivity|]; split; [reflexivity|];
                  split; [exact Hlen|exact Hall]]|]);
  first [reflexivity
        |left; split; reflexivity
        |right; exists f4; split; [exact N4|]; split; [exact A4|reflexivity]].
Qed.

(** X9: what validated data is, whenever validation returns: nothing was
    logged; there is no [owner]; each writable key is in the validated
    data exactly when it is in the request; without [partial] the keys
    [name], [color] and [birth_year] are there; the colour is a name of
    the CSS3 table; the image is null exactly when the request says null;
    and the achievements are one descriptor for each item of the list of
    the request, each with its name unless the validation is partial. *)
Theorem validated_data_sound (partial : bool) (data : gmap string json)
    (log : list log_record) (vd : validated_data) (log' : list log_record) :
  CatSerializer.run_validation partial (JObj data) log = (inr vd, log') ->
  log' = log /\
  vd_owner vd = None /\
  (partial = false ->
   is_Some (vd_name vd) /\ is_Some (vd_color vd) /\ is_Some (vd_birth_year vd)) /\
  (is_Some (vd_name vd) <-> is_Some (data !! "name")) /\
  (is_Some (vd_color vd) <-> is_Some (data !! "color")) /\
  (is_Some (vd_birth_year vd) <-> is_Some (data !! "birth_year")) /\
  (is_Some (vd_achievements vd) <-> is_Some (data !! "achievements")) /\
  (is_Some (vd_image vd) <-> is_Some (data !! "image")) /\
  (forall c, vd_color vd = Some c -> exists code, CSS3_HEX_TO_NAMES !! code = Some c) /\
  (vd_image vd = Some None <-> data !! "image" = Some JNull) /\
  (forall ds, vd_achievements vd = Some ds ->
     exists items, data !! "achievements" = Some (JArr items) /\
                   length ds = length items /\
                   (partial = false -> Forall named ds)).
Proof.
  intros Hrun.
  destruct (run_validation_returns partial data log vd log' Hrun)
    as (Hlog & Howner & Hname & Hcolor & Hyear & Hachs & Himage).
  split; [exact Hlog|]. split; [exact Howner|].
  destruct (data !! "name") as [v0|];
    [destruct Hname as (x0 & A0 & ->)|destruct Hname as [P0 ->]];
  (destruct (data !! "color") as [v1|];
    [destruct Hcolor as (x1 & A1 & ->)|destruct Hcolor as [P1 ->]]);
  (destruct (data !! "birth_year") as [v2|];
    [destruct Hyear as (x2 & A2 & ->)|destruct Hyear as [P2 ->]]);
  (destruct (data !! "achievements") as [v3|];
    [destruct Hachs as (items & ds3 & -> & -> & Hlen & Hall)|rewrite Hachs]);
  (destruct (data !! "image") as [v4|];
    [destruct Himage as [[-> ->]|(f4 & N4 & A4 & ->)]|rewrite Himage]);
  (split; [intros Hp; try congruence; repeat split; eexists; reflexivity|]);
  (split; [split; intros [? ?]; try discriminate; eexists; reflexivity|]);
  (split; [split; intros [? ?]; try discriminate; eexists; reflexivity|]);
  (split; [split; intros [? ?]; try discriminate; eexists; reflexivity|]);
  (split; [split; intros [? ?]; try discriminate; eexists; reflexivity|]);
  (split; [split; intros [? ?]; try discriminate; eexists; reflexivity|]);
  (split; [intros c Hc; try discriminate; injection Hc as <-;
           exact (Hex2NameColor_returns_table_name _ _ A1)|]);
  (split; [split; intros Hn; try discriminate; try reflexivity;
           injection Hn as ->; contradiction|]);
  intros ds Hds; try discriminate; injection Hds as <-;
  exists items; (split; [reflexivity|]); (split; [exact Hlen|]);
  intros Hp; apply (Forall_impl _ _ _ Hall); intros d Hd; exact (Hd Hp).
Qed.


(** X10: a colour that is present, not null and not a string (a number, a
    list, ...) is not reported as invalid input: the write request ends
    with the [TypeError] that [webcolors] raises and the field does not
    catch, whatever the other fields hold; nothing is logged or stored. *)
Theorem color_of_wrong_type_raises_TypeError (instance : option Cat) (owner : option Z)
    (partial : bool) (data : gmap string json) (v : json) (log : list log_record)
    (s : store) :
  data !! "color" = Some v -> v <> JNull -> (forall c, v <> JStr c) ->
  exists msg,
    CatSerializer.is_valid_and_save instance owner partial (JObj data) log s
    = (inl (TypeError msg), log, s).
Proof.
  intros Hcolor Hnull Hstr.
  unfold CatSerializer.is_valid_and_save, CatSerializer.run_validation,
    Serializer.to_internal_value.
  rewrite writable_fields_by_position.
  assert (Hstep : forall ret errors,
            exists msg,
              Serializer.to_internal_value_loop partial
                [writable_field 1; writable_field 2; writable_field 3; writable_field 4]
                data ret errors log
              = (inl (TypeError msg), log)).
  { intros ret errors. rewrite to_internal_value_loop_step.
    rewrite color_field_run_validation.
    change (field_name (writable_field 1)) with "color". rewrite Hcolor.
    destruct v; try contradiction; try (eexists; reflexivity).
    exfalso. exact (Hstr _ eq_refl). }
  rewrite to_internal_value_loop_step.
  rewrite name_field_run_validation.
  destruct (data !! field_name (writable_field 0)) as [[]|]; try destruct partial;
    try destruct (CharField_run_validation _ _);
    match goal with
    | |- context [Serializer.to_internal_value_loop _ _ _ ?ret ?errors _] =>
        destruct (Hstep ret errors) as (msg & E)
    end;
    rewrite E; eexists; reflexivity.
Qed.

(** The fields but [color] raise validation errors only, as long as the
    image field of the framework does. *)
Lemma writable_field_raises (partial : bool) (o : gmap string json)
    (f : field validated_data) (l : list log_record) :
  (forall x, raises_only_validation_errors (ImageField_to_internal_value x)) ->
  f ∈ [writable_field 0; writable_field 2; writable_field 3; writable_field 4] ->
  raises_only_validation_errors
    (fst (Field.run_validation partial f (o !! field_name f) l)).
Proof.
  intros Himg Hf.
  repeat (apply elem_of_cons in Hf as [->|Hf]); [| | | |inversion Hf].
  - rewrite name_field_run_validation. cbn [fst].
    destruct (o !! _) as [[]|]; try destruct partial; try reflexivity;
      destruct (CharField_run_validation _ _); reflexivity.
  - rewrite birth_year_field_run_validation. cbn [fst].
    destruct (o !! _) as [[]|]; try destruct partial; try reflexivity;
      destruct (IntegerField_run_validation _); reflexivity.
  - rewrite achievements_field_run_validation.
    destruct (o !! _) as [v|]; [|reflexivity].
    destruct (achievements_spec partial v l) as (r & Hr & Honly & _).
    destruct v; try reflexivity; rewrite Hr; destruct r; exact Honly.
  - rewrite image_field_run_validation.
    destruct (o !! _) as [v|]; [|reflexivity].
    pose proof (Base64ImageField_raises v l Himg) as Honly.
    destruct v; try reflexivity;
      destruct (Base64ImageField.to_internal_value _ l) as [[] ?]; exact Honly.
Qed.

(** X11: apart from that, validation raises validation errors only: when
    the colour of the request is absent, null or a string, and the image
    field of the framework raises nothing but validation errors, the
    validation of any request body returns or raises a validation
    error. *)
Theorem validation_raises_validation_errors (partial : bool) (data : json)
    (log : list log_record) :
  (forall x, raises_only_validation_errors (ImageField_to_internal_value x)) ->
  (forall o v, data = JObj o -> o !! "color" = Some v -> v = JNull \/ exists c, v = JStr c) ->
  raises_only_validation_errors (fst (CatSerializer.run_validation partial data log)).
Proof.
  intros Himg Hcolor. unfold CatSerializer.run_validation.
  apply to_internal_value_total. intros o f l -> Hf.
  rewrite writable_fields_by_position in Hf.
  apply elem_of_cons in Hf as [Hf|Hf]; [|apply elem_of_cons in Hf as [->|Hf]].
  - apply writable_field_raises; [exact Himg|]. subst f. left.
  - rewrite color_field_run_validation. cbn [fst].
    change (field_name (writable_field 1)) with "color".
    destruct (o !! "color") as [v|] eqn:E; [|destruct partial; reflexivity].
    destruct (Hcolor o v eq_refl E) as [->|[c ->]]; [reflexivity|].
    destruct (Hex2NameColor_string_outcome c) as [[name ->]| ->]; reflexivity.
  - apply writable_field_raises; [exact Himg|]. right. exact Hf.
Qed.

(** X12: the nested serializer reads the name and nothing else: an [id]
    sent with an achievement is ignored; the representation of an
    achievement validates to the descriptor of its name (when the
    character field accepts the name as it is); and an item without
    [achievement_name] is rejected as incomplete by a full validation,
    while a partial one accepts it as the descriptor without a name. *)
Theorem AchievementSerializer_reads_the_name_only :
  (forall partial o v log,
      AchievementSerializer.run_validation partial (JObj (<["id" := v]> o)) log
      = AchievementSerializer.run_validation partial (JObj o) log)
  /\ (forall partial a log,
      CharField_run_validation None (JStr (Achievement_name a)) = inr (Achievement_name a) ->
      AchievementSerializer.run_validation partial
        (AchievementSerializer.to_representation a) log
      = (inr (descriptor (Achievement_name a)), log))
  /\ (forall o log,
      o !! "achievement_name" = None ->
      AchievementSerializer.run_validation false (JObj o) log
      = (inl (ValidationError
                (FieldErrors [("achievement_name", Msg Field.required_msg)])), log) /\
      AchievementSerializer.run_validation true (JObj o) log
      = (inr AchievementSerializer.no_data, log)).
Proof.
  split; [|split].
  - intros partial o v log. rewrite !AchievementSerializer_run_validation_item.
    rewrite lookup_insert_ne by discriminate. reflexivity.
  - intros partial a log Hname. rewrite AchievementSerializer_run_validation_item.
    unfold AchievementSerializer.to_representation.
    rewrite lookup_insert_ne by discriminate. rewrite lookup_insert_eq, Hname. reflexivity.
  - intros o log Ho. rewrite !AchievementSerializer_run_validation_item, Ho.
    split; reflexivity.
Qed.

(** A string with no leading [#] is rejected by the colour field. *)
Lemma Hex2NameColor_rejects_without_hash (c : string) :
  Py.startswith c "#" = false ->
  Hex2NameColor.to_internal_value (JStr c)
  = inl (ValidationError (Msg Hex2NameColor.invalid_color)).
Proof.
  intros Hc. destruct c as [|ch c]; [reflexivity|].
  apply to_internal_value_needs_hash. intros ->.
  unfold Py.startswith in Hc. cbn [String.prefix] in Hc.
  destruct (ascii_dec "#" "#"); [|congruence].
  rewrite prefix_empty in Hc. discriminate.
Qed.

(** X13: no round trip through the representation: the representation of a
    cat whose colour does not start with a [#] (as no name of the CSS3
    table does) is rejected when it is sent back, with the error of the
    colour field among the errors. *)
Theorem representation_is_not_writable (now : datetime) (s : store) (cat : Cat)
    (partial : bool) (log : list log_record) :
  (forall x, raises_only_validation_errors (ImageField_to_internal_value x)) ->
  Py.startswith (Cat_color cat) "#" = false ->
  exists errors log',
    CatSerializer.run_validation partial
      (JObj (CatSerializer.to_representation now s cat)) log
    = (inl (ValidationError (FieldErrors errors)), log') /\
    ("color", Msg Hex2NameColor.invalid_color) ∈ errors.
Proof.
  intros Himg Hcolor.
  set (data := CatSerializer.to_representation now s cat).
  assert (Hdata : data !! "color" = Some (JStr (Cat_color cat))).
  { subst data. unfold CatSerializer.to_representation.
    repeat (rewrite lookup_insert_ne by discriminate).
    apply lookup_insert_eq. }
  unfold CatSerializer.run_validation, Serializer.to_internal_value.
  rewrite writable_fields_by_position.
  assert (Hrest : forall ret errors,
            exists ret' more log',
              Serializer.to_internal_value_loop partial
                [writable_field 1; writable_field 2; writable_field 3; writable_field 4]
                data ret errors log
              = (inr (ret', errors ++ ("color", Msg Hex2NameColor.invalid_color) :: more),
                 log')).
  { intros ret errors. rewrite to_internal_value_loop_step.
    rewrite color_field_run_validation.
    change (field_name (writable_field 1)) with "color". rewrite Hdata.
    unfold Hex2NameColor.to_representation.
    rewrite (Hex2NameColor_rejects_without_hash _ Hcolor).
    destruct (to_internal_value_loop_total partial
                [writable_field 2; writable_field 3; writable_field 4] data) with
      (ret := ret) (errors := errors ++ [("color", Msg Hex2NameColor.invalid_color)])
      (log := log) as (ret' & errors' & log' & E).
    { intros f l Hf. apply writable_field_raises; [exact Himg|]. right. exact Hf. }
    rewrite E.
    apply to_internal_value_loop_errors in E as (more & ->).
    exists ret', more, log'. rewrite <- app_assoc. reflexivity. }
  rewrite to_internal_value_loop_step.
  rewrite name_field_run_validation.
  destruct (data !! field_name (writable_field 0)) as [[]|]; try destruct partial;
    try destruct (CharField_run_validation _ _);
    match goal with
    | |- context [Serializer.to_internal_value_loop _ _ _ ?ret ?errors _] =>
        destruct (Hrest ret errors) as (ret' & more & log' & E)
    end;
    rewrite E;
    match goal with
    | |- context [FieldErrors ?errs] =>
        assert (Hin : ("color", Msg Hex2NameColor.invalid_color) ∈ errs)
          by (apply elem_of_app; right; left);
        remember errs as collected eqn:El; clear El E;
        destruct collected; [inversion Hin|];
        eexists _, log'; split; [reflexivity|exact Hin]
    end.
Qed.

(** What the representation holds under each key. *)
Lemma to_representation_lookup (now : datetime) (s : store) (cat : Cat) :
  let r := CatSerializer.to_representation now s cat in
  r !! "id" = Some (JNum (Cat_id cat)) /\
  r !! "name" = Some (JStr (Cat_name cat)) /\
  r !! "color" = Some (JStr (Cat_color cat)) /\
  r !! "birth_year" = Some (JNum (Cat_birth_year cat)) /\
  r !! "owner" = Some (JNum (Cat_owner cat)) /\
  r !! "age" = Some (JNum (year now - Cat_birth_year cat)) /\
  r !! "image" = Some (match Cat_image cat with
                       | Some f => JStr (file_url f)
                       | None => JNull
                       end).
Proof.
  cbv zeta. unfold CatSerializer.to_representation.
  repeat split;
    repeat (rewrite lookup_insert_ne by discriminate); apply lookup_insert_eq.
Qed.

(** X14: a create request that returns, read back: nothing was logged; the
    cat is in the table; its name, colour and birth year are what the
    fields of the request validated to, the colour being the name the CSS3
    table gives the code of the request; the owner is the one the view
    passed; the age is counted from that birth year; and the image is
    null when the request had none. *)
Theorem create_request_reads_back (now : datetime) (data : gmap string json)
    (log : list log_record) (owner : Z) (s : store) (cat : Cat)
    (log' : list log_record) (s' : store) :
  consistent s ->
  CatSerializer.is_valid_and_save None (Some owner) false (JObj data) log s
  = (inr cat, log', s') ->
  log' = log /\ cat ∈ cats s' /\
  exists v_name v_color v_year name color birth_year,
    data !! "name" = Some v_name /\
    CharField_run_validation (Some 16%nat) v_name = inr name /\
    data !! "color" = Some v_color /\
    Hex2NameColor.to_internal_value v_color = inr color /\
    data !! "birth_year" = Some v_year /\
    IntegerField_run_validation v_year = inr birth_year /\
    1900 < birth_year < 2100 /\
    CatSerializer.to_representation now s' cat !! "name" = Some (JStr name) /\
    CatSerializer.to_representation now s' cat !! "color" = Some (JStr color) /\
    CatSerializer.to_representation now s' cat !! "birth_year" = Some (JNum birth_year) /\
    CatSerializer.to_representation now s' cat !! "owner" = Some (JNum owner) /\
    CatSerializer.to_representation now s' cat !! "age"
    = Some (JNum (year now - birth_year)) /\
    (data !! "image" = None \/ data !! "image" = Some JNull ->
     CatSerializer.to_representation now s' cat !! "image" = Some JNull).
Proof.
  intros Hs. unfold CatSerializer.is_valid_and_save.
  destruct (CatSerializer.run_validation false (JObj data) log) as [[e|vd] log1] eqn:Hval;
    [discriminate|].
  destruct (run_validation_returns false data log vd log1 Hval)
    as (-> & Howner & Hname & Hcolor & Hyear & _ & Himage).
  unfold CatSerializer.save.
  destruct (CatSerializer.create (CatSerializer.set_owner owner vd) s) as [r s1] eqn:Hrun.
  intros E. injection E as -> <- <-.
  destruct (create_returns s _ cat s1 Hs Hrun)
    as (y & o & created & joined & rows & Hy & Ho & Hr & -> & Hcats & _).
  cbn [CatSerializer.set_owner vd_name vd_color vd_birth_year vd_owner vd_image] in *.
  injection Ho as <-.
  split; [reflexivity|].
  split; [rewrite Hcats; apply elem_of_app; right; left|].
  destruct (data !! "name") as [v0|]; [|destruct Hname; discriminate].
  destruct (data !! "color") as [v1|]; [|destruct Hcolor; discriminate].
  destruct (data !! "birth_year") as [v2|]; [|destruct Hyear; discriminate].
  destruct Hname as (name & Aname & Ename).
  destruct Hcolor as (color & Acolor & Ecolor).
  destruct Hyear as (birth_year & Ayear & Eyear).
  rewrite Eyear in Hy. injection Hy as <-.
  exists v0, v1, v2, name, color, birth_year.
  match goal with
  | |- context [CatSerializer.to_representation now s1 ?c] =>
      destruct (to_representation_lookup now s1 c)
        as (_ & Rname & Rcolor & Ryear & Rowner & Rage & Rimage)
  end.
  cbn [Cat_name Cat_color Cat_birth_year Cat_owner Cat_image] in *.
  rewrite Ename, Ecolor in *. cbn [default from_option id] in *.
  repeat (split; [first [reflexivity|assumption]|]).
  intros Hnone. rewrite Rimage.
  destruct Hnone as [Hnone|Hnone]; rewrite Hnone in Himage.
  - rewrite Himage. reflexivity.
  - destruct Himage as [[_ ->]|(f & Hf & _)]; [reflexivity|contradiction].
Qed.

(** A request with the three plain fields and nothing else: validation
    returns what the stock fields and the colour field give, and adds no
    check of its own. *)
Lemma run_validation_plain_request (partial : bool) (data : gmap string json)
    (log : list log_record) (v_name v_color v_year : json) (name color : string)
    (birth_year : Z) :
  data !! "name" = Some v_name -> v_name <> JNull ->
  CharField_run_validation (Some 16%nat) v_name = inr name ->
  data !! "color" = Some v_color -> v_color <> JNull ->
  Hex2NameColor.to_internal_value v_color = inr color ->
  data !! "birth_year" = Some v_year -> v_year <> JNull ->
  IntegerField_run_validation v_year = inr birth_year ->
  data !! "achievements" = None -> data !! "image" = None ->
  CatSerializer.run_validation partial (JObj data) log
  = (inr {| vd_name := Some name; vd_color := Some color;
            vd_birth_year := Some birth_year; vd_achievements := None;
            vd_owner := None; vd_image := None |}, log).
Proof.
  intros Hname Nname Aname Hcolor Ncolor Acolor Hyear Nyear Ayear Hachs Himage.
  unfold CatSerializer.run_validation, Serializer.to_internal_value.
  rewrite writable_fields_by_position.
  rewrite to_internal_value_loop_step, name_field_run_validation.
  change (field_name (writable_field 0)) with "name". rewrite Hname.
  destruct v_name; try contradiction; rewrite Aname;
  rewrite to_internal_value_loop_step, color_field_run_validation;
  change (field_name (writable_field 1)) with "color"; rewrite Hcolor;
  (destruct v_color; try contradiction; rewrite Acolor);
  rewrite to_internal_value_loop_step, birth_year_field_run_validation;
  change (field_name (writable_field 2)) with "birth_year"; rewrite Hyear;
  (destruct v_year; try contradiction; rewrite Ayear);
  rewrite to_internal_value_loop_step, achievements_field_run_validation;
  change (field_name (writable_field 3)) with "achievements"; rewrite Hachs;
  rewrite to_internal_value_loop_step, image_field_run_validation;
  change (field_name (writable_field 4)) with "image"; rewrite Himage;
  reflexivity.
Qed.

End Validation.

Lemma Sample_image_field_raises (x : json) :
  raises_only_validation_errors (@ImageField_to_internal_value Sample.platform x).
Proof.
  destruct x as [| | | | | |f]; try reflexivity.
  cbn [ImageField_to_internal_value Sample.platform]. unfold Sample.accept_file.
  destruct (_ || _)%bool; [reflexivity|].
  destruct (Sample.is_image _); reflexivity.
Qed.

Lemma color_of_wrong_type_raises_TypeError_witness :
  exists msg,
    @CatSerializer.is_valid_and_save Sample.platform None (Some 1) false
      (JObj numeric_color) [] empty_store
    = (inl (TypeError msg), [], empty_store).
Proof.
  apply (@color_of_wrong_type_raises_TypeError Sample.platform None (Some 1) false
           numeric_color (JNum 16777215) [] empty_store).
  - vm_compute. reflexivity.
  - discriminate.
  - intros c. discriminate.
Defined.

Lemma validation_raises_validation_errors_witness :
  raises_only_validation_errors
    (fst (@CatSerializer.run_validation Sample.platform false born_in_1900 [])).
Proof.
  apply (@validation_raises_validation_errors Sample.platform false born_in_1900 []).
  - exact Sample_image_field_raises.
  - intros o v Ho Hv. injection Ho as <-.
    vm_compute in Hv. injection Hv as <-. right. eexists. reflexivity.
Defined.

Lemma validated_data_sound_witness :
  [] = @nil log_record /\
  vd_owner murka_validated = None /\
  (false = false ->
   is_Some (vd_name murka_validated) /\ is_Some (vd_color murka_validated) /\
   is_Some (vd_birth_year murka_validated)) /\
  (is_Some (vd_name murka_validated) <-> is_Some (murka_request !! "name")) /\
  (is_Some (vd_color murka_validated) <-> is_Some (murka_request !! "color")) /\
  (is_Some (vd_birth_year murka_validated) <-> is_Some (murka_request !! "birth_year")) /\
  (is_Some (vd_achievements murka_validated)
   <-> is_Some (murka_request !! "achievements")) /\
  (is_Some (vd_image murka_validated) <-> is_Some (murka_request !! "image")) /\
  (forall c, vd_color murka_validated = Some c ->
     exists code, @CSS3_HEX_TO_NAMES Sample.platform !! code = Some c) /\
  (vd_image murka_validated = Some None <-> murka_request !! "image" = Some JNull) /\
  (forall ds, vd_achievements murka_validated = Some ds ->
     exists items, murka_request !! "achievements" = Some (JArr items) /\
                   length ds = length items /\
                   (false = false -> Forall named ds)).
Proof.
  apply (@validated_data_sound Sample.platform false murka_request [] murka_validated []).
  vm_compute. reflexivity.
Defined.

Lemma create_request_reads_back_witness :
  [] = @nil log_record /\ murka_cat ∈ cats murka_store /\
  exists v_name v_color v_year name color birth_year,
    murka_request !! "name" = Some v_name /\
    @CharField_run_validation Sample.platform (Some 16%nat) v_name = inr name /\
    murka_request !! "color" = Some v_color /\
    @Hex2NameColor.to_internal_value Sample.platform v_color = inr color /\
    murka_request !! "birth_year" = Some v_year /\
    @IntegerField_run_validation Sample.platform v_year = inr birth_year /\
    1900 < birth_year < 2100 /\
    @CatSerializer.to_representation Sample.platform {| year := 2024 |} murka_store
      murka_cat !! "name" = Some (JStr name) /\
    @CatSerializer.to_representation Sample.platform {| year := 2024 |} murka_store
      murka_cat !! "color" = Some (JStr color) /\
    @CatSerializer.to_representation Sample.platform {| year := 2024 |} murka_store
      murka_cat !! "birth_year" = Some (JNum birth_year) /\
    @CatSerializer.to_representation Sample.platform {| year := 2024 |} murka_store
      murka_cat !! "owner" = Some (JNum 1) /\
    @CatSerializer.to_representation Sample.platform {| year := 2024 |} murka_store
      murka_cat !! "age" = Some (JNum (year {| year := 2024 |} - birth_year)) /\
    (murka_request !! "image" = None \/ murka_request !! "image" = Some JNull ->
     @CatSerializer.to_representation Sample.platform {| year := 2024 |} murka_store
       murka_cat !! "image" = Some JNull).
Proof.
  apply (@create_request_reads_back Sample.platform {| year := 2024 |} murka_request []
           1 empty_store murka_cat [] murka_store empty_store_consistent).
  vm_compute. reflexivity.
Defined.

Lemma representation_is_not_writable_witness :
  exists errors log',
    @CatSerializer.run_validation Sample.platform false
      (JObj (@CatSerializer.to_representation Sample.platform {| year := 2024 |}
               murka_store murka_cat)) []
    = (inl (ValidationError (FieldErrors errors)), log') /\
    ("color", Msg Hex2NameColor.invalid_color) ∈ errors.
Proof.
  exact (@representation_is_not_writable Sample.platform {| year := 2024 |} murka_store
           murka_cat false [] Sample_image_field_raises eq_refl).
Defined.

(** ** The range of [birth_year] *)

Section BirthYear.

Context `{Platform}.

(** C6, as the code has it: with the other column that is not nullable
    given, the creation of the cat row succeeds exactly when
    [1900 < birth_year < 2100], and [create] can only succeed in that
    range.  A birth year the column holds that is outside the range makes
    [create] raise the integrity error of the check constraint
    [birth_year_reasonable], which is not a validation error, and nothing
    is written.  The validation of the serializer does not catch it: on a
    request with a name, a colour and a birth year that the fields of the
    framework accept, validation returns the integer that the integer
    field gave, whatever it is, and outside the range the whole write
    request ends with the integrity error. *)
Theorem birth_year_constraint (s : store) (vd : validated_data) (y owner : Z) :
  vd_birth_year vd = Some y -> vd_owner vd = Some owner ->
  ((exists cat s', Cat_objects_create (CatSerializer.set_achievements None vd) s
                   = (inr cat, s'))
   <-> 1900 < y < 2100)
  /\ ((exists cat s', CatSerializer.create vd s = (inr cat, s')) -> 1900 < y < 2100)
  /\ (in_IntegerField_range y -> ~ 1900 < y < 2100 ->
      exists e,
        CatSerializer.create vd s = (inl e, s) /\
        e = IntegrityError (CheckConstraint "birth_year_reasonable") /\
        is_ValidationError e = false)
  /\ (forall data v_name v_color v_year name color log,
        data !! "name" = Some v_name -> v_name <> JNull ->
        CharField_run_validation (Some 16%nat) v_name = inr name ->
        data !! "color" = Some v_color -> v_color <> JNull ->
        Hex2NameColor.to_internal_value v_color = inr color ->
        data !! "birth_year" = Some v_year -> v_year <> JNull ->
        IntegerField_run_validation v_year = inr y ->
        data !! "achievements" = None -> data !! "image" = None ->
        CatSerializer.run_validation false (JObj data) log
        = (inr {| vd_name := Some name; vd_color := Some color;
                  vd_birth_year := Some y; vd_achievements := None;
                  vd_owner := None; vd_image := None |}, log)
        /\ (in_IntegerField_range y -> ~ 1900 < y < 2100 ->
            CatSerializer.is_valid_and_save None (Some owner) false (JObj data) log s
            = (inl (IntegrityError (CheckConstraint "birth_year_reasonable")), log, s))).
Proof.
  intros Hy Ho.
  assert (Hfail : forall vd', vd_birth_year vd' = Some y -> vd_owner vd' = Some owner ->
                  ~ 1900 < y < 2100 ->
                  CatSerializer.create vd' s
                  = (inl (IntegrityError (CheckConstraint "birth_year_reasonable")), s)).
  { intros vd' Hy' Ho' Hr. rewrite create_unfold. unfold mbind, DB_bind.
    rewrite (Cat_objects_create_unreasonable vd' y owner s Hy' Ho' Hr). reflexivity. }
  split; [split|split; [|split]].
  - intros (cat & s' & E).
    destruct (decide (birth_year_reasonable y)) as [Hr|Hr]; [exact Hr|].
    rewrite (Cat_objects_create_unreasonable vd y owner s Hy Ho Hr) in E. discriminate.
  - intros Hr. eexists _, _. exact (Cat_objects_create_ok vd y owner s Hy Ho Hr).
  - intros (cat & s' & E).
    destruct (decide (birth_year_reasonable y)) as [Hr|Hr]; [exact Hr|].
    rewrite (Hfail vd Hy Ho Hr) in E. discriminate.
  - intros _ Hr. eexists. split; [exact (Hfail vd Hy Ho Hr)|]. split; reflexivity.
  - intros data v_name v_color v_year name color log
      Hname Nname Aname Hcolor Ncolor Acolor Hyear Nyear Ayear Hachs Himage.
    pose proof (run_validation_plain_request false data log v_name v_color v_year
                  name color y Hname Nname Aname Hcolor Ncolor Acolor Hyear Nyear Ayear
                  Hachs Himage) as Hval.
    split; [exact Hval|].
    intros _ Hr. unfold CatSerializer.is_valid_and_save. rewrite Hval.
    unfold CatSerializer.save. cbv zeta.
    match goal with
    | |- context [CatSerializer.create ?vd' s] =>
        rewrite (Hfail vd' eq_refl eq_refl Hr)
    end.
    reflexivity.
Qed.

End BirthYear.

Lemma birth_year_constraint_witness :
  (exists e,
     CatSerializer.create (CatSerializer.set_birth_year 1900 murka) empty_store
     = (inl e, empty_store) /\
     e = IntegrityError (CheckConstraint "birth_year_reasonable") /\
     is_ValidationError e = false)
  /\ @CatSerializer.run_validation Sample.platform false born_in_1900 []
     = (inr {| vd_name := Some "Murka"; vd_color := Some "white";
               vd_birth_year := Some 1900; vd_achievements := None;
               vd_owner := None; vd_image := None |}, [])
  /\ @CatSerializer.is_valid_and_save Sample.platform None (Some 1) false born_in_1900
       [] empty_store
     = (inl (IntegrityError (CheckConstraint "birth_year_reasonable")), [], empty_store).
Proof.
  assert (Hcolumn : in_IntegerField_range 1900) by (unfold in_IntegerField_range; lia).
  assert (Hout : ~ 1900 < 1900 < 2100) by lia.
  destruct (@birth_year_constraint Sample.platform empty_store
              (CatSerializer.set_birth_year 1900 murka) 1900 1 eq_refl eq_refl)
    as (_ & _ & Hcreate & Hrequest).
  split; [exact (Hcreate Hcolumn Hout)|].
  destruct (Hrequest (<["name" := JStr "Murka"]> (<["color" := JStr "#ffffff"]>
                      (<["birth_year" := JNum 1900]> ∅)))
              (JStr "Murka") (JStr "#ffffff") (JNum 1900) "Murka" "white" [])
    as [Hval Hsave]; try reflexivity; try discriminate.
  split; [exact Hval|exact (Hsave Hcolumn Hout)].
Defined.

(** C6 as stated fails: a birth year of 1900 is not rejected as invalid
    input.  [create] raises an integrity error, and so does the whole
    write request, whose validation lets the value through. *)
Lemma birth_year_1900_is_no_validation_error :
  CatSerializer.create (CatSerializer.set_birth_year 1900 murka) empty_store
  = (inl (IntegrityError (CheckConstraint "birth_year_reasonable")), empty_store)
  /\ is_ValidationError (IntegrityError (CheckConstraint "birth_year_reasonable")) = false
  /\ @CatSerializer.is_valid_and_save Sample.platform None (Some 1) false born_in_1900
       [] empty_store
     = (inl (IntegrityError (CheckConstraint "birth_year_reasonable")), [], empty_store).
Proof. split; [reflexivity|]. split; [reflexivity|]. vm_compute. reflexivity. Qed.

(** ** Get-or-create twice *)


(** X15: get-or-create is idempotent: once it has returned an achievement
    for some keyword arguments, the same call returns the same achievement
    as one that was found, and writes nothing. *)
Theorem get_or_create_idempotent (kwargs : achievement_data) (s : store)
    (a : Achievement) (created : bool) (s1 : store) :
  Achievement_objects_get_or_create kwargs s = (inr (a, created), s1) ->
  Achievement_objects_get_or_create kwargs s1 = (inr (a, false), s1).
Proof.
  unfold Achievement_objects_get_or_create.
  destruct (filter (matches kwargs) (achievements s)) as [|a0 [|a1 l]] eqn:E;
    [| |discriminate].
  - unfold Achievement_objects_create, mbind, DB_bind, mret, DB_ret.
    intros Hrun. injection Hrun as <- <- <-. store_simpl.
    rewrite filter_app, E, filter_cons, filter_nil. cbn [app].
    rewrite decide_True; [reflexivity|].
    unfold matches. store_simpl. destruct (data_name kwargs); [reflexivity|exact Logic.I].
  - intros Hrun. injection Hrun as <- <- <-. rewrite E. reflexivity.
Qed.

(** ** The loop on descriptors that carry a name *)

Lemma named_descriptor (d : achievement_data) : named d -> exists n, d = descriptor n.
Proof. destruct d as [[n|]]; intros [x Hx]; [exists n; reflexivity|discriminate]. Qed.

(** One turn on a named descriptor, in a consistent store that has the
    cat: it returns with one more through row, or the pair is linked
    already and it raises, the through table as it was. *)
Lemma attach_named (cat : Cat) (n : string) (s : store) :
  consistent s -> Cat_id cat ∈ Cat_id <$> cats s ->
  exists r s1,
    CatSerializer.attach cat (descriptor n) s = (r, s1) /\
    cats s1 = cats s /\
    ((r = inr tt /\
      exists row, AchievementCat_cat row = Cat_id cat /\
                  achievement_cats s1 = achievement_cats s ++ [row]) \/
     (r = inl unique_error /\ achievement_cats s1 = achievement_cats s)).
Proof.
  intros [Hschema Hnames] Hcat. unfold CatSerializer.attach, mbind, DB_bind.
  destruct (decide (n ∈ Achievement_name <$> achievements s)) as [Hin|Hin].
  - apply list_elem_of_fmap in Hin as (a & -> & Ha).
    rewrite (get_or_create_found s a Hnames Ha).
    destruct (decide ((Achievement_id a, Cat_id cat) ∈ pairs s)) as [Hp|Hp].
    + rewrite (AchievementCat_objects_create_duplicate s a cat Hp).
      eexists _, _. split; [reflexivity|]. split; [reflexivity|].
      right. split; reflexivity.
    + rewrite (AchievementCat_objects_create_ok s a cat Hp
                 (list_elem_of_fmap_2 Achievement_id _ _ Ha) Hcat).
      eexists _, _. split; [reflexivity|]. store_simpl. split; [reflexivity|].
      left. split; [reflexivity|]. eexists. split; [|reflexivity]. reflexivity.
  - rewrite (get_or_create_missing s n Hin).
    match goal with
    | |- context [AchievementCat_objects_create ?a cat ?s0] =>
        destruct (decide ((Achievement_id a, Cat_id cat) ∈ pairs s0)) as [Hp|Hp];
        [rewrite (AchievementCat_objects_create_duplicate s0 a cat Hp)
        |rewrite (AchievementCat_objects_create_ok s0 a cat Hp)]
    end.
    + eexists _, _. split; [reflexivity|]. store_simpl. split; [reflexivity|].
      right. split; reflexivity.
    + eexists _, _. split; [reflexivity|]. store_simpl. split; [reflexivity|].
      left. split; [reflexivity|]. eexists. split; [|reflexivity]. reflexivity.
    + store_simpl. rewrite fmap_app. apply elem_of_app. right. left.
    + store_simpl. exact Hcat.
Qed.

Lemma for_each_attach_named (cat : Cat) (names : list string) : forall s,
  consistent s -> Cat_id cat ∈ Cat_id <$> cats s ->
  exists r s' rows,
    for_each (descriptor <$> names) (CatSerializer.attach cat) s = (r, s') /\
    cats s' = cats s /\
    achievement_cats s' = achievement_cats s ++ rows /\
    Forall (fun row => AchievementCat_cat row = Cat_id cat) rows /\
    ((r = inr tt /\ length rows = length names) \/
     (r = inl unique_error /\ (length rows < length names)%nat)).
Proof.
  induction names as [|n names IH]; intros s Hs Hcat.
  - exists (inr tt), s, []. rewrite app_nil_r.
    split; [reflexivity|]. split; [reflexivity|]. split; [reflexivity|].
    split; [constructor|]. left. split; reflexivity.
  - rewrite fmap_cons. cbn [for_each]. unfold mbind at 1, DB_bind at 1.
    destruct (attach_named cat n s Hs Hcat) as (r & s1 & Hrun & Hcats & Hcase).
    pose proof (attach_consistent cat (descriptor n) s Hs) as Hs1.
    rewrite Hrun in *. cbn [snd] in Hs1.
    destruct Hcase as [[-> (row & Hrow & Hrows)]|[-> Hrows]].
    + destruct (IH s1 Hs1) as (r' & s' & rows & Hrun' & Hcats' & Hrows' & Hall' & Hcase').
      { rewrite Hcats. exact Hcat. }
      exists r', s', (row :: rows). rewrite Hrun'.
      split; [reflexivity|]. split; [congruence|].
      split; [rewrite Hrows', Hrows, <- app_assoc; reflexivity|].
      split; [constructor; assumption|].
      cbn [length]. destruct Hcase' as [[-> Hlen]|[-> Hlen]]; [left|right];
        (split; [reflexivity|lia]).
    + exists (inl unique_error), s1, []. rewrite app_nil_r.
      split; [reflexivity|]. split; [exact Hcats|]. split; [exact Hrows|].
      split; [constructor|].
      right. split; [reflexivity|]. cbn [length]. lia.
Qed.

(** ** An item without a name *)

Lemma matches_no_data (l : list Achievement) :
  filter (matches AchievementSerializer.no_data) l = l.
Proof. apply filter_all. intros a _. exact Logic.I. Qed.

(** X18: get-or-create on a descriptor without a name (what a partial
    update validates an item without [achievement_name] to) looks up with
    no condition: it creates an achievement with the empty name in an
    empty table, returns the achievement of a table that has one, and
    raises [MultipleObjectsReturned] when the table has more.  [update]
    with such a descriptor first then raises that exception, after the cat
    was saved and its through rows were deleted. *)
Theorem get_or_create_without_name :
  (forall s,
      achievements s = [] ->
      exists a s',
        Achievement_objects_get_or_create AchievementSerializer.no_data s
        = (inr (a, true), s') /\
        Achievement_name a = "" /\ achievements s' = [a])
  /\ (forall s a,
      achievements s = [a] ->
      Achievement_objects_get_or_create AchievementSerializer.no_data s
      = (inr (a, false), s))
  /\ (forall s,
      (2 <= length (achievements s))%nat ->
      Achievement_objects_get_or_create AchievementSerializer.no_data s
      = (inl MultipleObjectsReturned, s))
  /\ (forall s instance vd ds,
      vd_achievements vd = Some (AchievementSerializer.no_data :: ds) ->
      1900 < Cat_birth_year (updated instance vd) < 2100 ->
      (2 <= length (achievements s))%nat ->
      exists s',
        CatSerializer.update instance vd s = (inl MultipleObjectsReturned, s') /\
        updated instance vd ∈ cats s' /\
        achievements s' = achievements s /\
        achievement_cats s'
        = filter (fun r => AchievementCat_cat r ≠ Cat_id instance) (achievement_cats s)).
Proof.
  assert (Hmany : forall s,
      (2 <= length (achievements s))%nat ->
      Achievement_objects_get_or_create AchievementSerializer.no_data s
      = (inl MultipleObjectsReturned, s)).
  { intros s Hlen. unfold Achievement_objects_get_or_create. rewrite matches_no_data.
    destruct (achievements s) as [|a [|a' l]]; cbn [length] in Hlen; try lia.
    reflexivity. }
  split; [|split; [|split; [exact Hmany|]]].
  - intros s E. unfold Achievement_objects_get_or_create. rewrite matches_no_data, E.
    unfold Achievement_objects_create, mbind, DB_bind, mret, DB_ret. rewrite E.
    eexists _, _. split; [reflexivity|]. split; reflexivity.
  - intros s a E. unfold Achievement_objects_get_or_create.
    rewrite matches_no_data, E. reflexivity.
  - intros s instance vd ds Hds Hr Hlen.
    destruct (Cat_save_ok (updated instance vd) s Hr)
      as (s0 & w & Hsave & Hachs0 & Hrows0 & Hin & _).
    exists (snd (Cat_achievements_clear (updated instance vd) s0)). split.
    + rewrite update_unfold, Hds.
      unfold mbind at 1, DB_bind at 1. rewrite Hsave.
      unfold mbind at 1, DB_bind at 1. unfold mbind at 1, DB_bind at 1.
      change (Cat_achievements_clear (updated instance vd) s0)
        with (@inr exn unit tt, snd (Cat_achievements_clear (updated instance vd) s0)).
      cbv beta iota.
      cbn [for_each]. unfold mbind at 1, DB_bind at 1.
      unfold CatSerializer.attach at 1. unfold mbind at 1, DB_bind at 1.
      rewrite Hmany; [reflexivity|].
      change (achievements (snd (Cat_achievements_clear (updated instance vd) s0)))
        with (achievements s0).
      rewrite Hachs0. exact Hlen.
    + unfold Cat_achievements_clear. store_simpl. split; [exact Hin|].
      split; [exact Hachs0|]. rewrite Hrows0. reflexivity.
Qed.


(** ** The order in which achievements are read *)

Lemma insert_by_name_sorted (a : Achievement) (l : list Achievement) :
  Sorted by_name l -> Sorted by_name (insert_by_name a l).
Proof.
  induction l as [|b l IH]; intros Hl; cbn [insert_by_name].
  - repeat constructor.
  - destruct (String.leb (Achievement_name a) (Achievement_name b)) eqn:E.
    + constructor; [exact Hl|]. constructor. exact E.
    + apply Sorted_inv in Hl as [Hl Hb].
      constructor; [apply IH; exact Hl|].
      assert (Hba : by_name b a).
      { destruct (String.leb_total (Achievement_name a) (Achievement_name b)) as [Hab|Hba];
          [congruence|exact Hba]. }
      destruct l as [|c l]; cbn [insert_by_name].
      * constructor. exact Hba.
      * destruct (String.leb (Achievement_name a) (Achievement_name c)).
        -- constructor. exact Hba.
        -- constructor. inversion Hb. assumption.
Qed.

Lemma order_by_name_sorted (l : list Achievement) : Sorted by_name (order_by_name l).
Proof.
  unfold order_by_name. induction l as [|a l IH]; cbn [foldr].
  - constructor.
  - apply insert_by_name_sorted. exact IH.
Qed.

Lemma matches_descriptors (names : list string) (joined : list Achievement) :
  Forall2 matches (descriptor <$> names) joined -> Achievement_name <$> joined = names.
Proof.
  revert joined. induction names as [|n names IH]; intros joined Hm.
  - inversion Hm. reflexivity.
  - rewrite fmap_cons in Hm. inversion Hm as [|d a ds joined' Hda Hrest]; subst.
    rewrite fmap_cons, (IH _ Hrest). f_equal. exact Hda.
Qed.

(** X19: the achievements of a cat are read in the order of their names;
    and after [create] or [update] has returned on descriptors with
    names, the names read back are the names given, each as many times as
    it was given. *)
Theorem achievements_read_in_name_order :
  (forall cat s, Sorted name_le (Achievement_name <$> Cat_achievements_all cat s))
  /\ (forall s vd names cat s',
      consistent s -> default [] (vd_achievements vd) = descriptor <$> names ->
      CatSerializer.create vd s = (inr cat, s') ->
      Achievement_name <$> Cat_achievements_all cat s' ≡ₚ names)
  /\ (forall s instance vd names cat s',
      consistent s -> vd_achievements vd = Some (descriptor <$> names) ->
      CatSerializer.update instance vd s = (inr cat, s') ->
      Achievement_name <$> Cat_achievements_all cat s' ≡ₚ names).
Proof.
  split; [|split].
  - intros cat s. unfold Cat_achievements_all.
    apply (Sorted_fmap Achievement_name by_name name_le); [intros x y Hxy; exact Hxy|].
    apply order_by_name_sorted.
  - intros s vd names cat s' Hs Hds Hrun.
    destruct (create_returns s vd cat s' Hs Hrun)
      as (y & o & created & joined & rows & _ & _ & _ & _ & _ & Hattached & _ & Hall).
    rewrite Hall, order_by_name_perm.
    rewrite (matches_descriptors names joined); [reflexivity|].
    rewrite <- Hds. exact (attached_joined _ _ _ _ _ _ _ _ Hattached).
  - intros s instance vd names cat s' Hs Hds Hrun.
    destruct (update_returns s instance vd _ cat s' Hs Hds Hrun)
      as (_ & created & joined & rows & Hattached & _ & Hall).
    rewrite Hall, order_by_name_perm.
    rewrite (matches_descriptors names joined); [reflexivity|].
    exact (attached_joined _ _ _ _ _ _ _ _ Hattached).
Qed.

(** ** When [create] and [update] return *)

(** Once the loop has returned in a consistent store, the names of the
    descriptors are pairwise distinct: each gave a through row of the
    cat, and the table has no pair twice. *)
Lemma attached_distinct_names (cat_pk : Z) (names : list string)
    (before : list Achievement) (rows_before : list AchievementCat) (s' : store)
    (created joined : list Achievement) (rows : list AchievementCat) :
  consistent s' ->
  attached cat_pk (descriptor <$> names) before rows_before s' created joined rows ->
  NoDup names.
Proof.
  intros [Hschema Hnames] [_ _ Hrows Hpairs Hjoined Hmembers].
  rewrite <- (matches_descriptors names joined Hjoined).
  pose proof (achievement_cat_unique_together s' Hschema) as Hunique.
  unfold pairs in Hunique. rewrite Hrows, fmap_app in Hunique.
  apply NoDup_app in Hunique as (_ & _ & Hunique). rewrite Hpairs in Hunique.
  apply NoDup_fmap_1 in Hunique.
  apply NoDup_fmap_2_strong; [|exact Hunique].
  intros a b Ha Hb Hab.
  exact (NoDup_fmap_key Achievement_name (achievements s') a b Hnames
           (Hmembers a Ha) (Hmembers b Hb) Hab).
Qed.

(** X16: [create] on validated data with a birth year in the range, an
    owner and descriptors with names, from a consistent store: it returns
    exactly when the names are pairwise distinct.  When a name comes
    twice it raises the error of [unique_together], and what was written
    before stays: the row of the new cat, with a primary key that was not
    in use, and through rows of that cat, fewer than there are
    descriptors. *)
Theorem create_returns_iff_names_distinct (s : store) (vd : validated_data)
    (names : list string) (birth_year owner : Z) :
  consistent s ->
  vd_birth_year vd = Some birth_year -> 1900 < birth_year < 2100 ->
  vd_owner vd = Some owner ->
  default [] (vd_achievements vd) = descriptor <$> names ->
  ((exists cat s', CatSerializer.create vd s = (inr cat, s')) <-> NoDup names)
  /\ (~ NoDup names ->
      exists s' cat rows,
        CatSerializer.create vd s = (inl unique_error, s') /\
        cats s' = cats s ++ [cat] /\
        (Cat_id cat ∉ Cat_id <$> cats s) /\
        Cat_birth_year cat = birth_year /\ Cat_owner cat = owner /\
        achievement_cats s' = achievement_cats s ++ rows /\
        Forall (fun row => AchievementCat_cat row = Cat_id cat) rows /\
        (length rows < length names)%nat).
Proof.
  intros Hs Hy Hr Ho Hds.
  assert (Hiff : (exists cat s', CatSerializer.create vd s = (inr cat, s')) <-> NoDup names).
  { split.
    - intros (cat & s' & Hrun).
      destruct (create_returns s vd cat s' Hs Hrun)
        as (y & o & created & joined & rows & _ & _ & _ & _ & _ & Hattached & _).
      rewrite Hds in Hattached.
      apply (attached_distinct_names _ _ _ _ s' _ _ _) in Hattached; [exact Hattached|].
      pose proof (create_consistent vd s Hs) as Hs'. rewrite Hrun in Hs'. exact Hs'.
    - intros Hnodup.
      destruct (create_distinct_names s vd names birth_year owner Hs Hy Hr Ho Hds Hnodup)
        as (s' & created & joined & rows & Hrun & _).
      eauto. }
  split; [exact Hiff|].
  intros Hdup.
  pose proof (Cat_objects_create_ok vd birth_year owner s Hy Ho Hr) as Hcreate.
  cbv zeta in Hcreate.
  set (cat := {| Cat_id := fresh_pk (Cat_id <$> cats s);
                 Cat_name := default "" (vd_name vd);
                 Cat_color := default "" (vd_color vd);
                 Cat_birth_year := birth_year; Cat_owner := owner;
                 Cat_image := default None (vd_image vd) |}) in *.
  set (s0 := {| achievements := achievements s; cats := cats s ++ [cat];
                achievement_cats := achievement_cats s;
                journal := journal s ++ [InsertCat cat] |}) in *.
  assert (Hs0 : consistent s0).
  { pose proof (Cat_objects_create_consistent
                  (CatSerializer.set_achievements None vd) s Hs) as Hc.
    rewrite Hcreate in Hc. exact Hc. }
  destruct (for_each_attach_named cat names s0 Hs0)
    as (r & s' & rows & Hrun & Hcats & Hrows & Hall & Hcase).
  { subst s0. store_simpl. rewrite fmap_app. apply elem_of_app. right. left. }
  assert (E : CatSerializer.create vd s
              = (match r with inl e => inl e | inr _ => inr cat end, s')).
  { rewrite create_unfold. unfold mbind at 1, DB_bind at 1. rewrite Hcreate.
    unfold mbind, DB_bind. rewrite Hds, Hrun. destruct r as [e|[]]; reflexivity. }
  destruct Hcase as [[-> _]|[-> Hlen]].
  - exfalso. apply Hdup, Hiff. eauto.
  - exists s', cat, rows. split; [exact E|].
    split; [rewrite Hcats; reflexivity|].
    split; [apply fresh_pk_fresh|].
    split; [reflexivity|]. split; [reflexivity|].
    split; [exact Hrows|]. split; [exact Hall|exact Hlen].
Qed.

(** X17: [update] on validated data that has the key, with descriptors
    that carry names and a birth year that stays in the range, from a
    consistent store: it returns exactly when the names are pairwise
    distinct.  When a name comes twice it raises the error of
    [unique_together]; by then the new values of the cat are saved, every
    through row the cat had is gone, and it is left with fewer rows than
    there are descriptors. *)
Theorem update_returns_iff_names_distinct (s : store) (instance : Cat)
    (vd : validated_data) (names : list string) :
  consistent s -> vd_achievements vd = Some (descriptor <$> names) ->
  1900 < Cat_birth_year (updated instance vd) < 2100 ->
  ((exists cat s', CatSerializer.update instance vd s = (inr cat, s')) <-> NoDup names)
  /\ (~ NoDup names ->
      exists s' rows,
        CatSerializer.update instance vd s = (inl unique_error, s') /\
        updated instance vd ∈ cats s' /\
        achievement_cats s'
        = filter (fun r => AchievementCat_cat r ≠ Cat_id instance) (achievement_cats s)
          ++ rows /\
        Forall (fun row => AchievementCat_cat row = Cat_id instance) rows /\
        (length rows < length names)%nat).
Proof.
  intros Hs Hds Hr.
  assert (Hiff : (exists cat s', CatSerializer.update instance vd s = (inr cat, s'))
                 <-> NoDup names).
  { split.
    - intros (cat & s' & Hrun).
      destruct (update_returns s instance vd _ cat s' Hs Hds Hrun)
        as (_ & created & joined & rows & Hattached & _).
      apply (attached_distinct_names _ _ _ _ s' _ _ _) in Hattached; [exact Hattached|].
      pose proof (update_consistent instance vd s Hs) as Hs'. rewrite Hrun in Hs'.
      exact Hs'.
    - intros Hnodup.
      destruct (proj2 (update_absent_or_distinct_names s instance vd) names Hds Hnodup
                  Hs Hr) as (s' & created & joined & rows & Hrun & _).
      eauto. }
  split; [exact Hiff|].
  intros Hdup.
  set (new := updated instance vd) in *.
  destruct (Cat_save_ok new s Hr) as (s0 & w & Hsave & Hachs0 & Hrows0 & Hin & _).
  assert (Hs0 : consistent s0).
  { pose proof (Cat_save_consistent new s Hs) as Hc. rewrite Hsave in Hc. exact Hc. }
  set (s1 := snd (Cat_achievements_clear new s0)).
  assert (Hs1 : consistent s1) by (apply Cat_achievements_clear_consistent; exact Hs0).
  destruct (for_each_attach_named new names s1 Hs1)
    as (r & s' & rows & Hrun & Hcats & Hrows & Hall & Hcase).
  { subst s1. unfold Cat_achievements_clear. store_simpl.
    apply list_elem_of_fmap_2. exact Hin. }
  assert (E : CatSerializer.update instance vd s
              = (match r with inl e => inl e | inr _ => inr new end, s')).
  { rewrite update_unfold, Hds. fold new.
    unfold mbind at 1, DB_bind at 1. rewrite Hsave.
    unfold mbind at 1, DB_bind at 1. unfold mbind at 1, DB_bind at 1.
    change (Cat_achievements_clear new s0) with (@inr exn unit tt, s1).
    cbv beta iota. rewrite Hrun. destruct r as [e|[]]; reflexivity. }
  destruct Hcase as [[-> _]|[-> Hlen]].
  - exfalso. apply Hdup, Hiff. eauto.
  - exists s', rows. split; [exact E|].
    split; [rewrite Hcats; subst s1; unfold Cat_achievements_clear; store_simpl;
            exact Hin|].
    split; [|split; [exact Hall|exact Hlen]].
    rewrite Hrows. subst s1. unfold Cat_achievements_clear. store_simpl.
    rewrite Hrows0. reflexivity.
Qed.

(** ** Deletions and their cascades *)

Lemma bind_ext_in {A B : Type} (f g : A -> list B) (l : list A) :
  (forall x, x ∈ l -> f x = g x) -> l ≫= f = l ≫= g.
Proof.
  induction l as [|x l IH]; intros Hfg; [reflexivity|].
  rewrite !bind_cons, (Hfg x) by left. f_equal. apply IH.
  intros y Hy. apply Hfg. right. exact Hy.
Qed.

(** The rows that the loop appended are rows of the cat. *)
Lemma attached_rows_of_cat (cat_pk : Z) (ds : list achievement_data)
    (before : list Achievement) (rows_before : list AchievementCat) (s' : store)
    (created joined : list Achievement) (rows : list AchievementCat) :
  attached cat_pk ds before rows_before s' created joined rows ->
  forall r, r ∈ rows -> AchievementCat_cat r = cat_pk.
Proof.
  intros [_ _ _ Hpairs _ _] r Hr.
  apply (list_elem_of_fmap_2 pair_of) in Hr. rewrite Hpairs in Hr.
  apply list_elem_of_fmap in Hr as (a & Ea & _).
  unfold pair_of in Ea. injection Ea as _ Ec. exact Ec.
Qed.

(** X20: a cat that [create] has made and that is deleted next, with the
    cascade of [on_delete=models.CASCADE] on the through model: the cat
    table and the through table are what they were before the creation,
    so no through row of the cat is left behind; the achievements that
    the creation added stay; the store is consistent; and every cat reads
    the achievements it read before the creation. *)
Theorem create_then_delete_cat (s : store) (vd : validated_data) (cat : Cat) (s1 : store) :
  consistent s ->
  CatSerializer.create vd s = (inr cat, s1) ->
  exists s2,
    Cat_delete (Cat_id cat) s1 = (inr tt, s2) /\
    cats s2 = cats s /\
    achievement_cats s2 = achievement_cats s /\
    achievements s2 = achievements s1 /\
    consistent s2 /\
    (forall other, Cat_achievements_all other s2 = Cat_achievements_all other s).
Proof.
  intros Hs Hrun.
  pose proof (create_consistent vd s Hs) as Hs1. rewrite Hrun in Hs1. cbn [snd] in Hs1.
  destruct (create_returns s vd cat s1 Hs Hrun)
    as (y & o & created & joined & rows & _ & _ & _ & Hcat & Hcats & Hattached & _).
  assert (Hfresh : Cat_id cat ∉ Cat_id <$> cats s).
  { rewrite Hcat. cbn [Cat_id]. apply fresh_pk_fresh. }
  pose proof (attached_rows_of_cat _ _ _ _ _ _ _ _ Hattached) as Hrows_cat.
  destruct Hattached as [Hachs _ Hrows _ _ _].
  destruct Hs as [[Hpa Hpc Hu Hfk] Hn].
  assert (Ecats : filter (fun c => Cat_id c ≠ Cat_id cat) (cats s1) = cats s).
  { rewrite Hcats, filter_app, filter_cons, decide_False by (intros Hne; exact (Hne eq_refl)).
    rewrite filter_nil, app_nil_r. apply filter_all.
    intros c Hc E. apply Hfresh. rewrite <- E. apply list_elem_of_fmap_2. exact Hc. }
  assert (Erows : filter (fun r => AchievementCat_cat r ≠ Cat_id cat) (achievement_cats s1)
                  = achievement_cats s).
  { rewrite Hrows, filter_app.
    rewrite (filter_none _ rows) by (intros r Hr Hne; exact (Hne (Hrows_cat r Hr))).
    rewrite app_nil_r. apply filter_all.
    intros r Hr E. apply Hfresh. rewrite <- E. exact (proj2 (Hfk r Hr)). }
  eexists. split; [reflexivity|]. store_simpl.
  split; [exact Ecats|]. split; [exact Erows|]. split; [reflexivity|].
  split; [exact (Cat_delete_consistent (Cat_id cat) s1 Hs1)|].
  intros other. unfold Cat_achievements_all. store_simpl. rewrite Erows. f_equal.
  apply bind_ext_in. intros r Hr. apply list_elem_of_filter in Hr as [_ Hr].
  rewrite Hachs, filter_app.
  rewrite (filter_none _ created); [apply app_nil_r|].
  intros b Hb E.
  pose proof (achievement_pk s1 (proj1 Hs1)) as Hnodup.
  rewrite Hachs, fmap_app in Hnodup. apply NoDup_app in Hnodup as (_ & Hdisjoint & _).
  apply (Hdisjoint (Achievement_id b)).
  - rewrite E. exact (proj1 (Hfk r Hr)).
  - apply list_elem_of_fmap_2. exact Hb.
Qed.

Lemma fmap_filter_iff {A B : Type} (f : A -> B) (P : A -> Prop) (Q : B -> Prop)
    `{!forall x, Decision (P x)} `{!forall y, Decision (Q y)} (l : list A) :
  (forall x, x ∈ l -> P x <-> Q (f x)) ->
  f <$> filter P l = filter Q (f <$> l).
Proof.
  induction l as [|x l IH]; intros HPQ; [reflexivity|].
  rewrite fmap_cons, !filter_cons.
  assert (IH' : f <$> filter P l = filter Q (f <$> l))
    by (apply IH; intros y Hy; apply HPQ; right; exact Hy).
  destruct (decide (P x)) as [HP|HP], (decide (Q (f x))) as [HQ|HQ].
  - rewrite fmap_cons, IH'. reflexivity.
  - exfalso. apply HQ, HPQ; [left|exact HP].
  - exfalso. apply HP, HPQ; [left|exact HQ].
  - exact IH'.
Qed.

(** What a cat reads once an achievement is deleted: what it read, but
    for that achievement. *)
Lemma Achievement_delete_reads (pk : Z) (cat : Cat) (s : store) :
  Cat_achievements_all cat (snd (Achievement_delete pk s))
  ≡ₚ filter (fun a => Achievement_id a ≠ pk) (Cat_achievements_all cat s).
Proof.
  unfold Cat_achievements_all, Achievement_delete. store_simpl.
  rewrite !order_by_name_perm.
  match goal with |- ?l ≡ₚ ?r => assert (E : l = r); [|rewrite E; reflexivity] end.
  induction (achievement_cats s) as [|r rows IH]; [reflexivity|].
  rewrite !filter_cons.
  destruct (decide (AchievementCat_achievement r ≠ pk)) as [Hne|He];
    destruct (decide (AchievementCat_cat r = Cat_id cat)) as [Hc|Hc].
  - rewrite filter_cons, decide_True by exact Hc.
    rewrite !bind_cons, filter_app, IH. f_equal.
    rewrite !list_filter_filter. apply list_filter_iff. intros a. tauto.
  - rewrite filter_cons, decide_False by exact Hc. exact IH.
  - rewrite bind_cons, filter_app, IH.
    rewrite (filter_none _ (filter _ (achievements s))); [reflexivity|].
    intros a Ha Hne. apply list_elem_of_filter in Ha as [Ea _].
    apply He. congruence.
  - exact IH.
Qed.

(** X21: an achievement that is deleted after [create] has returned on
    descriptors with names, with the cascade on the through model: no cat
    row is touched; the store is consistent, so no through row refers to
    the deleted achievement; its name is free again; the new cat reads
    the names it was given but for that one; and every cat reads what it
    read, but for that achievement. *)
Theorem create_then_delete_achievement (s : store) (vd : validated_data)
    (names : list string) (cat : Cat) (s1 : store) (a : Achievement) :
  consistent s -> default [] (vd_achievements vd) = descriptor <$> names ->
  CatSerializer.create vd s = (inr cat, s1) ->
  a ∈ achievements s1 ->
  exists s2,
    Achievement_delete (Achievement_id a) s1 = (inr tt, s2) /\
    cats s2 = cats s1 /\
    consistent s2 /\
    (Achievement_name a ∉ Achievement_name <$> achievements s2) /\
    Achievement_name <$> Cat_achievements_all cat s2
    ≡ₚ filter (fun n => n ≠ Achievement_name a) names /\
    (forall other,
       Cat_achievements_all other s2
       ≡ₚ filter (fun b => Achievement_id b ≠ Achievement_id a)
            (Cat_achievements_all other s1)).
Proof.
  intros Hs Hds Hrun Ha.
  pose proof (create_consistent vd s Hs) as Hs1. rewrite Hrun in Hs1. cbn [snd] in Hs1.
  destruct (create_returns s vd cat s1 Hs Hrun)
    as (y & o & created & joined & rows & _ & _ & _ & _ & _ & Hattached & _ & Hall).
  rewrite Hds in Hattached.
  pose proof (matches_descriptors names joined (attached_joined _ _ _ _ _ _ _ _ Hattached))
    as Hjoined.
  pose proof (attached_members _ _ _ _ _ _ _ _ Hattached) as Hmembers.
  exists (snd (Achievement_delete (Achievement_id a) s1)).
  split; [reflexivity|]. split; [reflexivity|].
  split; [exact (Achievement_delete_consistent (Achievement_id a) s1 Hs1)|].
  destruct Hs1 as [Hschema Hnames].
  assert (Hkey : forall b, b ∈ achievements s1 ->
                   Achievement_id b ≠ Achievement_id a <->
                   Achievement_name b ≠ Achievement_name a).
  { intros b Hb. split; intros Hne E; apply Hne.
    - f_equal. exact (NoDup_fmap_key Achievement_name _ b a Hnames Hb Ha E).
    - f_equal.
      exact (NoDup_fmap_key Achievement_id _ b a (achievement_pk s1 Hschema) Hb Ha E). }
  split.
  { unfold Achievement_delete. store_simpl. intros Hin.
    apply list_elem_of_fmap in Hin as (b & Eb & Hb).
    apply list_elem_of_filter in Hb as [Hne Hb].
    apply (proj1 (Hkey b Hb) Hne). symmetry. exact Eb. }
  split.
  - rewrite Achievement_delete_reads, Hall, order_by_name_perm, <- Hjoined.
    rewrite (fmap_filter_iff Achievement_name _ (fun n => n ≠ Achievement_name a));
      [reflexivity|].
    intros b Hb. apply Hkey, Hmembers, Hb.
  - intros other. apply Achievement_delete_reads.
Qed.

(** ** The methods of the models *)

(** X22: the method [get_age] of the model computes what the serializer's
    [get_age] computes, and for a cat of a reachable store it lies
    strictly between the year of the clock minus 2100 and that year minus
    1900: nothing keeps it from being negative. *)
Theorem Cat_get_age_bounds (now : datetime) (s : store) (c : Cat) :
  reachable s -> c ∈ cats s ->
  Cat_get_age now c = CatSerializer.get_age now c /\
  year now - 2100 < Cat_get_age now c < year now - 1900.
Proof.
  intros Hs Hc. split; [reflexivity|].
  assert (Hall : birth_years_reasonable s).
  { clear c Hc. induction Hs as [|s s' _ IH Hstep]; [constructor|].
    exact (step_birth_years _ _ Hstep IH). }
  unfold birth_years_reasonable in Hall. rewrite Forall_forall in Hall.
  specialize (Hall c Hc). unfold birth_year_reasonable in Hall.
  unfold Cat_get_age. lia.
Qed.

(** X23: the text of a through row: in a reachable store both foreign keys
    of a through row are found, and the row prints as the name of its
    achievement, [" - "], and the name of its cat. *)
Theorem AchievementCat_str_defined (s : store) (r : AchievementCat) :
  reachable s -> r ∈ achievement_cats s ->
  exists a c,
    a ∈ achievements s /\ Achievement_id a = AchievementCat_achievement r /\
    c ∈ cats s /\ Cat_id c = AchievementCat_cat r /\
    AchievementCat_str r s = Some (Achievement_name a +:+ " - " +:+ Cat_name c).
Proof.
  intros Hs Hr. apply reachable_consistent in Hs as [Hschema _].
  destruct (achievement_cat_foreign_keys s Hschema r Hr) as [Ha Hc].
  apply list_elem_of_fmap in Ha as (a & Ea & Ha).
  apply list_elem_of_fmap in Hc as (c & Ec & Hc).
  exists a, c. split; [exact Ha|]. split; [congruence|]. split; [exact Hc|].
  split; [congruence|].
  unfold AchievementCat_str, AchievementCat_achievement_object, AchievementCat_cat_object.
  rewrite Ea, Ec.
  rewrite (filter_key_singleton Achievement_id _ a (achievement_pk s Hschema) Ha).
  rewrite (filter_key_singleton Cat_id _ c (cat_pk s Hschema) Hc).
  reflexivity.
Qed.

Lemma get_or_create_idempotent_witness :
  Achievement_objects_get_or_create (descriptor "Climber")
    (snd (Achievement_objects_get_or_create (descriptor "Climber") empty_store))
  = (inr ({| Achievement_id := 1; Achievement_name := "Climber" |}, false),
     snd (Achievement_objects_get_or_create (descriptor "Climber") empty_store)).
Proof.
  exact (get_or_create_idempotent (descriptor "Climber") empty_store
           {| Achievement_id := 1; Achievement_name := "Climber" |} true _ eq_refl).
Defined.

Lemma create_returns_iff_names_distinct_witness :
  ~ (exists cat s', CatSerializer.create climber_twice empty_store = (inr cat, s'))
  /\ exists s' cat rows,
       CatSerializer.create climber_twice empty_store = (inl unique_error, s') /\
       cats s' = cats empty_store ++ [cat] /\
       (Cat_id cat ∉ Cat_id <$> cats empty_store) /\
       Cat_birth_year cat = 2015 /\ Cat_owner cat = 1 /\
       achievement_cats s' = achievement_cats empty_store ++ rows /\
       Forall (fun row => AchievementCat_cat row = Cat_id cat) rows /\
       (length rows < length ["Climber"; "Climber"])%nat.
Proof.
  assert (Hdup : ~ NoDup ["Climber"; "Climber"]).
  { intros Hnodup. apply NoDup_cons in Hnodup as [Hnodup _]. apply Hnodup. left. }
  destruct (create_returns_iff_names_distinct empty_store climber_twice
              ["Climber"; "Climber"] 2015 1 empty_store_consistent eq_refl
              (conj eq_refl eq_refl) eq_refl eq_refl) as [Hiff Hraises].
  split; [intros Hreturns; exact (Hdup (proj1 Hiff Hreturns))|exact (Hraises Hdup)].
Defined.

Lemma update_returns_iff_names_distinct_witness :
  ~ (exists cat s', CatSerializer.update murka_cat hunter_twice murka_store = (inr cat, s'))
  /\ exists s' rows,
       CatSerializer.update murka_cat hunter_twice murka_store = (inl unique_error, s') /\
       updated murka_cat hunter_twice ∈ cats s' /\
       achievement_cats s'
       = filter (fun r => AchievementCat_cat r ≠ Cat_id murka_cat)
           (achievement_cats murka_store) ++ rows /\
       Forall (fun row => AchievementCat_cat row = Cat_id murka_cat) rows /\
       (length rows < length ["Hunter"; "Hunter"])%nat.
Proof.
  assert (Hdup : ~ NoDup ["Hunter"; "Hunter"]).
  { intros Hnodup. apply NoDup_cons in Hnodup as [Hnodup _]. apply Hnodup. left. }
  destruct (update_returns_iff_names_distinct murka_store murka_cat hunter_twice
              ["Hunter"; "Hunter"] (reachable_consistent _ murka_store_reachable)
              eq_refl (conj eq_refl eq_refl)) as [Hiff Hraises].
  split; [intros Hreturns; exact (Hdup (proj1 Hiff Hreturns))|exact (Hraises Hdup)].
Defined.

Lemma create_then_delete_cat_witness :
  exists s2,
    Cat_delete (Cat_id murka_cat) murka_store = (inr tt, s2) /\
    cats s2 = cats empty_store /\
    achievement_cats s2 = achievement_cats empty_store /\
    achievements s2 = achievements murka_store /\
    consistent s2 /\
    (forall other, Cat_achievements_all other s2 = Cat_achievements_all other empty_store).
Proof.
  exact (create_then_delete_cat empty_store murka murka_cat murka_store
           empty_store_consistent eq_refl).
Defined.

Lemma create_then_delete_achievement_witness :
  exists s2,
    Achievement_delete 1 murka_store = (inr tt, s2) /\
    cats s2 = cats murka_store /\
    consistent s2 /\
    ("Climber" ∉ Achievement_name <$> achievements s2) /\
    Achievement_name <$> Cat_achievements_all murka_cat s2
    ≡ₚ filter (fun n => n ≠ "Climber") ["Climber"] /\
    (forall other,
       Cat_achievements_all other s2
       ≡ₚ filter (fun b => Achievement_id b ≠ 1) (Cat_achievements_all other murka_store)).
Proof.
  apply (create_then_delete_achievement empty_store murka ["Climber"] murka_cat murka_store
           {| Achievement_id := 1; Achievement_name := "Climber" |}
           empty_store_consistent eq_refl eq_refl).
  vm_compute. left.
Defined.

Lemma Cat_get_age_bounds_witness :
  Cat_get_age {| year := 2024 |} murka_cat
  = CatSerializer.get_age {| year := 2024 |} murka_cat /\
  2024 - 2100 < Cat_get_age {| year := 2024 |} murka_cat < 2024 - 1900.
Proof.
  apply (Cat_get_age_bounds {| year := 2024 |} murka_store murka_cat murka_store_reachable).
  vm_compute. left.
Defined.

Lemma AchievementCat_str_defined_witness :
  exists a c,
    a ∈ achievements murka_store /\ Achievement_id a = 1 /\
    c ∈ cats murka_store /\ Cat_id c = 1 /\
    AchievementCat_str
      {| AchievementCat_id := 1; AchievementCat_achievement := 1; AchievementCat_cat := 1 |}
      murka_store
    = Some (Achievement_name a +:+ " - " +:+ Cat_name c).
Proof.
  apply (AchievementCat_str_defined murka_store
           {| AchievementCat_id := 1; AchievementCat_achievement := 1;
              AchievementCat_cat := 1 |} murka_store_reachable).
  vm_compute. left.
Defined.

(** ** What [create] and [update] leave alone *)

#[local] Instance only_appends_refl : Reflexive only_appends.
Proof. intros s. split; exists []; rewrite app_nil_r; reflexivity. Qed.

#[local] Instance only_appends_trans : Transitive only_appends.
Proof.
  intros s1 s2 s3 [(c1 & Hc1) (r1 & Hr1)] [(c2 & Hc2) (r2 & Hr2)]. split.
  - exists (c1 ++ c2). rewrite Hc2, Hc1, <- app_assoc. reflexivity.
  - exists (r1 ++ r2). rewrite Hr2, Hr1, <- app_assoc. reflexivity.
Qed.

#[local] Instance keeps_others_refl pk : Reflexive (keeps_others pk).
Proof. intros s. split; [exists []; rewrite app_nil_r; reflexivity|intros r _; reflexivity]. Qed.

#[local] Instance keeps_others_trans pk : Transitive (keeps_others pk).
Proof.
  intros s1 s2 s3 [(c1 & Hc1) Hr1] [(c2 & Hc2) Hr2]. split.
  - exists (c1 ++ c2). rewrite Hc2, Hc1, <- app_assoc. reflexivity.
  - intros r Hr. rewrite (Hr2 r Hr). exact (Hr1 r Hr).
Qed.

Lemma only_appends_keeps_others (pk : Z) (s s' : store) :
  (exists created, achievements s' = achievements s ++ created) ->
  (exists rows, achievement_cats s' = achievement_cats s ++ rows /\
                Forall (fun r => AchievementCat_cat r = pk) rows) ->
  keeps_others pk s s'.
Proof.
  intros Ha (rows & Hr & Hrows). split; [exact Ha|].
  intros r Hne. rewrite Hr, elem_of_app. split; [|tauto].
  intros [Hin|Hin]; [exact Hin|]. exfalso. apply Hne.
  rewrite Forall_forall in Hrows. exact (Hrows r Hin).
Qed.

Lemma get_or_create_appends (d : achievement_data) (s : store) :
  (exists created,
     achievements (snd (Achievement_objects_get_or_create d s)) = achievements s ++ created) /\
  achievement_cats (snd (Achievement_objects_get_or_create d s)) = achievement_cats s.
Proof.
  unfold Achievement_objects_get_or_create.
  destruct (filter (matches d) (achievements s)) as [|a [|a' l]];
    try (split; [exists []; rewrite app_nil_r; reflexivity|reflexivity]).
  unfold Achievement_objects_create, mbind, DB_bind, mret, DB_ret. store_simpl.
  split; [eexists; reflexivity|reflexivity].
Qed.

Lemma AchievementCat_objects_create_appends (a : Achievement) (cat : Cat) (s : store) :
  achievements (snd (AchievementCat_objects_create a cat s)) = achievements s /\
  exists rows,
    achievement_cats (snd (AchievementCat_objects_create a cat s))
    = achievement_cats s ++ rows /\
    Forall (fun r => AchievementCat_cat r = Cat_id cat) rows.
Proof.
  unfold AchievementCat_objects_create.
  repeat case_decide; store_simpl;
    (split; [reflexivity|]);
    try (exists []; rewrite app_nil_r; split; [reflexivity|constructor]).
  eexists. split; [reflexivity|]. repeat constructor.
Qed.

Lemma attach_only_appends (cat : Cat) (d : achievement_data) :
  relates only_appends (CatSerializer.attach cat d).
Proof.
  unfold CatSerializer.attach. apply relates_bind; try apply _.
  - intros s. destruct (get_or_create_appends d s) as [Ha Hr].
    split; [exact Ha|]. exists []. rewrite app_nil_r. exact Hr.
  - intros [a created]. apply relates_bind; try apply _.
    + intros s. destruct (AchievementCat_objects_create_appends a cat s)
        as [Ha (rows & Hr & _)].
      split; [exists []; rewrite app_nil_r; exact Ha|exists rows; exact Hr].
    + intros _. apply relates_ret; apply _.
Qed.

Lemma attach_keeps_others (cat : Cat) (d : achievement_data) :
  relates (keeps_others (Cat_id cat)) (CatSerializer.attach cat d).
Proof.
  unfold CatSerializer.attach. apply relates_bind; try apply _.
  - intros s. destruct (get_or_create_appends d s) as [Ha Hr].
    apply only_appends_keeps_others; [exact Ha|].
    exists []. rewrite app_nil_r. split; [exact Hr|constructor].
  - intros [a created]. apply relates_bind; try apply _.
    + intros s. destruct (AchievementCat_objects_create_appends a cat s) as [Ha Hr].
      apply only_appends_keeps_others; [|exact Hr].
      exists []. rewrite app_nil_r. exact Ha.
    + intros _. apply relates_ret; apply _.
Qed.

(** X24: what the serializer never does: whether it returns or raises,
    [create] deletes no achievement and no through row (both tables are
    the tables before, with rows appended); and [update] deletes no
    achievement and leaves the through rows of every other cat as they
    were. *)
Theorem serializer_keeps_what_it_does_not_own :
  (forall vd s, only_appends s (snd (CatSerializer.create vd s)))
  /\ (forall instance vd s,
      keeps_others (Cat_id instance) s (snd (CatSerializer.update instance vd s))).
Proof.
  split.
  - intros vd s. revert s. change (relates only_appends (CatSerializer.create vd)).
    unfold CatSerializer.create.
    apply relates_bind; try apply _.
    + intros s. destruct (Cat_objects_create_relation (CatSerializer.set_achievements None vd) s)
        as [Ha Hr].
      split; exists []; rewrite app_nil_r; assumption.
    + intros cat. apply relates_bind; try apply _; [|intros _; apply relates_ret; apply _].
      apply relates_for_each; try apply _. intros d. apply (attach_only_appends cat d).
  - intros instance vd s. revert s.
    change (relates (keeps_others (Cat_id instance)) (CatSerializer.update instance vd)).
    intros s. rewrite update_unfold. revert s.
    change (relates (keeps_others (Cat_id instance))
              (Cat_save (updated instance vd) ≫= fun _ =>
               match vd_achievements vd with
               | Some ds =>
                   Cat_achievements_clear (updated instance vd) ≫= fun _ =>
                   for_each ds (CatSerializer.attach (updated instance vd))
               | None => mret tt
               end ≫= fun _ => mret (updated instance vd))).
    apply relates_bind; try apply _.
    + intros s. unfold keeps_others, Cat_save.
      repeat case_decide; store_simpl;
        (split; [exists []; rewrite app_nil_r; reflexivity|intros r _; reflexivity]).
    + intros _. apply relates_bind; try apply _; [|intros _; apply relates_ret; apply _].
      destruct (vd_achievements vd) as [ds|]; [|apply relates_ret; apply _].
      apply relates_bind; try apply _.
      * intros s. unfold keeps_others, Cat_achievements_clear. store_simpl. split.
        -- exists []. rewrite app_nil_r. reflexivity.
        -- intros r Hne. rewrite list_elem_of_filter. tauto.
      * intros _. apply relates_for_each; try apply _.
        intros d. apply (attach_keeps_others (updated instance vd) d).
Qed.

(** ** A request without any key the serializer reads *)

Lemma reachable_birth_years_reasonable (s : store) :
  reachable s -> birth_years_reasonable s.
Proof.
  induction 1 as [|s s' _ IH Hstep]; [constructor|].
  exact (step_birth_years _ _ Hstep IH).
Qed.

(** Saving a row as it is in the table leaves the table as it is. *)
Lemma Cat_save_same_row (instance : Cat) (s : store) :
  NoDup (Cat_id <$> cats s) -> instance ∈ cats s ->
  birth_year_reasonable (Cat_birth_year instance) ->
  Cat_save instance s
  = (inr tt,
     {| achievements := achievements s; cats := cats s;
        achievement_cats := achievement_cats s;
        journal := journal s ++ [UpdateCat instance] |}).
Proof.
  intros Hpk Hin Hr. unfold Cat_save.
  rewrite decide_True by exact Hr.
  rewrite decide_True by (apply list_elem_of_fmap_2; exact Hin).
  do 2 f_equal.
  rewrite <- (list_fmap_id (cats s)) at 2.
  apply list_fmap_ext. intros i row Hrow. cbn.
  destruct (decide (Cat_id row = Cat_id instance)) as [E|]; [|reflexivity].
  apply (NoDup_fmap_key Cat_id (cats s)); try assumption.
  - apply list_elem_of_lookup. eauto.
  - congruence.
Qed.

Section EmptyRequest.

Context `{Platform}.

Lemma run_validation_without_keys (partial : bool) (data : gmap string json)
    (log : list log_record) :
  (forall k, k ∈ writable_keys -> data !! k = None) ->
  CatSerializer.run_validation partial (JObj data) log
  = (if partial then inr CatSerializer.no_data
     else inl (ValidationError
                 (FieldErrors [("name", Msg Field.required_msg);
                               ("color", Msg Field.required_msg);
                               ("birth_year", Msg Field.required_msg)])),
     log).
Proof.
  intros Hnone. unfold CatSerializer.run_validation, Serializer.to_internal_value.
  rewrite writable_fields_by_position.
  rewrite to_internal_value_loop_step, name_field_run_validation.
  change (field_name (writable_field 0)) with "name".
  rewrite (Hnone "name") by (unfold writable_keys; set_solver).
  destruct partial.
  - rewrite to_internal_value_loop_step, color_field_run_validation.
    change (field_name (writable_field 1)) with "color".
    rewrite (Hnone "color") by (unfold writable_keys; set_solver).
    rewrite to_internal_value_loop_step, birth_year_field_run_validation.
    change (field_name (writable_field 2)) with "birth_year".
    rewrite (Hnone "birth_year") by (unfold writable_keys; set_solver).
    rewrite to_internal_value_loop_step, achievements_field_run_validation.
    change (field_name (writable_field 3)) with "achievements".
    rewrite (Hnone "achievements") by (unfold writable_keys; set_solver).
    rewrite to_internal_value_loop_step, image_field_run_validation.
    change (field_name (writable_field 4)) with "image".
    rewrite (Hnone "image") by (unfold writable_keys; set_solver).
    reflexivity.
  - rewrite to_internal_value_loop_step, color_field_run_validation.
    change (field_name (writable_field 1)) with "color".
    rewrite (Hnone "color") by (unfold writable_keys; set_solver).
    rewrite to_internal_value_loop_step, birth_year_field_run_validation.
    change (field_name (writable_field 2)) with "birth_year".
    rewrite (Hnone "birth_year") by (unfold writable_keys; set_solver).
    rewrite to_internal_value_loop_step, achievements_field_run_validation.
    change (field_name (writable_field 3)) with "achievements".
    rewrite (Hnone "achievements") by (unfold writable_keys; set_solver).
    rewrite to_internal_value_loop_step, image_field_run_validation.
    change (field_name (writable_field 4)) with "image".
    rewrite (Hnone "image") by (unfold writable_keys; set_solver).
    reflexivity.
Qed.

(** X25: a request body with none of the keys the serializer reads (an
    empty body, say): a full validation rejects it with the three errors
    of the required fields, in the order of the fields, and nothing is
    stored; a partial update of a cat of a reachable store returns the cat
    as it is and leaves the three tables as they are, yet it does write:
    the row is saved once. *)
Theorem request_without_writable_keys (data : gmap string json) (log : list log_record)
    (s : store) :
  (forall k, k ∈ writable_keys -> data !! k = None) ->
  (forall instance owner,
      CatSerializer.is_valid_and_save instance owner false (JObj data) log s
      = (inl (ValidationError
                (FieldErrors [("name", Msg Field.required_msg);
                              ("color", Msg Field.required_msg);
                              ("birth_year", Msg Field.required_msg)])),
         log, s))
  /\ (forall instance owner,
      reachable s -> instance ∈ cats s ->
      exists s',
        CatSerializer.is_valid_and_save (Some instance) owner true (JObj data) log s
        = (inr instance, log, s') /\
        cats s' = cats s /\ achievements s' = achievements s /\
        achievement_cats s' = achievement_cats s /\
        journal s' = journal s ++ [UpdateCat instance]).
Proof.
  intros Hnone. split.
  - intros instance owner. unfold CatSerializer.is_valid_and_save.
    rewrite (run_validation_without_keys false data log Hnone). reflexivity.
  - intros instance owner Hs Hin.
    unfold CatSerializer.is_valid_and_save.
    rewrite (run_validation_without_keys true data log Hnone).
    assert (Hr : birth_year_reasonable (Cat_birth_year instance)).
    { pose proof (reachable_birth_years_reasonable s Hs) as Hall.
      unfold birth_years_reasonable in Hall. rewrite Forall_forall in Hall.
      exact (Hall instance Hin). }
    assert (Hpk : NoDup (Cat_id <$> cats s)).
    { apply reachable_consistent in Hs as [Hschema _]. apply Hschema. }
    assert (Hsave : forall vd,
              vd_name vd = None -> vd_color vd = None -> vd_birth_year vd = None ->
              vd_image vd = None -> vd_achievements vd = None ->
              CatSerializer.update instance vd s
              = (inr instance,
                 {| achievements := achievements s; cats := cats s;
                    achievement_cats := achievement_cats s;
                    journal := journal s ++ [UpdateCat instance] |})).
    { intros vd E1 E2 E3 E4 E5. rewrite update_unfold.
      assert (updated instance vd = instance) as ->.
      { unfold updated. rewrite E1, E2, E3, E4. destruct instance; reflexivity. }
      unfold mbind, DB_bind. rewrite (Cat_save_same_row instance s Hpk Hin Hr), E5.
      reflexivity. }
    eexists. unfold CatSerializer.save.
    destruct owner as [o|]; rewrite Hsave by reflexivity;
      (split; [reflexivity|]); store_simpl; repeat split; reflexivity.
Qed.

End EmptyRequest.

Lemma request_without_writable_keys_witness :
  (forall instance owner,
      @CatSerializer.is_valid_and_save Sample.platform instance owner false (JObj ∅) []
        murka_store
      = (inl (ValidationError
                (FieldErrors [("name", Msg Field.required_msg);
                              ("color", Msg Field.required_msg);
                              ("birth_year", Msg Field.required_msg)])),
         [], murka_store))
  /\ (forall instance owner,
      reachable murka_store -> instance ∈ cats murka_store ->
      exists s',
        @CatSerializer.is_valid_and_save Sample.platform (Some instance) owner true
          (JObj ∅) [] murka_store
        = (inr instance, [], s') /\
        cats s' = cats murka_store /\ achievements s' = achievements murka_store /\
        achievement_cats s' = achievement_cats murka_store /\
        journal s' = journal murka_store ++ [UpdateCat instance]).
Proof.
  apply (@request_without_writable_keys Sample.platform ∅ [] murka_store).
  intros k _. reflexivity.
Defined.
